(** * reposync: mirroring the packages of remote repositories

    A shallow embedding of [plugins/reposync.py] (the [reposync] command of
    dnf-plugins-core) and of the library calls it relies on, followed by the
    properties of the synchronisation engine.

    Layout:
    - [PyStr]     : the [str] methods used by the plugin;
    - [PosixPath] : [os.path] ([join], [normpath], [dirname], [basename]);
    - [Exec]      : a state-and-exception monad for the effectful code;
    - [OS]        : the file system calls ([os], [shutil], [dnf.util]);
    - [Dnf]       : the calls into the repository client;
    - [Reposync]  : the plugin itself;
    - [Links]     : the deletion pass once more, on a tree with symbolic
                    links, special files and directories that deny
                    writing. *)

From Stdlib Require Import Ascii String.
From stdpp Require Import gmap strings list fin_maps.

Local Open Scope string_scope.
Local Open Scope list_scope.

(* ===================================================================== *)
(** ** Python [str] methods *)
(* ===================================================================== *)

Module PyStr.

Definition sep : ascii := "/"%char.

Definition is_sep (c : ascii) : bool := Ascii.eqb c sep.

(** [s.startswith(p)] *)
Definition startswith (s p : string) : bool := String.prefix p s.

(** [s.endswith(suf)]: some tail of [s] is [suf]. *)
Fixpoint endswith (s suf : string) : bool :=
  String.eqb s suf
  || match s with
     | EmptyString => false
     | String _ r => endswith r suf
     end.

(** [s.lstrip("/")] *)
Fixpoint lstrip_sep (s : string) : string :=
  match s with
  | String c r => if is_sep c then lstrip_sep r else s
  | EmptyString => EmptyString
  end.

(** [s.split("/")]; the result is never the empty list. *)
Fixpoint split_sep (s : string) : list string :=
  match s with
  | EmptyString => [EmptyString]
  | String c r =>
      if is_sep c then EmptyString :: split_sep r
      else match split_sep r with
           | h :: t => String c h :: t
           | [] => [String c EmptyString]
           end
  end.

(** ["/".join(comps)] *)
Definition join_sep (comps : list string) : string :=
  String.concat "/" comps.

Definition no_sep (s : string) : bool :=
  forallb (fun c => negb (is_sep c)) (list_ascii_of_string s).

(** The names [normpath] drops or interprets. *)
Definition special_name (s : string) : bool :=
  String.eqb s "" || String.eqb s "." || String.eqb s "..".

(** A name as a directory holds it: without a slash, not empty, and
    neither [.] nor [..]. *)
Definition plain_name (s : string) : bool :=
  no_sep s && negb (special_name s).

(** Python truth value of a [str]. *)
Definition truthy (s : string) : bool := negb (String.eqb s "").

End PyStr.

(* ===================================================================== *)
(** ** [os.path] on POSIX *)
(* ===================================================================== *)

Module PosixPath.
Import PyStr.

(** One step of the loop of [posixpath.join]: [path] extended by [b]. *)
Definition join (path b : string) : string :=
  if startswith b "/" then b
  else if negb (truthy path) || endswith path "/" then path +:+ b
  else path +:+ "/" +:+ b.

(** [os.path.join(a, b, c)] *)
Definition join3 (a b c : string) : string := join (join a b) c.

(** The number of slashes [normpath] keeps in front: POSIX allows one or
    two initial slashes and treats three or more as a single one. *)
Definition initial_slashes (path : string) : nat :=
  if startswith path "/" then
    if startswith path "//" && negb (startswith path "///") then 2 else 1
  else 0.

(** The body of the [for comp in comps] loop of [normpath]; [new_comps]
    is kept in reverse (its head is [new_comps[-1]]). *)
Definition norm_step (rooted : bool) (new_comps : list string)
    (comp : string) : list string :=
  if String.eqb comp "" || String.eqb comp "." then new_comps
  else if negb (String.eqb comp "..") then comp :: new_comps
  else match new_comps with
       | [] => if rooted then [] else [comp]
       | top :: below =>
           if String.eqb top ".." then comp :: new_comps else below
       end.

Definition norm_comps (rooted : bool) (comps : list string) : list string :=
  rev (fold_left (norm_step rooted) comps []).

Definition normpath (path : string) : string :=
  if String.eqb path "" then "."
  else
    let slashes := initial_slashes path in
    let comps := norm_comps (negb (Nat.eqb slashes 0)) (split_sep path) in
    let path' := String.concat "" (repeat "/" slashes) +:+ join_sep comps in
    if truthy path' then path' else ".".

(** [p.rfind("/") + 1] splits [p] into [p[:i]] and [p[i:]]. *)
Definition rsplit (p : string) : string * string :=
  match rev (split_sep p) with
  | [] => ("", "")
  | tail :: rinit =>
      (String.concat "" (map (fun c => c +:+ "/") (rev rinit)), tail)
  end.

Definition basename (p : string) : string := snd (rsplit p).

(** [s.rstrip("/")] on the reversed character list. *)
Fixpoint rstrip_sep_aux (rs : list ascii) : list ascii :=
  match rs with
  | c :: r => if is_sep c then rstrip_sep_aux r else rs
  | [] => []
  end.

Definition rstrip_sep (s : string) : string :=
  string_of_list_ascii
    (rev (rstrip_sep_aux (rev (list_ascii_of_string s)))).

Definition all_sep (s : string) : bool :=
  forallb is_sep (list_ascii_of_string s).

Definition dirname (p : string) : string :=
  let head := fst (rsplit p) in
  if truthy head && negb (all_sep head) then rstrip_sep head else head.

(** The "strict path prefix" of the specification: [t] is a strict path
    prefix of [p] when [p] names something properly below the directory
    [t]. *)
Definition strict_path_prefix (t p : string) : bool :=
  startswith p (join t "") && negb (String.eqb p (join t "")).

End PosixPath.

(* ===================================================================== *)
(** ** Effects: mutable state and exceptions *)
(* ===================================================================== *)

(** The exceptions that can cross the plugin. *)
Inductive Exn : Type :=
| DnfError (download_target download_path : string)
    (** [dnf.exceptions.Error]: "Download target '{}' is outside of
        download path '{}'." *)
| CliError (repoid : string)
    (** [dnf.cli.CliError]: "Unknown repo: '%s'." *)
| OSError (path : string)
| SameFileError (path : string)
| DownloadError (location : string)
| RepoError (repoid : string).

Inductive Result (A : Type) : Type :=
| Ok (a : A)
| Raise (e : Exn).
Arguments Ok {A} a.
Arguments Raise {A} e.

Module Exec.

(** A computation over a store [S] that returns or raises; the store
    survives the exception, as the heap of a Python process does. *)
Definition M (S A : Type) : Type := S -> Result A * S.

Definition ret {S A} (a : A) : M S A := fun s => (Ok a, s).

Definition raise {S A} (e : Exn) : M S A := fun s => (Raise e, s).

Definition bind {S A B} (m : M S A) (k : A -> M S B) : M S B :=
  fun s =>
    match m s with
    | (Ok a, s') => k a s'
    | (Raise e, s') => (Raise e, s')
    end.

Definition gets {S A} (f : S -> A) : M S A := fun s => (Ok (f s), s).

Definition modify {S} (f : S -> S) : M S unit := fun s => (Ok tt, f s).

(** [try: m except OSError: h] *)
Definition try_OSError {S A} (m : M S A) (h : M S A) : M S A :=
  fun s =>
    match m s with
    | (Raise (OSError _), s') => h s'
    | r => r
    end.

Definition when {S} (b : bool) (m : M S unit) : M S unit :=
  if b then m else ret tt.

(** [for x in l: body(x)] *)
Fixpoint for_each {S A} (l : list A) (body : A -> M S unit) : M S unit :=
  match l with
  | [] => ret tt
  | x :: l' => bind (body x) (fun _ => for_each l' body)
  end.

(** [[f(x) for x in l]] *)
Fixpoint comprehension {S A B} (l : list A) (f : A -> M S B)
    : M S (list B) :=
  match l with
  | [] => ret []
  | x :: l' =>
      bind (f x) (fun y =>
      bind (comprehension l' f) (fun ys => ret (y :: ys)))
  end.

End Exec.

Declare Scope exec_scope.
Delimit Scope exec_scope with exec.
Notation "x <- m ;; k" := (Exec.bind m (fun x => k))
  (at level 100, m at next level, right associativity) : exec_scope.
Notation "m ;; k" := (Exec.bind m (fun _ => k))
  (at level 100, right associativity) : exec_scope.
Local Open Scope exec_scope.

(* ===================================================================== *)
(** ** Data model *)
(* ===================================================================== *)

(** A repository of [base.repos] ([dnf.repo.Repo]), with the attributes
    the plugin reads or sets. *)
Module Repo.
Record t : Type := mk {
  id : string;
  enabled : bool;
  deltarpm : bool;
  expired : bool;                 (** set by [repo._repo.expire()] *)
  pkgdir : string;
  comps_fn : option string        (** [repo.metadata._comps_fn] *)
}.
End Repo.

(** A package of the sack.  [evr] is the rank of its epoch-version-release
    in rpm's version order, [is_local] the answer of [pkg._is_local_pkg()],
    [payload] the bytes the transfer layer obtains for it ([None] when the
    transfer fails). *)
Module Package.
Record t : Type := mk {
  name : string;
  evr : nat;
  arch : string;
  location : string;
  repo : Repo.t;
  is_local : bool;
  payload : option string
}.

Definition reponame (pkg : t) : string := Repo.id (repo pkg).
End Package.

(** [self.opts] *)
Module Opt.
Record t : Type := mk {
  arches : list string;
  delete : bool;
  downloadcomps : bool;
  download_metadata : bool;
  newest_only : bool;
  download_path : string;
  source : bool;
  repo : list string;
  destdir : option string
}.
End Opt.

(** The local tree: entries by their resolved path (the list of names
    from the root); the root itself is always a directory. *)
Inductive Node : Type :=
| File (data : string)
| Dir.

Abbreviation FS := (gmap (list string) Node).

(** What the run did to the outside world, oldest first. *)
Inductive Event : Type :=
| EvFetch (pkg : Package.t) (dest : string)  (** fetched over the network *)
| EvCopy (src dst : string)                (** [shutil.copy] wrote [dst] *)
| EvUnlink (path : string)                 (** [os.unlink] removed [path] *)
| EvInfo (msg arg : string)                (** [logger.info] *)
| EvError (msg arg : string).              (** [logger.error] *)

Record State : Type := mkState {
  fs : FS;
  _repo_target : gmap string string;       (** [self._repo_target] *)
  keepcache : bool;                        (** [self.base.conf.keepcache] *)
  trace : list Event
}.

Definition set_fs (f : FS) (st : State) : State :=
  mkState f (_repo_target st) (keepcache st) (trace st).

Definition set_repo_target (m : gmap string string) (st : State) : State :=
  mkState (fs st) m (keepcache st) (trace st).

Definition set_keepcache (b : bool) (st : State) : State :=
  mkState (fs st) (_repo_target st) b (trace st).

Definition emit (ev : Event) (st : State) : State :=
  mkState (fs st) (_repo_target st) (keepcache st) (trace st ++ [ev]).

(** The only fetches among the events are fetches of [remote] packages. *)
Definition fetches_only (remote : list Package.t) (ev : Event) : Prop :=
  match ev with
  | EvFetch q _ => q ∈ remote
  | _ => True
  end.

(** The trace of [st'] is the trace of [st] followed by events that all
    satisfy [P]. *)
Definition extends_trace (P : Event -> Prop) (st st' : State) : Prop :=
  exists new, trace st' = trace st ++ new /\ Forall P new.

(** Nothing of the tree [f] is missing in [f']: every entry is still
    there, and every directory is still a directory. *)
Definition tree_kept (f f' : FS) : Prop :=
  (forall k, is_Some (f !! k) -> is_Some (f' !! k))
  /\ (forall k, f !! k = Some Dir -> f' !! k = Some Dir).

(* ===================================================================== *)
(** ** File system calls *)
(* ===================================================================== *)

Module OS.
Import PyStr PosixPath Exec.

Section Calls.

(** [os.getcwd()], an absolute path. *)
Variable cwd : string.

(** Path resolution of the kernel, without symbolic links: relative
    paths start at [cwd], empty and [.] names are skipped, [..] goes
    up and stays at the root. *)
Definition resolve (p : string) : list string :=
  norm_comps true (split_sep (join cwd p)).

Definition node_at (f : FS) (k : list string) : option Node :=
  match k with
  | [] => Some Dir
  | _ => f !! k
  end.

Definition path_exists (f : FS) (p : string) : bool :=
  match node_at f (resolve p) with Some _ => true | None => false end.

Definition isfile (f : FS) (p : string) : bool :=
  match node_at f (resolve p) with Some (File _) => true | _ => false end.

Definition isdir (f : FS) (p : string) : bool :=
  match node_at f (resolve p) with Some Dir => true | _ => false end.

(** [Some n] when [k] is the entry named [n] directly inside [d]. *)
Fixpoint child_name (d k : list string) : option string :=
  match d, k with
  | [], [n] => Some n
  | x :: d', y :: k' => if String.eqb x y then child_name d' k' else None
  | _, _ => None
  end.

Definition children (f : FS) (d : list string) : list string :=
  omap (child_name d) (map_to_list f).*1.

(** [os.listdir(p)] *)
Definition listdir (p : string) : M State (list string) :=
  fun st =>
    match node_at (fs st) (resolve p) with
    | Some Dir => (Ok (children (fs st) (resolve p)), st)
    | _ => (Raise (OSError p), st)
    end.

(** [os.unlink(p)]: only a regular file can be removed. *)
Definition unlink (p : string) : M State unit :=
  fun st =>
    match node_at (fs st) (resolve p) with
    | Some (File _) =>
        (Ok tt,
         emit (EvUnlink p) (set_fs (base.delete (resolve p) (fs st)) st))
    | _ => (Raise (OSError p), st)
    end.

(** [os.makedirs] below [done], one name of [todo] after the other;
    [None] when a regular file is in the way. *)
Fixpoint mkdirs (f : FS) (done todo : list string) : option FS :=
  match todo with
  | [] => Some f
  | c :: rest =>
      let k := done ++ [c] in
      match f !! k with
      | Some Dir => mkdirs f k rest
      | Some (File _) => None
      | None => mkdirs (<[k := Dir]> f) k rest
      end
  end.

(** [dnf.util.ensure_dir(dname)]: [os.makedirs], where an existing
    directory is not an error. *)
Definition ensure_dir (dname : string) : M State unit :=
  fun st =>
    match mkdirs (fs st) [] (resolve dname) with
    | Some f' => (Ok tt, set_fs f' st)
    | None => (Raise (OSError dname), st)
    end.

Definition parent (k : list string) : list string := removelast k.

(** Create or truncate the regular file [k] and fill it with [data]:
    [k] must not be a directory and must sit in one. *)
Definition store (f : FS) (k : list string) (data : string) : option FS :=
  match k, node_at f k, node_at f (parent k) with
  | _ :: _, Some (File _), Some Dir
  | _ :: _, None, Some Dir => Some (<[k := File data]> f)
  | _, _, _ => None
  end.

(** [shutil.copy(src, dst)] *)
Definition copy (src dst : string) : M State unit :=
  fun st =>
    let dst := if isdir (fs st) dst then join dst (basename src) else dst in
    if bool_decide (resolve src = resolve dst) then
      (Raise (SameFileError src), st)
    else
      match node_at (fs st) (resolve src) with
      | Some (File data) =>
          match store (fs st) (resolve dst) data with
          | Some f' => (Ok tt, emit (EvCopy src dst) (set_fs f' st))
          | None => (Raise (OSError dst), st)
          end
      | _ => (Raise (OSError src), st)
      end.

End Calls.

End OS.

(* ===================================================================== *)
(** ** The repository client (dnf, hawkey, librepo) *)
(* ===================================================================== *)

(** The calls of the client library that the plugin makes, as the library
    documents them. *)
Module Dnf.
Import PyStr PosixPath Exec.

Definition SYSTEM_REPO_NAME : string := "@System".
Definition CMDLINE_REPO_NAME : string := "@commandline".

(** [query.available()] *)
Definition available (q : list Package.t) : list Package.t :=
  List.filter
    (fun p => negb (String.eqb (Package.reponame p) SYSTEM_REPO_NAME)) q.

(** [query.filterm(reponame=r)] *)
Definition filterm_reponame (r : string) (q : list Package.t)
    : list Package.t :=
  List.filter (fun p => String.eqb (Package.reponame p) r) q.

(** [query.filterm(arch=a)] for a list of architectures. *)
Definition filterm_arch (a : list string) (q : list Package.t)
    : list Package.t :=
  List.filter (fun p => existsb (String.eqb (Package.arch p)) a) q.

Definition same_name_arch (p q : Package.t) : bool :=
  String.eqb (Package.name p) (Package.name q)
  && String.eqb (Package.arch p) (Package.arch q).

(** [query.latest()]: the highest version of the packages of the query
    per package name and per architecture. *)
Definition latest (q : list Package.t) : list Package.t :=
  List.filter
    (fun p =>
       forallb
         (fun p' =>
            negb (same_name_arch p p')
            || Nat.leb (Package.evr p') (Package.evr p))
         q)
    q.

(** [base._select_remote_pkgs(pkgs)]: the packages to fetch and the
    packages of local repositories (packages given on the command line
    are in neither list).  The check of the checksums of the local
    packages, which can make the call raise, is left out. *)
Definition _select_remote_pkgs (pkgs : list Package.t)
    : list Package.t * list Package.t :=
  (List.filter (fun p => negb (Package.is_local p)) pkgs,
   List.filter
     (fun p =>
        Package.is_local p
        && negb (String.eqb (Package.reponame p) CMDLINE_REPO_NAME))
     pkgs).

Section Transfer.
Variable cwd : string.

(** The file is already there with the published bytes. *)
Definition have_file (f : FS) (file data : string) : bool :=
  match OS.node_at f (OS.resolve cwd file) with
  | Some (File have) => String.eqb have data
  | _ => false
  end.

(** One package target of the transfer layer: the file is stored in
    [dest] under the base name of its location; a file that is already
    there with the published bytes is not transferred again. *)
Definition fetch (pkg : Package.t) (dest : string) : M State unit :=
  fun st =>
    let file := join dest (basename (Package.location pkg)) in
    match Package.payload pkg with
    | None => (Raise (DownloadError (Package.location pkg)), st)
    | Some data =>
        if have_file (fs st) file data then (Ok tt, st)
        else
          match OS.store (fs st) (OS.resolve cwd file) data with
          | Some f' =>
              (Ok tt, emit (EvFetch pkg dest) (set_fs f' st))
          | None => (Raise (DownloadError (Package.location pkg)), st)
          end
    end.

(** [base._download_remote_payloads(payloads, drpm, progress, None)]:
    every payload is asked for its target parameters, then the targets
    are downloaded; the first irrecoverable error ends the batch. *)
Definition _download_remote_payloads {P : Type}
    (_target_params : P -> M State (Package.t * string))
    (payloads : list P) : M State unit :=
  targets <- comprehension payloads _target_params ;;
  for_each targets (fun t => fetch (fst t) (snd t)).

End Transfer.

End Dnf.

(* ===================================================================== *)
(** ** The plugin: [plugins/reposync.py] *)
(* ===================================================================== *)

Module Reposync.
Import PyStr PosixPath Exec.

(** [self.cli.demands] and [self.base.repos] as [configure] sees them. *)
Record Cli : Type := mkCli {
  available_repos : bool;
  sack_activation : bool;
  repos : list Repo.t
}.

Definition set_repos (rs : list Repo.t) (c : Cli) : Cli :=
  mkCli (available_repos c) (sack_activation c) rs.

Definition set_enabled (b : bool) (r : Repo.t) : Repo.t :=
  Repo.mk (Repo.id r) b (Repo.deltarpm r) (Repo.expired r)
    (Repo.pkgdir r) (Repo.comps_fn r).

(** [repo._repo.expire(); repo.deltarpm = False] *)
Definition expire_no_deltarpm (r : Repo.t) : Repo.t :=
  Repo.mk (Repo.id r) (Repo.enabled r) false true
    (Repo.pkgdir r) (Repo.comps_fn r).

(** [repos.iter_enabled()] *)
Definition iter_enabled (rs : list Repo.t) : list Repo.t :=
  List.filter Repo.enabled rs.

Definition has_repo (repoid : string) (rs : list Repo.t) : bool :=
  existsb (fun r => String.eqb (Repo.id r) repoid) rs.

(** [repos[repoid].enable()] *)
Definition enable (repoid : string) (rs : list Repo.t) : list Repo.t :=
  map (fun r => if String.eqb (Repo.id r) repoid then set_enabled true r
                else r) rs.

(** The repositories after [--repo ids]: the named ones switched on, all
    others switched off. *)
Definition select_repos (ids : list string) (rs : list Repo.t)
    : list Repo.t :=
  map (fun r => set_enabled (existsb (String.eqb (Repo.id r)) ids) r) rs.

Section Configure.

Variable opts : Opt.t.

(** [repos.enable_source_repos()] of the client library, whatever it
    does to the repositories. *)
Variable enable_source_repos : list Repo.t -> list Repo.t.

Definition enable_one (repoid : string) : M Cli unit :=
  fun c =>
    if has_repo repoid (repos c) then
      (Ok tt, set_repos (enable repoid (repos c)) c)
    else (Raise (CliError repoid), c).

Definition configure : M Cli unit :=
  modify (fun c => mkCli true true (repos c)) ;;
  when (negb (bool_decide (Opt.repo opts = [])))
    (modify (fun c => set_repos (map (set_enabled false) (repos c)) c) ;;
     for_each (Opt.repo opts) enable_one) ;;
  when (Opt.source opts)
    (modify (fun c => set_repos (enable_source_repos (repos c)) c)) ;;
  modify (fun c =>
    set_repos
      (map (fun r => if Repo.enabled r then expire_no_deltarpm r else r)
         (repos c)) c).

End Configure.

(** [RPMPayloadLocation]: a payload with its own destination. *)
Record RPMPayloadLocation : Type := mkPayload {
  pkg : Package.t;
  package_dir : string
}.

Section Command.

Variable cwd : string.                (** [os.getcwd()] *)
Variable opts : Opt.t.                (** [self.opts] *)
Variable base_repos : list Repo.t.    (** [self.base.repos] *)
Variable sack : list Package.t.       (** [self.base.sack] *)

(** [repo._repo.downloadMetadata(destdir)] and
    [dnf.yum.misc.decompress(src, dest=dest)] of the client library:
    what they do to the tree, [None] when they raise. *)
Variable downloadMetadata : Repo.t -> string -> FS -> option FS.
Variable decompress : string -> string -> FS -> option FS.

Definition _pkgdir (intermediate target : string) : string :=
  normpath (join3 cwd intermediate target).

(** [RPMPayloadLocation.__init__] *)
Definition new_payload (p : Package.t) (pkg_location : string)
    : RPMPayloadLocation :=
  mkPayload p (dirname pkg_location).

(** [RPMPayloadLocation._target_params] *)
Definition _target_params (pl : RPMPayloadLocation)
    : M State (Package.t * string) :=
  OS.ensure_dir cwd (package_dir pl) ;;
  ret (pkg pl, package_dir pl).

(** [self.opts.destdir or self.opts.download_path] *)
Definition destdir_or_download_path : string :=
  match Opt.destdir opts with
  | Some d => if truthy d then d else Opt.download_path opts
  | None => Opt.download_path opts
  end.

Definition repo_target (repo : Repo.t) : M State string :=
  fun st =>
    let miss :=
      let target := _pkgdir destdir_or_download_path (Repo.id repo) in
      (Ok target,
       set_repo_target (<[Repo.id repo := target]> (_repo_target st)) st) in
    match _repo_target st !! Repo.id repo with
    | Some target => if truthy target then (Ok target, st) else miss
    | None => miss
    end.

(** The target directory [repo_target] returns in the store [st]. *)
Definition target_of (st : State) (repo : Repo.t) : string :=
  match fst (repo_target repo st) with
  | Ok target => target
  | Raise _ => ""
  end.

Definition pkg_download_path (p : Package.t) : M State string :=
  repo_target <- repo_target (Package.repo p) ;;
  let pkg_download_path :=
    normpath (join repo_target (Package.location p)) in
  if negb (startswith pkg_download_path repo_target) then
    raise (DnfError pkg_download_path repo_target)
  else ret pkg_download_path.

(** The dictionary built by the first loop of
    [delete_old_local_packages]. *)
Definition download_map_of (packages_to_download : list Package.t)
    : gmap (string * string) nat :=
  fold_left
    (fun m p =>
       <[(Repo.id (Package.repo p), basename (Package.location p)) := 1]> m)
    packages_to_download ∅.

Definition in_map (download_map : gmap (string * string) nat)
    (key : string * string) : bool :=
  match download_map !! key with Some _ => true | None => false end.

(** An entry the deletion pass may remove, seen from the store [st] it
    starts in: a regular file named by joining the target directory of an
    enabled repository with a name that ends in [.rpm], where the pair of
    the repository id and that name is not in the dictionary. *)
Definition stale (download_map : gmap (string * string) nat) (st : State)
    (k : list string) : Prop :=
  exists r f data,
    r ∈ iter_enabled base_repos
    /\ endswith f ".rpm" = true
    /\ k = OS.resolve cwd (join (target_of st r) f)
    /\ fs st !! k = Some (File data)
    /\ in_map download_map (Repo.id r, f) = false.

(** The tree of [st'] is the tree of [st] without some stale entries, and
    the target directories are the same. *)
Definition only_stale_removed (download_map : gmap (string * string) nat)
    (st st' : State) : Prop :=
  (forall r, target_of st' r = target_of st r)
  /\ forall k,
       fs st' !! k = fs st !! k
       \/ (fs st' !! k = None /\ stale download_map st k).

(** A stale entry that the listing of its directory shows: the name [f]
    is an entry of the target directory of [r] in the tree of [st]. *)
Definition listed_stale (download_map : gmap (string * string) nat)
    (st : State) (k : list string) : Prop :=
  exists r f data,
    r ∈ iter_enabled base_repos
    /\ endswith f ".rpm" = true
    /\ is_Some (fs st !! (OS.resolve cwd (target_of st r) ++ [f]))
    /\ k = OS.resolve cwd (join (target_of st r) f)
    /\ fs st !! k = Some (File data)
    /\ in_map download_map (Repo.id r, f) = false.

Definition only_listed_removed (download_map : gmap (string * string) nat)
    (st st' : State) : Prop :=
  (forall r, target_of st' r = target_of st r)
  /\ forall k,
       fs st' !! k = fs st !! k
       \/ (fs st' !! k = None /\ listed_stale download_map st k).

(** Every name that a directory of the tree holds is a plain name. *)
Definition plain_names (f : FS) : Prop :=
  forall d n, is_Some (f !! (d ++ [n])) -> plain_name n = true.

(** [st'] is a later store of the same run: nothing of the tree was
    lost, the trace was only extended, and the target directories of the
    repositories are the same. *)
Definition later_store (st st' : State) : Prop :=
  tree_kept (fs st) (fs st')
  /\ (exists new, trace st' = trace st ++ new)
  /\ forall r, target_of st' r = target_of st r.

(** The cache [self._repo_target] holds what [repo_target] put there. *)
Definition targets_cached (st : State) : Prop :=
  forall r t, _repo_target st !! Repo.id r = Some t ->
    t = _pkgdir destdir_or_download_path (Repo.id r).

(** The file the transfer layer writes for the target [(q, d)]. *)
Definition fetched_file (t : Package.t * string) : list string :=
  OS.resolve cwd (join (snd t) (basename (Package.location (fst t)))).

(** The body of [for filename in os.listdir(repo_target)]. *)
Definition delete_if_old (download_map : gmap (string * string) nat)
    (repo : Repo.t) (repo_target filename : string) : M State unit :=
  let path := join repo_target filename in
  is_file <- gets (fun st => OS.isfile cwd (fs st) path) ;;
  if endswith filename ".rpm" && is_file then
    if negb (in_map download_map (Repo.id repo, filename)) then
      try_OSError
        (OS.unlink cwd path ;;
         modify (emit (EvInfo "[DELETED] %s" path)))
        (modify (emit (EvError "failed to delete file %s" path)))
    else ret tt
  else ret tt.

(** The body of [for repo in self.base.repos.iter_enabled()]. *)
Definition delete_in_repo (download_map : gmap (string * string) nat)
    (repo : Repo.t) : M State unit :=
  repo_target <- repo_target repo ;;
  there <- gets (fun st => OS.path_exists cwd (fs st) repo_target) ;;
  if there : bool then
    filenames <- OS.listdir cwd repo_target ;;
    for_each filenames (delete_if_old download_map repo repo_target)
  else ret tt.

Definition delete_old_local_packages
    (packages_to_download : list Package.t) : M State unit :=
  let download_map := download_map_of packages_to_download in
  for_each (iter_enabled base_repos) (delete_in_repo download_map).

(** A call into the client library that rewrites part of the tree. *)
Definition library_call (failure : Exn) (call : FS -> option FS)
    : M State unit :=
  fun st =>
    match call (fs st) with
    | Some f' => (Ok tt, set_fs f' st)
    | None => (Raise failure, st)
    end.

Definition getcomps (repo : Repo.t) : M State unit :=
  match Repo.comps_fn repo with
  | Some comps_fn =>
      if truthy comps_fn then
        target <- repo_target repo ;;
        let dest := join target "comps.xml" in
        library_call (RepoError (Repo.id repo)) (decompress comps_fn dest) ;;
        modify (emit (EvInfo "comps.xml for repository %s saved"
                        (Repo.id repo)))
      else ret tt
  | None => ret tt
  end.

Definition download_metadata (repo : Repo.t) : M State bool :=
  repo_target <- repo_target repo ;;
  library_call (RepoError (Repo.id repo))
    (downloadMetadata repo repo_target) ;;
  ret true.

Definition get_pkglist (repo : Repo.t) : list Package.t :=
  let query :=
    Dnf.filterm_reponame (Repo.id repo) (Dnf.available sack) in
  let query := if Opt.newest_only opts then Dnf.latest query else query in
  if Opt.source opts then Dnf.filterm_arch ["src"] query
  else if negb (bool_decide (Opt.arches opts = [])) then
    Dnf.filterm_arch (Opt.arches opts) query
  else query.

(** The body of [for pkg in local_repository_pkgs]. *)
Definition copy_local_pkg (p : Package.t) : M State unit :=
  let pkg_path :=
    join (Repo.pkgdir (Package.repo p)) (lstrip_sep (Package.location p)) in
  path <- pkg_download_path p ;;
  let target_dir := dirname path in
  OS.ensure_dir cwd target_dir ;;
  OS.copy cwd pkg_path target_dir.

Definition download_packages (repo : Repo.t) : M State unit :=
  let pkglist := get_pkglist repo in
  let '(remote_pkgs, local_repository_pkgs) :=
    Dnf._select_remote_pkgs pkglist in
  when (negb (bool_decide (remote_pkgs = [])))
    (payloads <- comprehension remote_pkgs
                   (fun p => path <- pkg_download_path p ;;
                             ret (new_payload p path)) ;;
     Dnf._download_remote_payloads cwd _target_params payloads) ;;
  when (negb (bool_decide (local_repository_pkgs = [])))
    (for_each local_repository_pkgs copy_local_pkg) ;;
  when (Opt.delete opts)
    (delete_old_local_packages pkglist).

(** The body of [for repo in self.base.repos.iter_enabled()] of [run]. *)
Definition sync_repo (repo : Repo.t) : M State unit :=
  when (Opt.download_metadata opts)
    (_ <- download_metadata repo ;; ret tt) ;;
  when (Opt.downloadcomps opts) (getcomps repo) ;;
  download_packages repo.

Definition run : M State unit :=
  modify (set_keepcache true) ;;
  for_each (iter_enabled base_repos) sync_repo.

End Command.

End Reposync.

(* ===================================================================== *)
(** ** The deletion pass on a tree with symbolic links *)
(* ===================================================================== *)

(** [os.path.exists], [os.path.isfile] and [os.listdir] follow symbolic
    links, [os.unlink] removes the name itself, and an unlink can be
    refused.  The deletion pass is modelled a second time over a tree
    that has symbolic links, special files and directories that deny
    writing, to see what it does with them. *)
Module Links.
Import PyStr PosixPath Exec.

(** What [lstat] finds under a name. *)
Inductive Entry : Type :=
| Regular (data : string)
| Directory
| Symlink (target : string)
| Special.                      (** a FIFO, a socket or a device *)

Abbreviation Tree := (gmap (list string) Entry).

Record Store : Type := mkStore {
  tree : Tree;
  read_only : list (list string);  (** directories that deny writing *)
  targets : gmap string string;    (** [self._repo_target] *)
  log : list Event
}.

Definition set_tree (t : Tree) (st : Store) : Store :=
  mkStore t (read_only st) (targets st) (log st).

Definition set_targets (m : gmap string string) (st : Store) : Store :=
  mkStore (tree st) (read_only st) m (log st).

Definition record (ev : Event) (st : Store) : Store :=
  mkStore (tree st) (read_only st) (targets st) (log st ++ [ev]).

(** The number of symbolic links one path resolution follows before it
    fails with [ELOOP]. *)
Definition SYMLOOP_MAX : nat := 40.

(** Path resolution: from the directory [done], the names [todo] one
    after the other.  A symbolic link is replaced by the names of its
    target; the last name is followed only when [follow] is set. *)
Fixpoint walk (links : nat) (t : Tree) (follow : bool)
    : list string -> list string -> option (list string) :=
  fix go (done todo : list string) {struct todo} : option (list string) :=
    match todo with
    | [] => Some done
    | c :: rest =>
        if String.eqb c "" || String.eqb c "." then go done rest
        else if String.eqb c ".." then go (removelast done) rest
        else
          match t !! (done ++ [c]) with
          | None => None
          | Some Directory => go (done ++ [c]) rest
          | Some (Symlink target) =>
              if negb follow && bool_decide (rest = []) then
                Some (done ++ [c])
              else if String.eqb target "" then None
              else
                match links with
                | O => None
                | S links' =>
                    walk links' t follow
                      (if startswith target "/" then [] else done)
                      (split_sep target ++ rest)
                end
          | Some _ =>
              match rest with
              | [] => Some (done ++ [c])
              | _ :: _ => None
              end
          end
    end.

Definition entry_at (t : Tree) (k : list string) : option Entry :=
  match k with
  | [] => Some Directory
  | _ => t !! k
  end.

Definition children (t : Tree) (d : list string) : list string :=
  omap (OS.child_name d) (map_to_list t).*1.

Section Calls.
Variable cwd : string.

Definition locate (t : Tree) (follow : bool) (p : string)
    : option (list string) :=
  walk SYMLOOP_MAX t follow [] (split_sep (join cwd p)).

(** [os.stat(p)] *)
Definition stat (t : Tree) (p : string) : option Entry :=
  match locate t true p with
  | Some k => entry_at t k
  | None => None
  end.

(** [os.lstat(p)] *)
Definition lstat (t : Tree) (p : string) : option Entry :=
  match locate t false p with
  | Some k => entry_at t k
  | None => None
  end.

(** [os.path.exists(p)] *)
Definition path_exists (t : Tree) (p : string) : bool :=
  match stat t p with Some _ => true | None => false end.

(** [os.path.isfile(p)] *)
Definition isfile (t : Tree) (p : string) : bool :=
  match stat t p with Some (Regular _) => true | _ => false end.

(** [os.listdir(p)] *)
Definition listdir (p : string) : M Store (list string) :=
  fun st =>
    match locate (tree st) true p with
    | Some k =>
        match entry_at (tree st) k with
        | Some Directory => (Ok (children (tree st) k), st)
        | _ => (Raise (OSError p), st)
        end
    | None => (Raise (OSError p), st)
    end.

(** [os.unlink(p)]: removes the name, also when it is a symbolic link;
    a directory cannot be unlinked, and the directory that holds the name
    must allow writing. *)
Definition unlink (p : string) : M Store unit :=
  fun st =>
    match locate (tree st) false p with
    | Some k =>
        match entry_at (tree st) k with
        | Some Directory | None => (Raise (OSError p), st)
        | Some _ =>
            if bool_decide (OS.parent k ∈ read_only st) then
              (Raise (OSError p), st)
            else
              (Ok tt,
               record (EvUnlink p) (set_tree (base.delete k (tree st)) st))
        end
    | None => (Raise (OSError p), st)
    end.

End Calls.

Section Command.
Variables (cwd : string) (opts : Opt.t) (base_repos : list Repo.t).

Definition repo_target (repo : Repo.t) : M Store string :=
  fun st =>
    let miss :=
      let target :=
        Reposync._pkgdir cwd (Reposync.destdir_or_download_path opts)
          (Repo.id repo) in
      (Ok target,
       set_targets (<[Repo.id repo := target]> (targets st)) st) in
    match targets st !! Repo.id repo with
    | Some target => if truthy target then (Ok target, st) else miss
    | None => miss
    end.

(** The target directory [repo_target] returns in the store [st]. *)
Definition target_of (st : Store) (repo : Repo.t) : string :=
  match fst (repo_target repo st) with
  | Ok target => target
  | Raise _ => ""
  end.

(** The body of [for filename in os.listdir(repo_target)]. *)
Definition delete_if_old (download_map : gmap (string * string) nat)
    (repo : Repo.t) (repo_target filename : string) : M Store unit :=
  let path := join repo_target filename in
  is_file <- gets (fun st => isfile cwd (tree st) path) ;;
  if endswith filename ".rpm" && is_file then
    if negb (Reposync.in_map download_map (Repo.id repo, filename)) then
      try_OSError
        (unlink cwd path ;;
         modify (record (EvInfo "[DELETED] %s" path)))
        (modify (record (EvError "failed to delete file %s" path)))
    else ret tt
  else ret tt.

(** The body of [for repo in self.base.repos.iter_enabled()]. *)
Definition delete_in_repo (download_map : gmap (string * string) nat)
    (repo : Repo.t) : M Store unit :=
  repo_target <- repo_target repo ;;
  there <- gets (fun st => path_exists cwd (tree st) repo_target) ;;
  if there : bool then
    filenames <- listdir cwd repo_target ;;
    for_each filenames (delete_if_old download_map repo repo_target)
  else ret tt.

Definition delete_old_local_packages
    (packages_to_download : list Package.t) : M Store unit :=
  let download_map := Reposync.download_map_of packages_to_download in
  for_each (Reposync.iter_enabled base_repos) (delete_in_repo download_map).

(** What the pass may take away from the tree of [st]: every name of the
    tree of [st'] is as it was, or it is gone and [os.path.isfile] held
    for a path that names it. *)
Definition isfile_removed (st st' : Store) : Prop :=
  forall k,
    tree st' !! k = tree st !! k
    \/ (tree st' !! k = None
        /\ exists path data,
             locate cwd (tree st) false path = Some k
             /\ stat cwd (tree st) path = Some (Regular data)).

(** What every turn of the pass keeps, seen from the store [st] the
    pass started in. *)
Definition pass_keeps (st st' : Store) : Prop :=
  isfile_removed st st'
  /\ forall r, target_of st' r = target_of st r.

End Command.

End Links.

(* ===================================================================== *)
(** ** Concrete mirrors *)
(* ===================================================================== *)

(** Two enabled remote repositories [A] and [B], each publishing one
    package, mirrored below [/srv]. *)
Module Scenario.

Definition repo_A : Repo.t := Repo.mk "A" true false true "/var/cache/A" None.
Definition repo_B : Repo.t := Repo.mk "B" true false true "/var/cache/B" None.

Definition pkg_a : Package.t :=
  Package.mk "a" 1 "x86_64" "a-1.0.rpm" repo_A false (Some "bytes of a").
Definition pkg_b : Package.t :=
  Package.mk "b" 1 "x86_64" "b-1.0.rpm" repo_B false (Some "bytes of b").

(** [reposync] without options, and with [--delete]. *)
Definition opts_plain : Opt.t :=
  Opt.mk [] false false false false "./" false [] None.
Definition opts_delete : Opt.t :=
  Opt.mk [] true false false false "./" false [] None.

Definition empty_store : State := mkState ∅ ∅ false [].

Definition store_of (tree : FS) : State := mkState tree ∅ false [].

(** [/srv/A] holds two packages, a text file and a directory whose name
    ends in [.rpm]. *)
Definition tree_A : FS :=
  list_to_map
    [(["srv"], Dir);
     (["srv"; "A"], Dir);
     (["srv"; "A"; "a-1.0.rpm"], File "bytes of a");
     (["srv"; "A"; "b-1.0.rpm"], File "bytes of b");
     (["srv"; "A"; "README"], File "notes");
     (["srv"; "A"; "old.rpm"], Dir)].

(** [/srv/A] holds exactly the two packages. *)
Definition tree_ab : FS :=
  list_to_map
    [(["srv"], Dir);
     (["srv"; "A"], Dir);
     (["srv"; "A"; "a-1.0.rpm"], File "bytes of a");
     (["srv"; "A"; "b-1.0.rpm"], File "bytes of b")].

(** Both mirrors are complete. *)
Definition tree_AB : FS :=
  list_to_map
    [(["srv"], Dir);
     (["srv"; "A"], Dir);
     (["srv"; "A"; "a-1.0.rpm"], File "bytes of a");
     (["srv"; "B"], Dir);
     (["srv"; "B"; "b-1.0.rpm"], File "bytes of b")].

(** The client library at work, and out of order. *)
Definition metadata_ok : Repo.t -> string -> FS -> option FS :=
  fun _ _ tree => Some tree.
Definition metadata_fails : Repo.t -> string -> FS -> option FS :=
  fun _ _ _ => None.
Definition decompress_ok : string -> string -> FS -> option FS :=
  fun _ _ tree => Some tree.
Definition decompress_fails : string -> string -> FS -> option FS :=
  fun _ _ _ => None.

(** [--download-metadata], and [--downloadcomps] for a repository with a
    comps file. *)
Definition opts_metadata : Opt.t :=
  Opt.mk [] false false true false "./" false [] None.
Definition opts_comps : Opt.t :=
  Opt.mk [] false true false false "./" false [] None.
Definition repo_C : Repo.t :=
  Repo.mk "C" true false true "/var/cache/C" (Some "/var/cache/C/comps.xml.gz").
Definition pkg_c : Package.t :=
  Package.mk "c" 1 "x86_64" "c-1.0.rpm" repo_C false (Some "bytes of c").

(** The index {foo-1.0.x86_64, foo-2.0.noarch}, the versions ranked
    [v1] and [v2], and [--newest-only --arch x86_64]. *)
Definition foo_x86_64 (v1 : nat) : Package.t :=
  Package.mk "foo" v1 "x86_64" "foo-1.0.x86_64.rpm" repo_A false None.
Definition foo_noarch (v2 : nat) : Package.t :=
  Package.mk "foo" v2 "noarch" "foo-2.0.noarch.rpm" repo_A false None.
Definition opts_newest_x86_64 : Opt.t :=
  Opt.mk ["x86_64"] false false false true "./" false [] None.

(** [reposync --repo updates --repo extras] over three configured
    repositories that still use delta RPMs and a fresh metadata cache. *)
Definition repo_updates : Repo.t :=
  Repo.mk "updates" false true false "/var/cache/updates" None.
Definition repo_extras : Repo.t :=
  Repo.mk "extras" true true false "/var/cache/extras" None.
Definition repo_testing : Repo.t :=
  Repo.mk "testing" true true false "/var/cache/testing" None.
Definition opts_two_repos : Opt.t :=
  Opt.mk [] false false false false "./" false ["updates"; "extras"] None.
Definition cli_before : Reposync.Cli :=
  Reposync.mkCli false false [repo_updates; repo_extras; repo_testing].
Definition cli_after : Reposync.Cli :=
  Reposync.mkCli true true
    [Repo.mk "updates" true false true "/var/cache/updates" None;
     Repo.mk "extras" true false true "/var/cache/extras" None;
     Repo.mk "testing" false true false "/var/cache/testing" None].

(** Packages of repository [A] with unusual locations, and one of a
    repository called [etc]. *)
Definition at_location (r : Repo.t) (location : string) : Package.t :=
  Package.mk "x" 1 "noarch" location r false (Some "bytes of x").

(** A repository on local media, mounted at [/mnt/L], with one package
    in a subdirectory. *)
Definition repo_L : Repo.t := Repo.mk "L" true false true "/mnt/L" None.
Definition pkg_l : Package.t :=
  Package.mk "l" 1 "x86_64" "Packages/l-1.0.rpm" repo_L true None.
Definition tree_L : FS :=
  list_to_map
    [(["mnt"], Dir);
     (["mnt"; "L"], Dir);
     (["mnt"; "L"; "Packages"], Dir);
     (["mnt"; "L"; "Packages"; "l-1.0.rpm"], File "bytes of l");
     (["srv"], Dir)].

(** A package of the repository on local media whose location starts
    with a slash and lies inside the target directory [/srv/L]. *)
Definition pkg_rooted : Package.t :=
  Package.mk "l" 1 "x86_64" "/srv/L/Packages/l-1.0.rpm" repo_L true None.
Definition tree_rooted : FS :=
  list_to_map
    [(["mnt"], Dir);
     (["mnt"; "L"], Dir);
     (["mnt"; "L"; "srv"], Dir);
     (["mnt"; "L"; "srv"; "L"], Dir);
     (["mnt"; "L"; "srv"; "L"; "Packages"], Dir);
     (["mnt"; "L"; "srv"; "L"; "Packages"; "l-1.0.rpm"], File "bytes of l");
     (["srv"], Dir)].

(** [/srv/A] with names that all end in [.rpm]: a symbolic link to a
    regular file of another directory, a link to a directory, a link to
    nothing, a FIFO and a directory. *)
Definition tree_links : Links.Tree :=
  list_to_map
    [(["srv"], Links.Directory);
     (["srv"; "A"], Links.Directory);
     (["srv"; "A"; "x-1.0.rpm"], Links.Symlink "../pool/x-1.0.rpm");
     (["srv"; "A"; "pool.rpm"], Links.Symlink "/srv/pool");
     (["srv"; "A"; "gone.rpm"], Links.Symlink "missing");
     (["srv"; "A"; "fifo.rpm"], Links.Special);
     (["srv"; "A"; "old.rpm"], Links.Directory);
     (["srv"; "pool"], Links.Directory);
     (["srv"; "pool"; "x-1.0.rpm"], Links.Regular "bytes of x")].

(** [/srv/A] denies writing and holds one stale package. *)
Definition tree_locked : Links.Tree :=
  list_to_map
    [(["srv"], Links.Directory);
     (["srv"; "A"], Links.Directory);
     (["srv"; "A"; "b-1.0.rpm"], Links.Regular "bytes of b")].

Definition links_store (t : Links.Tree) (read_only : list (list string))
    : Links.Store :=
  Links.mkStore t read_only ∅ [].

End Scenario.

(* ===================================================================== *)
(** ** Facts about strings and paths *)
(* ===================================================================== *)

Module PathFacts.
Import PyStr PosixPath.

Local Arguments String.append !_ _ / : simpl nomatch.

Lemma append_nil_r (s : string) : s +:+ "" = s.
Proof. induction s as [|c s IH]; simpl; [reflexivity | now rewrite IH]. Qed.

Lemma append_assoc (a b c : string) : (a +:+ b) +:+ c = a +:+ (b +:+ c).
Proof. induction a as [|x a IH]; simpl; [reflexivity | now rewrite IH]. Qed.

Lemma append_length (a b : string) :
  String.length (a +:+ b) = String.length a + String.length b.
Proof. induction a as [|x a IH]; simpl; [reflexivity | now rewrite IH]. Qed.

Lemma prefix_nil (s : string) : String.prefix "" s = true.
Proof. destruct s; reflexivity. Qed.

Lemma prefix_cons (c d : ascii) (p s : string) :
  String.prefix (String c p) (String d s)
  = if ascii_dec c d then String.prefix p s else false.
Proof. reflexivity. Qed.

Lemma prefix_cons_nil (c : ascii) (p : string) :
  String.prefix (String c p) "" = false.
Proof. reflexivity. Qed.


Lemma startswith_app (s a b : string) :
  startswith s (a +:+ b) = true -> startswith s a = true.
Proof.
  unfold startswith. revert s.
  induction a as [|c a IH]; intros s H; [apply prefix_nil|].
  destruct s as [|d s]; [discriminate|].
  simpl String.append in H. rewrite prefix_cons in *.
  destruct (ascii_dec c d); [now apply IH | discriminate].
Qed.

Lemma startswith_app_l (a b : string) : startswith (a +:+ b) a = true.
Proof.
  unfold startswith. induction a as [|c a IH]; [apply prefix_nil|].
  simpl String.append. rewrite prefix_cons.
  destruct (ascii_dec c c); [exact IH | congruence].
Qed.

Lemma endswith_nil (suf : string) :
  endswith "" suf = String.eqb "" suf || false.
Proof. reflexivity. Qed.

Lemma endswith_cons (c : ascii) (s suf : string) :
  endswith (String c s) suf = String.eqb (String c s) suf || endswith s suf.
Proof. reflexivity. Qed.

Lemma endswith_refl (s : string) : endswith s s = true.
Proof.
  destruct s; [reflexivity|]. now rewrite endswith_cons, String.eqb_refl.
Qed.

Lemma endswith_app (a b suf : string) :
  endswith b suf = true -> endswith (a +:+ b) suf = true.
Proof.
  intros H. induction a as [|c a IH]; [exact H|].
  simpl String.append. rewrite endswith_cons, IH. apply orb_true_r.
Qed.

(** A string that ends with [suf] is something followed by [suf]. *)
Lemma endswith_inv (s suf : string) :
  endswith s suf = true -> exists front, s = front +:+ suf.
Proof.
  induction s as [|c s IH]; intros H.
  - rewrite endswith_nil in H.
    apply orb_true_iff in H as [H|H]; [|discriminate].
    apply String.eqb_eq in H. subst. now exists "".
  - rewrite endswith_cons in H. apply orb_true_iff in H as [H|H].
    + apply String.eqb_eq in H. rewrite H. now exists "".
    + destruct (IH H) as [front ->]. now exists (String c front).
Qed.

(** Whether a non-empty string ends with a slash is decided by its end. *)
Lemma endswith_sep_app (a b : string) :
  b <> "" -> endswith (a +:+ b) "/" = endswith b "/".
Proof.
  intros Hb. induction a as [|c a IH]; [reflexivity|].
  simpl String.append. rewrite endswith_cons, IH.
  destruct (String.eqb (String c (a +:+ b)) "/") eqn:E; [|reflexivity].
  apply String.eqb_eq in E. injection E as _ E.
  destruct a; [simpl in E; congruence | discriminate].
Qed.

Lemma split_sep_cons (c : ascii) (r : string) :
  split_sep (String c r)
  = if is_sep c then "" :: split_sep r
    else match split_sep r with
         | h :: t => String c h :: t
         | [] => [String c ""]
         end.
Proof. reflexivity. Qed.

Lemma split_sep_nonempty (s : string) : split_sep s <> [].
Proof.
  destruct s as [|c s]; [discriminate|]. rewrite split_sep_cons.
  destruct (is_sep c); [discriminate|]. destruct (split_sep s); discriminate.
Qed.

Lemma split_sep_no_sep (s : string) : no_sep s = true -> split_sep s = [s].
Proof.
  unfold no_sep. induction s as [|c s IH]; intros H; [reflexivity|].
  simpl in H. apply andb_true_iff in H as [Hc Hs].
  apply negb_true_iff in Hc.
  rewrite split_sep_cons, Hc, (IH Hs). reflexivity.
Qed.

Lemma split_sep_app_sep (q f : string) :
  no_sep f = true -> split_sep (q +:+ "/" +:+ f) = split_sep q ++ [f].
Proof.
  intros Hf. induction q as [|c q IH].
  - simpl String.append. rewrite split_sep_cons. simpl is_sep. cbv iota.
    now rewrite (split_sep_no_sep f Hf).
  - change (String c q +:+ "/" +:+ f) with (String c (q +:+ "/" +:+ f)).
    rewrite !split_sep_cons, IH. destruct (is_sep c); [reflexivity|].
    destruct (split_sep q) eqn:E; [|reflexivity].
    now apply split_sep_nonempty in E.
Qed.

Lemma split_sep_trailing (q : string) :
  split_sep (q +:+ "/") = split_sep q ++ [""].
Proof.
  induction q as [|c q IH]; [reflexivity|].
  change (String c q +:+ "/") with (String c (q +:+ "/")).
  rewrite !split_sep_cons, IH. destruct (is_sep c); [reflexivity|].
  destruct (split_sep q) eqn:E; [|reflexivity].
  now apply split_sep_nonempty in E.
Qed.

Lemma norm_comps_snoc (rooted : bool) (l : list string) (f : string) :
  special_name f = false ->
  norm_comps rooted (l ++ [f]) = norm_comps rooted l ++ [f].
Proof.
  unfold special_name, norm_comps. intros H.
  apply orb_false_iff in H as [H H2]. apply orb_false_iff in H as [H0 H1].
  rewrite fold_left_app. simpl. unfold norm_step at 1.
  rewrite H0, H1, H2. reflexivity.
Qed.

Lemma norm_comps_snoc_empty (rooted : bool) (l : list string) :
  norm_comps rooted (l ++ [""]) = norm_comps rooted l.
Proof. unfold norm_comps. rewrite fold_left_app. reflexivity. Qed.

Lemma special_name_length (s : string) :
  special_name s = true -> String.length s <= 2.
Proof.
  unfold special_name. intros H.
  repeat (apply orb_true_iff in H as [H|H]);
    apply String.eqb_eq in H; subst; simpl; lia.
Qed.

Lemma rpm_name_not_special (g : string) : special_name (g +:+ ".rpm") = false.
Proof.
  destruct (special_name (g +:+ ".rpm")) eqn:E; [|reflexivity].
  apply special_name_length in E. rewrite append_length in E. simpl in E. lia.
Qed.

Lemma plain_name_not_abs (f : string) :
  plain_name f = true -> startswith f "/" = false.
Proof.
  unfold startswith. destruct f as [|c f]; [reflexivity|].
  unfold plain_name, no_sep. intros H.
  change (list_ascii_of_string (String c f))
    with (c :: list_ascii_of_string f) in H.
  cbn [forallb] in H.
  apply andb_true_iff in H as [H _]. apply andb_true_iff in H as [H _].
  apply negb_true_iff in H. unfold is_sep, sep in H.
  apply Ascii.eqb_neq in H.
  change "/" with (String "/"%char "") at 1. rewrite prefix_cons.
  destruct (ascii_dec "/" c); [congruence | reflexivity].
Qed.

(** [join] only ever puts something in front of its second argument. *)
Lemma join_suffix (a b : string) : exists front, join a b = front +:+ b.
Proof.
  unfold join. destruct (startswith b "/"); [now exists ""|].
  destruct (negb (truthy a) || endswith a "/"); [now exists a|].
  exists (a +:+ "/"). now rewrite append_assoc.
Qed.

Lemma norm_split_join (rooted : bool) (q f : string) :
  plain_name f = true ->
  norm_comps rooted (split_sep (join q f))
  = norm_comps rooted (split_sep q) ++ [f].
Proof.
  intros Hf. unfold join. rewrite (plain_name_not_abs f Hf).
  pose proof Hf as Hp. unfold plain_name in Hp.
  apply andb_true_iff in Hp as [Hns Hsp]. apply negb_true_iff in Hsp.
  destruct (truthy q) eqn:Hq; cbn [negb orb].
  - destruct (endswith q "/") eqn:He.
    + apply endswith_inv in He as [q' ->].
      rewrite append_assoc, split_sep_app_sep, split_sep_trailing by exact Hns.
      now rewrite norm_comps_snoc, norm_comps_snoc_empty.
    + now rewrite split_sep_app_sep, norm_comps_snoc.
  - unfold truthy in Hq. apply negb_false_iff, String.eqb_eq in Hq. subst q.
    simpl String.append. rewrite (split_sep_no_sep f Hns).
    exact (norm_comps_snoc rooted [] f Hsp).
Qed.

Lemma startswith_sep_app (b c : string) :
  b <> "" -> startswith (b +:+ c) "/" = startswith b "/".
Proof.
  destruct b as [|x b]; [congruence|]. intros _. unfold startswith.
  change (String x b +:+ c) with (String x (b +:+ c)).
  change "/" with (String "/"%char "").
  rewrite !prefix_cons. destruct (ascii_dec "/" x); [|reflexivity].
  now rewrite !prefix_nil.
Qed.

Lemma join_abs (a b : string) : startswith b "/" = true -> join a b = b.
Proof. intros H. unfold join. now rewrite H. Qed.

Lemma join_rel (a b : string) :
  startswith b "/" = false ->
  join a b = if negb (truthy a) || endswith a "/" then a +:+ b
             else a +:+ "/" +:+ b.
Proof. intros H. unfold join. now rewrite H. Qed.

Lemma truthy_app_r (a b : string) : b <> "" -> truthy (a +:+ b) = true.
Proof. destruct a, b; try reflexivity; congruence. Qed.

Lemma join_assoc (a b f : string) :
  startswith f "/" = false -> join a (join b f) = join (join a b) f.
Proof.
  intros Hf. destruct b as [|c b].
  - rewrite (join_rel "" f Hf). change ("" +:+ f) with f.
    cbn [truthy String.eqb negb orb].
    rewrite (join_rel a "") by reflexivity.
    rewrite (join_rel a f Hf).
    destruct (negb (truthy a) || endswith a "/") eqn:Ha.
    + now rewrite append_nil_r, (join_rel a f Hf), Ha.
    + change ("/" +:+ "") with "/".
      rewrite (join_rel (a +:+ "/") f Hf).
      rewrite truthy_app_r by discriminate.
      rewrite endswith_sep_app by discriminate.
      cbn [negb orb]. change (endswith "/" "/") with true. cbv iota.
      now rewrite append_assoc.
  - set (b' := String c b). assert (Hb : b' <> "") by discriminate.
    assert (Htb : negb (truthy b') = false) by reflexivity.
    assert (Hj : exists s, (s = "" \/ s = "/") /\ join b' f = b' +:+ s +:+ f).
    { rewrite (join_rel b' f Hf), Htb. cbn [orb].
      destruct (endswith b' "/"); [exists ""|exists "/"]; auto. }
    destruct Hj as (s & Hs & Hj). rewrite Hj.
    assert (Hsf : startswith (b' +:+ s +:+ f) "/" = startswith b' "/")
      by now apply startswith_sep_app.
    destruct (startswith b' "/") eqn:Hab.
    + rewrite (join_abs a b' Hab), (join_abs a _ Hsf). now rewrite Hj.
    + rewrite (join_rel a _ Hsf), (join_rel a b' Hab).
      destruct (negb (truthy a) || endswith a "/").
      * rewrite (join_rel (a +:+ b') f Hf).
        rewrite (truthy_app_r a b' Hb), (endswith_sep_app a b' Hb).
        rewrite (join_rel b' f Hf), Htb in Hj. cbn [negb orb] in *.
        destruct (endswith b' "/"); rewrite <- Hj; now rewrite !append_assoc.
      * rewrite (join_rel (a +:+ "/" +:+ b') f Hf).
        rewrite <- (append_assoc a "/" b').
        rewrite (truthy_app_r (a +:+ "/") b' Hb).
        rewrite (endswith_sep_app (a +:+ "/") b' Hb).
        rewrite (join_rel b' f Hf), Htb in Hj. cbn [negb orb] in *.
        destruct (endswith b' "/"); rewrite <- Hj; now rewrite !append_assoc.
Qed.

(** The last name of a path that ends in [.rpm] ends in [.rpm]. *)
Lemma split_sep_rpm (w : string) :
  exists init g, split_sep (w +:+ ".rpm") = init ++ [g +:+ ".rpm"].
Proof.
  induction w as [|c w (init & g & IH)].
  - now exists [], "".
  - change (String c w +:+ ".rpm") with (String c (w +:+ ".rpm")).
    rewrite split_sep_cons, IH. destruct (is_sep c).
    + now exists ("" :: init), g.
    + destruct init as [|h t]; simpl.
      * now exists [], (String c g).
      * now exists (String c h :: t), g.
Qed.

End PathFacts.

(* ===================================================================== *)
(** ** Facts about the monad *)
(* ===================================================================== *)

Module ExecFacts.
Import Exec.

Lemma bind_ok {S A B} (m : M S A) (k : A -> M S B) s a s' :
  m s = (Ok a, s') -> bind m k s = k a s'.
Proof. intros H. unfold bind. now rewrite H. Qed.

Lemma bind_raise {S A B} (m : M S A) (k : A -> M S B) s e s' :
  m s = (Raise e, s') -> bind m k s = (Raise e, s').
Proof. intros H. unfold bind. now rewrite H. Qed.

(** A successful sequence went through a successful first part. *)
Lemma bind_ok_inv {S A B} (m : M S A) (k : A -> M S B) s b s2 :
  bind m k s = (Ok b, s2) ->
  exists a s1, m s = (Ok a, s1) /\ k a s1 = (Ok b, s2).
Proof.
  unfold bind. destruct (m s) as [[a|e] s1]; [eauto | discriminate].
Qed.

(** What holds of the store after each part holds after the sequence,
    whether it returns or raises. *)
Lemma bind_preserves {S A B} (I : S -> Prop) (m : M S A) (k : A -> M S B) s :
  I (snd (m s)) ->
  (forall a s1, m s = (Ok a, s1) -> I s1 -> I (snd (k a s1))) ->
  I (snd (bind m k s)).
Proof.
  unfold bind. intros Hm Hk. destruct (m s) as [[a|e] s1] eqn:E.
  - now apply Hk.
  - exact Hm.
Qed.

Lemma for_each_preserves {S A} (I : S -> Prop) (body : A -> M S unit) l :
  (forall x s, x ∈ l -> I s -> I (snd (body x s))) ->
  forall s, I s -> I (snd (for_each l body s)).
Proof.
  induction l as [|x l IH]; intros Hbody s Hs; [exact Hs|].
  cbn [for_each]. apply bind_preserves.
  - apply Hbody; [left | exact Hs].
  - intros _ s1 _ Hs1. apply IH; [|exact Hs1].
    intros y s' Hy. apply Hbody. now right.
Qed.


(** A loop that completed ran its body, successfully, on every element. *)
Lemma for_each_ok_inv {S A} (body : A -> M S unit) l s s' x :
  for_each l body s = (Ok tt, s') -> x ∈ l ->
  exists s1 s2, body x s1 = (Ok tt, s2).
Proof.
  revert s. induction l as [|y l IH]; intros s H Hx.
  - now apply elem_of_nil in Hx.
  - cbn [for_each] in H. apply bind_ok_inv in H as ([] & s1 & Hy & Hrest).
    apply elem_of_cons in Hx as [->|Hx]; [eauto | eauto].
Qed.

Lemma comprehension_preserves {S A B} (I : S -> Prop) (f : A -> M S B) l :
  (forall x s, x ∈ l -> I s -> I (snd (f x s))) ->
  forall s, I s -> I (snd (comprehension l f s)).
Proof.
  induction l as [|x l IH]; intros Hf s Hs; [exact Hs|].
  cbn [comprehension]. apply bind_preserves.
  - apply Hf; [left | exact Hs].
  - intros y s1 _ Hs1. apply bind_preserves.
    + apply IH; [|exact Hs1]. intros z s' Hz. apply Hf. now right.
    + intros ys s2 _ Hs2. exact Hs2.
Qed.

(** Every element of a completed comprehension was returned by [f]. *)
Lemma comprehension_values {S A B} (Q : B -> Prop) (f : A -> M S B) l :
  (forall x s y s', x ∈ l -> f x s = (Ok y, s') -> Q y) ->
  forall s ys s', comprehension l f s = (Ok ys, s') -> Forall Q ys.
Proof.
  induction l as [|x l IH]; intros Hf s ys s' H.
  - cbn [comprehension ret] in H. injection H as <- _. constructor.
  - cbn [comprehension] in H.
    apply bind_ok_inv in H as (y & s1 & Hy & H).
    apply bind_ok_inv in H as (ys' & s2 & Hys & H).
    cbn [ret] in H. injection H as <- _. constructor.
    + apply (Hf x s y s1); [left | exact Hy].
    + apply (IH ltac:(intros z t z' t' Hz; apply Hf; now right) _ _ _ Hys).
Qed.

(** A loop whose body always returns and keeps [I] returns and keeps it. *)
Lemma for_each_ok_preserves {S A} (I : S -> Prop) (body : A -> M S unit) l :
  (forall x s, x ∈ l -> I s ->
     fst (body x s) = Ok tt /\ I (snd (body x s))) ->
  forall s, I s ->
    fst (for_each l body s) = Ok tt /\ I (snd (for_each l body s)).
Proof.
  induction l as [|x l IH]; intros Hbody s Hs; [now split|].
  cbn [for_each]. unfold bind.
  destruct (Hbody x s ltac:(left) Hs) as [Hok Hi].
  destruct (body x s) as [[[]|e] s1]; [|discriminate]. cbn [snd] in Hi.
  apply IH; [|exact Hi]. intros y s' Hy. apply Hbody. now right.
Qed.


End ExecFacts.

(* ===================================================================== *)
(** ** Facts about the file system calls *)
(* ===================================================================== *)

Module OSFacts.
Import PyStr PosixPath PathFacts.

Lemma resolve_join (cwd t f : string) :
  plain_name f = true ->
  OS.resolve cwd (join t f) = OS.resolve cwd t ++ [f].
Proof.
  intros Hf. unfold OS.resolve.
  rewrite join_assoc by now apply plain_name_not_abs.
  now apply norm_split_join.
Qed.

Lemma resolve_rpm (cwd t f : string) :
  endswith f ".rpm" = true ->
  exists init g,
    OS.resolve cwd (join t f) = init ++ [g] /\ endswith g ".rpm" = true.
Proof.
  intros Hf. unfold OS.resolve.
  destruct (join_suffix t f) as [x ->].
  destruct (join_suffix cwd (x +:+ f)) as [y ->].
  apply endswith_inv in Hf as [z ->].
  rewrite <- !append_assoc.
  destruct (split_sep_rpm ((y +:+ x) +:+ z)) as (init & g & ->).
  rewrite norm_comps_snoc by apply rpm_name_not_special.
  eexists _, _. split; [reflexivity|].
  apply endswith_app, endswith_refl.
Qed.

Lemma child_name_spec (d k : list string) (n : string) :
  OS.child_name d k = Some n <-> k = d ++ [n].
Proof.
  revert k. induction d as [|x d IH]; intros k; simpl.
  - destruct k as [|y [|z k]]; split; intros H; try discriminate;
      congruence.
  - destruct k as [|y k]; [split; discriminate|].
    destruct (String.eqb x y) eqn:E.
    + apply String.eqb_eq in E. subst y. rewrite IH.
      split; intros H; congruence.
    + apply String.eqb_neq in E. split; [discriminate | congruence].
Qed.

Lemma elem_of_children (f : FS) (d : list string) (n : string) :
  n ∈ OS.children f d <-> is_Some (f !! (d ++ [n])).
Proof.
  unfold OS.children. rewrite list_elem_of_omap. split.
  - intros (k & Hk & Hn). apply child_name_spec in Hn. subst k.
    apply list_elem_of_fmap in Hk as ([k v] & -> & Hkv).
    apply elem_of_map_to_list in Hkv. eauto.
  - intros [v Hv]. exists (d ++ [n]). split; [|now apply child_name_spec].
    apply list_elem_of_fmap. exists (d ++ [n], v).
    split; [reflexivity | now apply elem_of_map_to_list].
Qed.

Lemma NoDup_children (f : FS) (d : list string) : NoDup (OS.children f d).
Proof.
  unfold OS.children.
  pose proof (NoDup_fst_map_to_list f) as H.
  induction H as [|k l Hk Hl IH]; simpl; [constructor|].
  destruct (OS.child_name d k) as [n|] eqn:E; [|exact IH].
  constructor; [|exact IH].
  rewrite list_elem_of_omap. intros (k' & Hk' & E').
  apply child_name_spec in E, E'. congruence.
Qed.

Lemma node_at_snoc (f : FS) (d : list string) (n : string) :
  OS.node_at f (d ++ [n]) = f !! (d ++ [n]).
Proof. destruct d; reflexivity. Qed.

(** [mkdirs] adds directories and nothing else: the regular files are the
    same before and after, and the requested directory is there. *)
Lemma mkdirs_spec (todo : list string) (f f' : FS) (done : list string) :
  OS.mkdirs f done todo = Some f' ->
  (forall k b, f' !! k = Some (File b) <-> f !! k = Some (File b))
  /\ (todo <> [] -> f' !! (done ++ todo) = Some Dir)
  /\ (forall k, f !! k = Some Dir -> f' !! k = Some Dir).
Proof.
  revert f done. induction todo as [|c rest IH]; intros f done H.
  - cbn [OS.mkdirs] in H. injection H as <-. split; [tauto|].
    split; [congruence | auto].
  - cbn [OS.mkdirs] in H.
    assert (Hstep : forall f1,
      OS.mkdirs f1 (done ++ [c]) rest = Some f' ->
      f1 !! (done ++ [c]) = Some Dir ->
      f' !! (done ++ c :: rest) = Some Dir).
    { intros f1 H1 Hk. destruct (IH _ _ H1) as (_ & Hdir & Hkeep).
      destruct rest as [|c' rest'].
      - now apply Hkeep.
      - rewrite (cons_middle c done). rewrite app_assoc.
        apply Hdir. discriminate. }
    destruct (f !! (done ++ [c])) as [[b|]|] eqn:E; [discriminate| |].
    + destruct (IH _ _ H) as (Hfile & _ & Hkeep).
      split; [exact Hfile|].
      split; [intros _; now apply (Hstep f) | exact Hkeep].
    + destruct (IH _ _ H) as (Hfile & _ & Hkeep).
      split; [|split].
      * intros k b. rewrite Hfile. rewrite lookup_insert.
        destruct (decide (done ++ [c] = k)) as [<-|]; [|tauto].
        rewrite E. split; discriminate.
      * intros _. apply (Hstep _ H). apply lookup_insert_eq.
      * intros k Hk. apply Hkeep. rewrite lookup_insert.
        destruct (decide (done ++ [c] = k)); [reflexivity | exact Hk].
Qed.

Lemma ensure_dir_run (cwd dname : string) (s s' : State) :
  OS.ensure_dir cwd dname s = (Ok tt, s') ->
  OS.isdir cwd (fs s') dname = true
  /\ trace s' = trace s
  /\ forall k b, OS.node_at (fs s') k = Some (File b)
                 <-> OS.node_at (fs s) k = Some (File b).
Proof.
  unfold OS.ensure_dir, OS.isdir.
  destruct (OS.mkdirs (fs s) [] (OS.resolve cwd dname)) as [f'|] eqn:E;
    [|discriminate].
  intros H. injection H as <-. cbn [fs set_fs trace].
  destruct (mkdirs_spec _ _ _ _ E) as (Hfile & Hdir & _).
  split; [|split; [reflexivity|]].
  - destruct (OS.resolve cwd dname) as [|c rest] eqn:Er; [reflexivity|].
    cbn [OS.node_at]. change (c :: rest) with ([] ++ c :: rest).
    now rewrite Hdir.
  - intros [|c k] b; [tauto | apply Hfile].
Qed.

(** A completed [shutil.copy] into a directory: the source was a regular
    file, and the file of the same base name in the directory now has the
    same bytes. *)
Lemma copy_into_dir (cwd src dst : string) (s s' : State) :
  OS.copy cwd src dst s = (Ok tt, s') ->
  OS.isdir cwd (fs s) dst = true ->
  exists data,
    OS.node_at (fs s) (OS.resolve cwd src) = Some (File data)
    /\ OS.node_at (fs s') (OS.resolve cwd (join dst (basename src)))
       = Some (File data)
    /\ trace s' = trace s ++ [EvCopy src (join dst (basename src))].
Proof.
  unfold OS.copy. intros H Hdir. rewrite Hdir in H.
  destruct (bool_decide _); [discriminate|].
  destruct (OS.node_at (fs s) (OS.resolve cwd src)) as [[data|]|];
    try discriminate.
  destruct (OS.store _ _ data) as [f'|] eqn:Es; [|discriminate].
  injection H as <-. exists data. split; [reflexivity|].
  split; [|reflexivity]. cbn [fs emit set_fs].
  unfold OS.store in Es.
  destruct (OS.resolve cwd (join dst (basename src))) as [|c k];
    [discriminate|].
  assert (f' = <[c :: k := File data]> (fs s)) as ->.
  { destruct (OS.node_at (fs s) (c :: k)) as [[?|]|];
      destruct (OS.node_at (fs s) (OS.parent (c :: k))) as [[?|]|];
      congruence. }
  cbn [OS.node_at]. apply lookup_insert_eq.
Qed.

End OSFacts.

(* ===================================================================== *)
(** ** Facts about the plugin *)
(* ===================================================================== *)

Module ReposyncFacts.
Import PyStr PosixPath Exec PathFacts ExecFacts OSFacts Reposync.

Section Command.

Variable cwd : string.
Variable opts : Opt.t.
Variable base_repos : list Repo.t.

Lemma normpath_truthy (p : string) : truthy (normpath p) = true.
Proof.
  unfold normpath. destruct (String.eqb p ""); [reflexivity|].
  cbv zeta.
  match goal with
  | |- truthy (if truthy ?x then _ else _) = true =>
      destruct (truthy x) eqn:E; [exact E | reflexivity]
  end.
Qed.

Lemma target_of_unfold (st : State) (r : Repo.t) :
  target_of cwd opts st r
  = match _repo_target st !! Repo.id r with
    | Some t =>
        if truthy t then t
        else _pkgdir cwd (destdir_or_download_path opts) (Repo.id r)
    | None => _pkgdir cwd (destdir_or_download_path opts) (Repo.id r)
    end.
Proof.
  unfold target_of, repo_target.
  destruct (_repo_target st !! Repo.id r) as [t|]; [|reflexivity].
  destruct (truthy t); reflexivity.
Qed.

(** [repo_target] never raises and only touches its own dictionary; what
    it returns for a repository does not change from call to call. *)
Lemma repo_target_run (r : Repo.t) (st : State) :
  exists st',
    repo_target cwd opts r st = (Ok (target_of cwd opts st r), st')
    /\ fs st' = fs st /\ trace st' = trace st
    /\ forall r', target_of cwd opts st' r' = target_of cwd opts st r'.
Proof.
  unfold target_of at 1. unfold repo_target.
  set (fresh := _pkgdir cwd (destdir_or_download_path opts) (Repo.id r)).
  assert (Hmiss : forall r',
    target_of cwd opts
      (set_repo_target (<[Repo.id r := fresh]> (_repo_target st)) st) r'
    = if decide (Repo.id r = Repo.id r') then fresh
      else target_of cwd opts st r').
  { intros r'. rewrite !target_of_unfold. cbn [_repo_target set_repo_target].
    rewrite lookup_insert. destruct (decide (Repo.id r = Repo.id r'));
      [|reflexivity].
    unfold fresh, _pkgdir. now rewrite normpath_truthy. }
  destruct (_repo_target st !! Repo.id r) as [t|] eqn:E.
  - destruct (truthy t) eqn:Ht.
    + exists st. cbn [fst]. auto.
    + eexists. cbn [fst]. split; [reflexivity|]. split; [reflexivity|].
      split; [reflexivity|]. intros r'. rewrite Hmiss.
      destruct (decide (Repo.id r = Repo.id r')) as [Eid|]; [|reflexivity].
      rewrite target_of_unfold, <- Eid, E, Ht. reflexivity.
  - eexists. cbn [fst]. split; [reflexivity|]. split; [reflexivity|].
    split; [reflexivity|]. intros r'. rewrite Hmiss.
    destruct (decide (Repo.id r = Repo.id r')) as [Eid|]; [|reflexivity].
    rewrite target_of_unfold, <- Eid, E. reflexivity.
Qed.

(** The effect of one turn of the inner loop of the deletion pass. *)
Lemma delete_if_old_eq (dm : gmap (string * string) nat) (r : Repo.t)
    (t f : string) (st : State) :
  delete_if_old cwd dm r t f st
  = (Ok tt,
     if endswith f ".rpm" && OS.isfile cwd (fs st) (join t f)
        && negb (in_map dm (Repo.id r, f))
     then emit (EvInfo "[DELETED] %s" (join t f))
            (emit (EvUnlink (join t f))
               (set_fs (base.delete (OS.resolve cwd (join t f)) (fs st)) st))
     else st).
Proof.
  unfold delete_if_old, bind, gets.
  destruct (endswith f ".rpm"); [|reflexivity].
  destruct (OS.isfile cwd (fs st) (join t f)) eqn:Hf; [|reflexivity].
  destruct (in_map dm (Repo.id r, f)); [reflexivity|].
  cbn [andb negb]. unfold try_OSError, bind, OS.unlink, modify.
  unfold OS.isfile in Hf.
  destruct (OS.node_at (fs st) (OS.resolve cwd (join t f))) as [[d|]|];
    try discriminate.
  reflexivity.
Qed.

Lemma target_of_ext (s1 s2 : State) (r : Repo.t) :
  _repo_target s1 = _repo_target s2 ->
  target_of cwd opts s1 r = target_of cwd opts s2 r.
Proof. intros H. now rewrite !target_of_unfold, H. Qed.

Lemma only_stale_removed_refl dm (st : State) :
  only_stale_removed cwd opts base_repos dm st st.
Proof. split; [reflexivity | now left]. Qed.

Lemma delete_if_old_stale dm (r : Repo.t) (f : string) (st0 s : State) :
  r ∈ iter_enabled base_repos ->
  only_stale_removed cwd opts base_repos dm st0 s ->
  only_stale_removed cwd opts base_repos dm st0
    (snd (delete_if_old cwd dm r (target_of cwd opts st0 r) f s)).
Proof.
  intros Hr [Ht Hk]. rewrite delete_if_old_eq. cbn [snd].
  set (t := target_of cwd opts st0 r).
  destruct (endswith f ".rpm") eqn:Hf; [|now split].
  destruct (OS.isfile cwd (fs s) (join t f)) eqn:Hfile; [|now split].
  destruct (in_map dm (Repo.id r, f)) eqn:Hin; [now split|].
  cbn [andb negb]. unfold OS.isfile, OS.node_at in Hfile.
  set (k := OS.resolve cwd (join t f)) in *.
  assert (Hs : exists data, fs s !! k = Some (File data)).
  { destruct k; [discriminate|].
    destruct (fs s !! (s0 :: k)) as [[data|]|]; try discriminate. eauto. }
  destruct Hs as [data Hs].
  assert (H0 : fs st0 !! k = Some (File data)).
  { destruct (Hk k) as [E|[E _]]; congruence. }
  split.
  - intros r'. rewrite <- Ht. now apply target_of_ext.
  - intros k'. cbn [fs emit set_fs]. destruct (decide (k = k')) as [<-|Hne].
    + right. split; [apply lookup_delete_eq|].
      exists r, f, data. auto.
    + rewrite lookup_delete_ne by exact Hne. apply Hk.
Qed.

Lemma delete_in_repo_stale dm (r : Repo.t) (st0 s : State) :
  r ∈ iter_enabled base_repos ->
  only_stale_removed cwd opts base_repos dm st0 s ->
  only_stale_removed cwd opts base_repos dm st0
    (snd (delete_in_repo cwd opts dm r s)).
Proof.
  intros Hr [Ht Hk]. unfold delete_in_repo.
  destruct (repo_target_run r s) as (s1 & Hrun & Hfs & _ & Htg).
  rewrite (bind_ok _ _ _ _ _ Hrun).
  assert (H1 : only_stale_removed cwd opts base_repos dm st0 s1).
  { split; [intros r'; now rewrite Htg | intros k; rewrite Hfs; apply Hk]. }
  rewrite Ht. unfold bind at 1, gets.
  destruct (OS.path_exists cwd (fs s1) (target_of cwd opts st0 r));
    [|exact H1].
  apply bind_preserves.
  - unfold OS.listdir.
    destruct (OS.node_at (fs s1) _) as [[?|]|]; exact H1.
  - intros l s2 Hl _. unfold OS.listdir in Hl.
    assert (s2 = s1) as ->.
    { destruct (OS.node_at (fs s1) _) as [[?|]|]; congruence. }
    apply for_each_preserves; [|exact H1].
    intros f s' _. now apply delete_if_old_stale.
Qed.

(** The deletion pass removes stale entries and nothing else. *)
Lemma delete_pass_stale (pkgs : list Package.t) (st : State) :
  only_stale_removed cwd opts base_repos (download_map_of pkgs) st
    (snd (delete_old_local_packages cwd opts base_repos pkgs st)).
Proof.
  unfold delete_old_local_packages.
  apply for_each_preserves; [|apply only_stale_removed_refl].
  intros r s Hr. now apply delete_in_repo_stale.
Qed.

Lemma in_map_download_map (pkgs : list Package.t) (i n : string) :
  in_map (download_map_of pkgs) (i, n) = true
  <-> exists p, p ∈ pkgs /\ Repo.id (Package.repo p) = i
                /\ basename (Package.location p) = n.
Proof.
  unfold download_map_of.
  assert (G : forall (m : gmap (string * string) nat),
    in_map (fold_left
              (fun m p =>
                 <[(Repo.id (Package.repo p),
                    basename (Package.location p)) := 1]> m) pkgs m) (i, n)
      = true
    <-> in_map m (i, n) = true
        \/ exists p, p ∈ pkgs /\ Repo.id (Package.repo p) = i
                     /\ basename (Package.location p) = n).
  { induction pkgs as [|q pkgs IH]; intros m; cbn [fold_left].
    - split; [auto|]. intros [H|(p & Hp & _)]; [exact H|].
      now apply elem_of_nil in Hp.
    - rewrite IH. unfold in_map at 1. rewrite lookup_insert.
      destruct (decide
        ((Repo.id (Package.repo q), basename (Package.location q)) = (i, n)))
        as [E|E].
      + split; [|auto]. intros _. right. exists q.
        injection E as E1 E2. split; [left|]; auto.
      + fold (in_map m (i, n)). split.
        * intros [H|(p & Hp & H1 & H2)]; [auto|].
          right. exists p. split; [now right | auto].
        * intros [H|(p & Hp & H1 & H2)]; [auto|].
          apply elem_of_cons in Hp as [->|Hp]; [congruence|].
          right. exists p. auto. }
  rewrite G. unfold in_map at 1. rewrite lookup_empty.
  split; [intros [H|H]; [discriminate | exact H] | auto].
Qed.

(** A loop stops at the first element whose body raises. *)
Lemma for_each_raise {S A} (body : A -> M S unit) (before after : list A)
    (x : A) (s s1 s2 : S) (e : Exn) :
  for_each before body s = (Ok tt, s1) ->
  body x s1 = (Raise e, s2) ->
  for_each (before ++ x :: after) body s = (Raise e, s2).
Proof.
  revert s. induction before as [|y before IH]; intros s Hb Hx.
  - cbn [for_each ret] in Hb. injection Hb as <-.
    cbn [app for_each]. now apply bind_raise.
  - cbn [app for_each] in *.
    apply bind_ok_inv in Hb as ([] & s' & Hy & Hrest).
    rewrite (bind_ok _ _ _ _ _ Hy). now apply IH.
Qed.

Lemma library_call_trace (failure : Exn) (call : FS -> option FS)
    (st : State) :
  trace (snd (library_call failure call st)) = trace st.
Proof. unfold library_call. destruct (call (fs st)); reflexivity. Qed.

(** [pkg_download_path] in one equation. *)
Lemma pkg_download_path_run (p : Package.t) (st : State) :
  let target := target_of cwd opts st (Package.repo p) in
  let dest := normpath (join target (Package.location p)) in
  exists s1,
    pkg_download_path cwd opts p st
    = (if negb (startswith dest target)
       then Raise (DnfError dest target) else Ok dest, s1)
    /\ fs s1 = fs st /\ trace s1 = trace st.
Proof.
  intros target dest.
  destruct (repo_target_run (Package.repo p) st) as (s1 & Hrun & Hfs & Htr & _).
  exists s1. split; [|auto].
  unfold pkg_download_path. rewrite (bind_ok _ _ _ _ _ Hrun).
  fold target. fold dest.
  destruct (negb (startswith dest target)); reflexivity.
Qed.

Lemma pkg_download_path_trace (p : Package.t) (s : State) :
  trace (snd (pkg_download_path cwd opts p s)) = trace s.
Proof.
  destruct (pkg_download_path_run p s) as (s1 & -> & _ & Htr). exact Htr.
Qed.

Lemma ensure_dir_trace (d : string) (s : State) :
  trace (snd (OS.ensure_dir cwd d s)) = trace s.
Proof. unfold OS.ensure_dir. destruct (OS.mkdirs _ _ _); reflexivity. Qed.

Section Trace.

Variable remote : list Package.t.
Variable st : State.

Let grows (s : State) : Prop := extends_trace (fetches_only remote) st s.

Lemma grows_refl : grows st.
Proof. exists []. split; [now rewrite app_nil_r | constructor]. Qed.

Lemma grows_same (s s' : State) : trace s' = trace s -> grows s -> grows s'.
Proof. intros E (new & Hn & Hall). exists new. now rewrite E. Qed.

Lemma grows_emit (ev : Event) (s : State) :
  fetches_only remote ev -> grows s -> grows (emit ev s).
Proof.
  intros Hev (new & Hn & Hall). exists (new ++ [ev]). cbn [trace emit].
  split; [now rewrite Hn, app_assoc|].
  apply Forall_app. split; [exact Hall | now constructor].
Qed.

Lemma fetch_grows (q : Package.t) (d : string) (s : State) :
  q ∈ remote -> grows s -> grows (snd (Dnf.fetch cwd q d s)).
Proof.
  intros Hq Hs. unfold Dnf.fetch.
  destruct (Package.payload q); [|exact Hs].
  destruct (Dnf.have_file _ _ _ _); [exact Hs|].
  destruct (OS.store _ _ _); [|exact Hs].
  cbn [snd]. apply grows_emit; [exact Hq|].
  now apply (grows_same s).
Qed.

Lemma copy_grows (src dst : string) (s : State) :
  grows s -> grows (snd (OS.copy cwd src dst s)).
Proof.
  intros Hs. unfold OS.copy.
  destruct (bool_decide _); [exact Hs|].
  destruct (OS.node_at _ _) as [[data|]|]; try exact Hs.
  destruct (OS.store _ _ _); [|exact Hs].
  cbn [snd]. apply grows_emit; [exact I|]. now apply (grows_same s).
Qed.

Lemma copy_local_pkg_grows (p : Package.t) (s : State) :
  grows s -> grows (snd (copy_local_pkg cwd opts p s)).
Proof.
  intros Hs. unfold copy_local_pkg. apply bind_preserves.
  - apply (grows_same s); [apply pkg_download_path_trace | exact Hs].
  - intros dest s1 _ Hs1. apply bind_preserves.
    + apply (grows_same s1); [apply ensure_dir_trace | exact Hs1].
    + intros _ s2 _ Hs2. now apply copy_grows.
Qed.

Lemma delete_pass_grows (pkgs : list Package.t) (s : State) :
  grows s ->
  grows (snd (delete_old_local_packages cwd opts base_repos pkgs s)).
Proof.
  unfold delete_old_local_packages. apply for_each_preserves.
  intros r s0 _ Hs0. unfold delete_in_repo.
  destruct (repo_target_run r s0) as (s1 & Hrun & _ & Htr & _).
  rewrite (bind_ok _ _ _ _ _ Hrun).
  assert (H1 : grows s1) by now apply (grows_same s0).
  unfold bind at 1, gets. destruct (OS.path_exists _ _ _); [|exact H1].
  apply bind_preserves.
  - unfold OS.listdir. destruct (OS.node_at _ _) as [[?|]|]; exact H1.
  - intros l s2 _ Hs2. apply for_each_preserves; [|exact Hs2].
    intros f s3 _ Hs3. rewrite delete_if_old_eq. cbn [snd].
    destruct (_ && _); [|exact Hs3].
    apply grows_emit; [exact I|]. apply grows_emit; [exact I|].
    now apply (grows_same s3).
Qed.

End Trace.

(** A synchronisation of the packages of a repository fetches nothing
    but the packages it selected as remote. *)
Lemma download_packages_fetches (sack : list Package.t) (r : Repo.t)
    (st : State) :
  extends_trace
    (fetches_only (fst (Dnf._select_remote_pkgs (get_pkglist opts sack r))))
    st (snd (download_packages cwd opts base_repos sack r st)).
Proof.
  unfold download_packages. cbn [Dnf._select_remote_pkgs fst].
  set (remote := List.filter (fun q => negb (Package.is_local q)) _).
  set (local := List.filter (fun q => Package.is_local q && _) _).
  apply bind_preserves.
  - unfold when. destruct (negb (bool_decide (remote = [])));
      [|apply grows_refl].
    apply bind_preserves.
    + apply comprehension_preserves; [|apply grows_refl].
      intros q s _ Hs. apply bind_preserves.
      * apply (grows_same remote st s);
          [apply pkg_download_path_trace | exact Hs].
      * intros path s1 _ Hs1. exact Hs1.
    + intros payloads s1 Hpayloads Hs1.
      assert (Hpl : Forall (fun pl => pkg pl ∈ remote) payloads).
      { revert Hpayloads. apply comprehension_values.
        intros q s pl s' Hq Hpl.
        apply bind_ok_inv in Hpl as (path & s2 & _ & Hpl).
        cbn [ret] in Hpl. injection Hpl as <- _. exact Hq. }
      unfold Dnf._download_remote_payloads. apply bind_preserves.
      * apply comprehension_preserves; [|exact Hs1].
        intros pl s _ Hs. unfold _target_params. apply bind_preserves.
        -- apply (grows_same remote st s);
             [apply ensure_dir_trace | exact Hs].
        -- intros _ s2 _ Hs2. exact Hs2.
      * intros targets s2 Htargets Hs2.
        assert (Ht : Forall (fun t => fst t ∈ remote) targets).
        { revert Htargets. apply comprehension_values.
          intros pl s t s' Hin Ht. unfold _target_params in Ht.
          apply bind_ok_inv in Ht as (_ & s3 & _ & Ht).
          cbn [ret] in Ht. injection Ht as <- _. cbn [fst].
          rewrite Forall_forall in Hpl. now apply Hpl. }
        apply for_each_preserves; [|exact Hs2].
        intros t s Hin Hs. apply fetch_grows; [|exact Hs].
        rewrite Forall_forall in Ht. now apply Ht.
  - intros _ s1 _ Hs1. apply bind_preserves.
    + unfold when. destruct (negb (bool_decide (local = []))); [|exact Hs1].
      apply for_each_preserves; [|exact Hs1].
      intros p s _ Hs. now apply copy_local_pkg_grows.
    + intros _ s2 _ Hs2. unfold when.
      destruct (Opt.delete opts); [|exact Hs2].
      now apply delete_pass_grows.
Qed.

End Command.

End ReposyncFacts.

(* ===================================================================== *)
(** ** Facts about the steps of a synchronisation *)
(* ===================================================================== *)

Module SyncFacts.
Import PyStr PosixPath Exec PathFacts ExecFacts OSFacts.
Import Reposync ReposyncFacts.

Lemma tree_kept_refl (f : FS) : tree_kept f f.
Proof. split; auto. Qed.

Lemma tree_kept_trans (f g h : FS) :
  tree_kept f g -> tree_kept g h -> tree_kept f h.
Proof. intros [A B] [C D]. split; auto. Qed.

Lemma mkdirs_tree_kept (todo done : list string) (f f' : FS) :
  OS.mkdirs f done todo = Some f' -> tree_kept f f'.
Proof.
  intros H. destruct (mkdirs_spec _ _ _ _ H) as (Hfile & _ & Hdir).
  split; [|exact Hdir]. intros k [[b|] Hk]; [|rewrite (Hdir k Hk); eauto].
  apply Hfile in Hk. rewrite Hk. eauto.
Qed.

Lemma store_tree_kept (f f' : FS) (k : list string) (data : string) :
  OS.store f k data = Some f' -> tree_kept f f'.
Proof.
  unfold OS.store. intros H.
  assert (E : f' = <[k := File data]> f /\ f !! k <> Some Dir).
  { destruct k as [|c k]; [discriminate|]. cbn [OS.node_at] in H.
    destruct (f !! (c :: k)) as [[?|]|];
      destruct (OS.node_at f (OS.parent (c :: k))) as [[?|]|];
      try discriminate; injection H as <-; split; congruence. }
  destruct E as [-> Hnd]. split; intros k' Hk'.
  - rewrite lookup_insert. destruct (decide (k = k')); eauto.
  - rewrite lookup_insert_ne; [exact Hk'|]. intros ->. contradiction.
Qed.

Lemma ensure_dir_tree_kept (cwd d : string) (s : State) :
  tree_kept (fs s) (fs (snd (OS.ensure_dir cwd d s))).
Proof.
  unfold OS.ensure_dir. destruct (OS.mkdirs _ _ _) eqn:E;
    [|apply tree_kept_refl].
  cbn [snd fs set_fs]. now apply mkdirs_tree_kept in E.
Qed.

Lemma fetch_tree_kept (cwd : string) (q : Package.t) (d : string)
    (s : State) :
  tree_kept (fs s) (fs (snd (Dnf.fetch cwd q d s))).
Proof.
  unfold Dnf.fetch. destruct (Package.payload q); [|apply tree_kept_refl].
  destruct (Dnf.have_file _ _ _ _); [apply tree_kept_refl|].
  destruct (OS.store _ _ _) eqn:E; [|apply tree_kept_refl].
  cbn [snd fs emit set_fs]. now apply store_tree_kept in E.
Qed.

Lemma copy_tree_kept (cwd src dst : string) (s : State) :
  tree_kept (fs s) (fs (snd (OS.copy cwd src dst s))).
Proof.
  unfold OS.copy. destruct (bool_decide _); [apply tree_kept_refl|].
  destruct (OS.node_at _ _) as [[data|]|]; try apply tree_kept_refl.
  destruct (OS.store _ _ _) eqn:E; [|apply tree_kept_refl].
  cbn [snd fs emit set_fs]. now apply store_tree_kept in E.
Qed.

Lemma pkg_download_path_fs (cwd : string) (opts : Opt.t) (p : Package.t)
    (s : State) :
  fs (snd (pkg_download_path cwd opts p s)) = fs s.
Proof.
  destruct (pkg_download_path_run cwd opts p s) as (s1 & -> & Hfs & _).
  exact Hfs.
Qed.

Lemma pkg_download_path_full (cwd : string) (opts : Opt.t) (p : Package.t)
    (s : State) :
  let target := target_of cwd opts s (Package.repo p) in
  let dest := normpath (join target (Package.location p)) in
  exists s1,
    pkg_download_path cwd opts p s
    = (if startswith dest target then Ok dest
       else Raise (DnfError dest target), s1)
    /\ fs s1 = fs s /\ trace s1 = trace s
    /\ forall r, target_of cwd opts s1 r = target_of cwd opts s r.
Proof.
  intros target dest.
  destruct (repo_target_run cwd opts (Package.repo p) s)
    as (s1 & Hrun & Hfs & Htr & Htg).
  exists s1. split; [|auto].
  unfold pkg_download_path. rewrite (bind_ok _ _ _ _ _ Hrun).
  fold target. fold dest. destruct (startswith dest target); reflexivity.
Qed.

Lemma tree_kept_isdir (cwd : string) (f f' : FS) (p : string) :
  tree_kept f f' -> OS.isdir cwd f p = true -> OS.isdir cwd f' p = true.
Proof.
  intros [_ Hdir]. unfold OS.isdir.
  destruct (OS.resolve cwd p) as [|c k]; [auto|]. cbn [OS.node_at].
  destruct (f !! (c :: k)) as [[?|]|] eqn:E; try discriminate.
  now rewrite (Hdir _ E).
Qed.

Lemma for_each_ok_between {S A} (R : S -> S -> Prop)
    (body : A -> Exec.M S unit) l s s' x :
  (forall a, R a a) ->
  (forall a b c, R a b -> R b c -> R a c) ->
  (forall y s1, R s1 (snd (body y s1))) ->
  for_each l body s = (Ok tt, s') -> x ∈ l ->
  exists s1 s2, R s s1 /\ body x s1 = (Ok tt, s2) /\ R s2 s'.
Proof.
  intros Hrefl Htrans Hstep. revert s.
  induction l as [|y l IH]; intros s H Hx.
  - now apply elem_of_nil in Hx.
  - cbn [for_each] in H. apply bind_ok_inv in H as ([] & s1 & Hy & Hrest).
    assert (Hs1 : R s s1)
      by (specialize (Hstep y s); now rewrite Hy in Hstep).
    assert (Hend : R s1 s').
    { replace s' with (snd (for_each l body s1)) by now rewrite Hrest.
      apply (for_each_preserves (R s1)); [|apply Hrefl].
      intros z s2 _ Hs2. exact (Htrans _ _ _ Hs2 (Hstep z s2)). }
    apply elem_of_cons in Hx as [->|Hx].
    + exists s, s1. auto.
    + destruct (IH s1 Hrest Hx) as (sa & sb & Ha & Hb & Hc).
      exists sa, sb. split; [exact (Htrans _ _ _ Hs1 Ha) | auto].
Qed.

Lemma tree_kept_exists (cwd : string) (f f' : FS) (p : string) :
  tree_kept f f' ->
  OS.path_exists cwd f p = true -> OS.path_exists cwd f' p = true.
Proof.
  intros [Hsome _]. unfold OS.path_exists.
  destruct (OS.resolve cwd p) as [|c k]; [auto|]. cbn [OS.node_at].
  destruct (f !! (c :: k)) eqn:E; [|discriminate]. intros _.
  assert (Hs : is_Some (f !! (c :: k))) by now rewrite E.
  now destruct (Hsome (c :: k) Hs) as [n' ->].
Qed.

Lemma copy_stage_tree_kept (cwd : string) (opts : Opt.t)
    (local : list Package.t) (s : State) :
  tree_kept (fs s) (fs (snd (for_each local (copy_local_pkg cwd opts) s))).
Proof.
  apply (for_each_preserves (fun s' => tree_kept (fs s) (fs s')));
    [|apply tree_kept_refl].
  intros p s0 _ Hs0. unfold copy_local_pkg. apply bind_preserves.
  - now rewrite pkg_download_path_fs.
  - intros dest s2 _ Hs2. apply bind_preserves.
    + exact (tree_kept_trans _ _ _ Hs2 (ensure_dir_tree_kept _ _ _)).
    + intros _ s3 _ Hs3.
      exact (tree_kept_trans _ _ _ Hs3 (copy_tree_kept _ _ _ _)).
Qed.

Lemma lstrip_sep_relative (s : string) :
  startswith (lstrip_sep s) "/" = false.
Proof.
  induction s as [|c s IH]; [reflexivity|]. cbn [lstrip_sep].
  destruct (is_sep c) eqn:E; [exact IH|].
  unfold startswith. rewrite prefix_cons.
  destruct (ascii_dec "/" c) as [<-|]; [discriminate | reflexivity].
Qed.

(** A relative second part leaves the first part in front. *)
Lemma join_keeps_front (a b : string) :
  startswith b "/" = false -> startswith (join a b) a = true.
Proof.
  intros Hb. rewrite (join_rel a b Hb).
  destruct (negb (truthy a) || endswith a "/"); apply startswith_app_l.
Qed.

Section Later.
Variables (cwd : string) (opts : Opt.t).

Local Abbreviation later := (later_store cwd opts).

Lemma later_refl (s : State) : later s s.
Proof.
  split; [apply tree_kept_refl|]. split; [|reflexivity].
  exists []. now rewrite app_nil_r.
Qed.

Lemma later_trans (a b c : State) : later a b -> later b c -> later a c.
Proof.
  intros (Hk1 & (n1 & E1) & Ht1) (Hk2 & (n2 & E2) & Ht2).
  split; [exact (tree_kept_trans _ _ _ Hk1 Hk2)|]. split.
  - exists (n1 ++ n2). now rewrite E2, E1, app_assoc.
  - intros r. now rewrite Ht2.
Qed.

Lemma later_step (s s' : State) :
  tree_kept (fs s) (fs s') ->
  (exists new, trace s' = trace s ++ new) ->
  _repo_target s' = _repo_target s ->
  later s s'.
Proof.
  intros Hk Ht Hm. split; [exact Hk|]. split; [exact Ht|].
  intros r. now apply target_of_ext.
Qed.

Lemma bind_later {A B} (m : M State A) (k : A -> M State B) :
  (forall s, later s (snd (m s))) ->
  (forall a s, later s (snd (k a s))) ->
  forall s, later s (snd (bind m k s)).
Proof.
  intros Hm Hk s. unfold bind. specialize (Hm s).
  destruct (m s) as [[a|e] s1]; [|exact Hm].
  exact (later_trans _ _ _ Hm (Hk a s1)).
Qed.

Lemma for_each_later {A} (body : A -> M State unit) (l : list A) :
  (forall x s, later s (snd (body x s))) ->
  forall s, later s (snd (for_each l body s)).
Proof.
  intros Hbody s. apply (for_each_preserves (later s)); [|apply later_refl].
  intros x s1 _ H1. exact (later_trans _ _ _ H1 (Hbody x s1)).
Qed.

Lemma comprehension_later {A B} (f : A -> M State B) (l : list A) :
  (forall x s, later s (snd (f x s))) ->
  forall s, later s (snd (comprehension l f s)).
Proof.
  intros Hf s. apply (comprehension_preserves (later s)); [|apply later_refl].
  intros x s1 _ H1. exact (later_trans _ _ _ H1 (Hf x s1)).
Qed.

Lemma fetch_memo (q : Package.t) (d : string) (s : State) :
  _repo_target (snd (Dnf.fetch cwd q d s)) = _repo_target s.
Proof.
  unfold Dnf.fetch. destruct (Package.payload q); [|reflexivity].
  destruct (Dnf.have_file _ _ _ _); [reflexivity|].
  now destruct (OS.store _ _ _).
Qed.

Lemma ensure_dir_memo (d : string) (s : State) :
  _repo_target (snd (OS.ensure_dir cwd d s)) = _repo_target s.
Proof. unfold OS.ensure_dir. now destruct (OS.mkdirs _ _ _). Qed.

Lemma pkg_download_path_later (p : Package.t) (s : State) :
  later s (snd (pkg_download_path cwd opts p s)).
Proof.
  destruct (pkg_download_path_full cwd opts p s)
    as (s1 & -> & Hfs & Htr & Htg).
  assert (H : later s s1).
  { split; [rewrite Hfs; apply tree_kept_refl|]. split; [|exact Htg].
    exists []. now rewrite app_nil_r. }
  now destruct (startswith _ _).
Qed.

Lemma ensure_dir_later (d : string) (s : State) :
  later s (snd (OS.ensure_dir cwd d s)).
Proof.
  apply later_step; [apply ensure_dir_tree_kept| |apply ensure_dir_memo].
  exists []. now rewrite ensure_dir_trace, app_nil_r.
Qed.

Lemma fetch_later (q : Package.t) (d : string) (s : State) :
  later s (snd (Dnf.fetch cwd q d s)).
Proof.
  apply later_step; [apply fetch_tree_kept| |apply fetch_memo].
  unfold Dnf.fetch.
  assert (H0 : exists new, trace s = trace s ++ new)
    by (exists []; now rewrite app_nil_r).
  destruct (Package.payload q); [|exact H0].
  destruct (Dnf.have_file _ _ _ _); [exact H0|].
  destruct (OS.store _ _ _); [|exact H0].
  now exists [EvFetch q d].
Qed.

Lemma copy_later (src dst : string) (s : State) :
  later s (snd (OS.copy cwd src dst s)).
Proof.
  assert (H0 : exists new, trace s = trace s ++ new)
    by (exists []; now rewrite app_nil_r).
  apply later_step; [apply copy_tree_kept| |]; unfold OS.copy;
    destruct (bool_decide _); try exact H0; try reflexivity;
    destruct (OS.node_at _ _) as [[data|]|]; try exact H0; try reflexivity;
    destruct (OS.store _ _ _); try exact H0; try reflexivity.
  eexists [_]. reflexivity.
Qed.

Lemma copy_local_pkg_later (p : Package.t) (s : State) :
  later s (snd (copy_local_pkg cwd opts p s)).
Proof.
  unfold copy_local_pkg. apply bind_later; [apply pkg_download_path_later|].
  intros dest s1. apply bind_later; [apply ensure_dir_later|].
  intros _ s2. apply copy_later.
Qed.

(** The part of [download_packages] for the remote packages. *)
Lemma remote_stage_later (remote : list Package.t) (s : State) :
  later s
    (snd (when (negb (bool_decide (remote = [])))
            (payloads <- comprehension remote
                           (fun p => path <- pkg_download_path cwd opts p ;;
                                     ret (new_payload p path)) ;;
             Dnf._download_remote_payloads cwd (_target_params cwd) payloads)
            s)).
Proof.
  unfold when. destruct (negb (bool_decide (remote = [])));
    [|apply later_refl].
  apply bind_later.
  - apply comprehension_later. intros q s1.
    apply bind_later; [apply pkg_download_path_later|].
    intros path s2. apply later_refl.
  - intros payloads s1. unfold Dnf._download_remote_payloads.
    apply bind_later.
    + apply comprehension_later. intros pl s2. unfold _target_params.
      apply bind_later; [apply ensure_dir_later|].
      intros _ s3. apply later_refl.
    + intros targets s2. apply for_each_later. intros t s3.
      apply fetch_later.
Qed.

End Later.

End SyncFacts.

(* ===================================================================== *)
(** ** Facts about the deletion pass on a tree with symbolic links *)
(* ===================================================================== *)

Module LinksFacts.
Import PyStr PosixPath Exec PathFacts ExecFacts.
Import Links.

Lemma walk_nil (links : nat) (t : Tree) (follow : bool)
    (done : list string) :
  walk links t follow done [] = Some done.
Proof. destruct links; reflexivity. Qed.

Lemma walk_cons (links : nat) (t : Tree) (follow : bool)
    (done : list string) (c : string) (rest : list string) :
  walk links t follow done (c :: rest)
  = if String.eqb c "" || String.eqb c "." then
      walk links t follow done rest
    else if String.eqb c ".." then
      walk links t follow (removelast done) rest
    else
      match t !! (done ++ [c]) with
      | None => None
      | Some Directory => walk links t follow (done ++ [c]) rest
      | Some (Symlink target) =>
          if negb follow && bool_decide (rest = []) then
            Some (done ++ [c])
          else if String.eqb target "" then None
          else
            match links with
            | O => None
            | S links' =>
                walk links' t follow
                  (if startswith target "/" then [] else done)
                  (split_sep target ++ rest)
            end
      | Some _ =>
          match rest with
          | [] => Some (done ++ [c])
          | _ :: _ => None
          end
      end.
Proof. destruct links; reflexivity. Qed.

(** A resolution that succeeds in a part of a tree succeeds in the whole
    tree, with the same result. *)
Lemma walk_mono (t' t : Tree) :
  (forall k e, t' !! k = Some e -> t !! k = Some e) ->
  forall links follow todo done k,
    walk links t' follow done todo = Some k ->
    walk links t follow done todo = Some k.
Proof.
  intros Hsub. induction links as [|n IHn]; intros follow todo;
    induction todo as [|c rest IHt]; intros done k H;
    rewrite ?walk_nil, ?walk_cons in *; try exact H.
  - destruct (String.eqb c "" || String.eqb c "."); [now apply IHt|].
    destruct (String.eqb c ".."); [now apply IHt|].
    destruct (t' !! (done ++ [c])) as [e|] eqn:E; [|discriminate].
    rewrite (Hsub _ _ E). destruct e; auto.
  - destruct (String.eqb c "" || String.eqb c "."); [now apply IHt|].
    destruct (String.eqb c ".."); [now apply IHt|].
    destruct (t' !! (done ++ [c])) as [e|] eqn:E; [|discriminate].
    rewrite (Hsub _ _ E). destruct e; auto.
    destruct (negb follow && bool_decide (rest = [])); [exact H|].
    destruct (String.eqb target ""); [exact H|]. now apply IHn.
Qed.

(** Following the last name changes nothing when it is no symbolic
    link. *)
Lemma walk_follow_same (t : Tree) :
  forall links todo done k,
    walk links t false done todo = Some k ->
    (forall target, t !! k <> Some (Symlink target)) ->
    walk links t true done todo = Some k.
Proof.
  induction links as [|n IHn]; intros todo;
    induction todo as [|c rest IHt]; intros done k H Hk;
    rewrite ?walk_nil, ?walk_cons in *; try exact H.
  - destruct (String.eqb c "" || String.eqb c "."); [now apply IHt|].
    destruct (String.eqb c ".."); [now apply IHt|].
    destruct (t !! (done ++ [c])) as [[data| |target|]|] eqn:E;
      try exact H; [now apply IHt|].
    cbn [negb andb] in *.
    destruct (bool_decide (rest = [])); [|exact H].
    injection H as <-. now destruct (Hk target).
  - destruct (String.eqb c "" || String.eqb c "."); [now apply IHt|].
    destruct (String.eqb c ".."); [now apply IHt|].
    destruct (t !! (done ++ [c])) as [[data| |target|]|] eqn:E;
      try exact H; [now apply IHt|].
    cbn [negb andb] in *.
    destruct (bool_decide (rest = [])).
    + injection H as <-. now destruct (Hk target).
    + destruct (String.eqb target ""); [exact H|]. now apply IHn.
Qed.

Section Command.
Variables (cwd : string) (opts : Opt.t) (base_repos : list Repo.t).

Lemma locate_mono (t' t : Tree) (follow : bool) (p : string)
    (k : list string) :
  (forall k e, t' !! k = Some e -> t !! k = Some e) ->
  locate cwd t' follow p = Some k -> locate cwd t follow p = Some k.
Proof. intros Hsub. unfold locate. now apply walk_mono. Qed.

Lemma stat_mono (t' t : Tree) (p : string) (e : Entry) :
  (forall k e, t' !! k = Some e -> t !! k = Some e) ->
  stat cwd t' p = Some e -> stat cwd t p = Some e.
Proof.
  intros Hsub. unfold stat.
  destruct (locate cwd t' true p) as [k|] eqn:E; [|discriminate].
  rewrite (locate_mono _ _ _ _ _ Hsub E).
  destruct k as [|c k]; [auto|]. cbn [entry_at]. apply Hsub.
Qed.

(** [os.lstat] of a name that is no symbolic link is [os.stat] of it. *)
Lemma stat_of_plain_entry (t : Tree) (p : string) (k : list string) :
  locate cwd t false p = Some k ->
  (forall target, t !! k <> Some (Symlink target)) ->
  stat cwd t p = entry_at t k.
Proof.
  intros Hloc Hk. unfold stat, locate in *.
  now rewrite (walk_follow_same t _ _ _ _ Hloc Hk).
Qed.

Lemma links_target_of_unfold (st : Store) (r : Repo.t) :
  target_of cwd opts st r
  = match targets st !! Repo.id r with
    | Some t =>
        if truthy t then t
        else Reposync._pkgdir cwd (Reposync.destdir_or_download_path opts)
               (Repo.id r)
    | None =>
        Reposync._pkgdir cwd (Reposync.destdir_or_download_path opts)
          (Repo.id r)
    end.
Proof.
  unfold target_of, repo_target.
  destruct (targets st !! Repo.id r) as [t|]; [|reflexivity].
  destruct (truthy t); reflexivity.
Qed.

Lemma links_repo_target_run (r : Repo.t) (st : Store) :
  exists st',
    repo_target cwd opts r st = (Ok (target_of cwd opts st r), st')
    /\ tree st' = tree st /\ read_only st' = read_only st
    /\ log st' = log st
    /\ forall r', target_of cwd opts st' r' = target_of cwd opts st r'.
Proof.
  unfold target_of at 1. unfold repo_target.
  set (fresh := Reposync._pkgdir cwd (Reposync.destdir_or_download_path opts)
                  (Repo.id r)).
  assert (Hmiss : forall r',
    target_of cwd opts
      (set_targets (<[Repo.id r := fresh]> (targets st)) st) r'
    = if decide (Repo.id r = Repo.id r') then fresh
      else target_of cwd opts st r').
  { intros r'. rewrite !links_target_of_unfold. cbn [targets set_targets].
    rewrite lookup_insert. destruct (decide (Repo.id r = Repo.id r'));
      [|reflexivity].
    unfold fresh, Reposync._pkgdir.
    now rewrite ReposyncFacts.normpath_truthy. }
  destruct (targets st !! Repo.id r) as [t|] eqn:E.
  - destruct (truthy t) eqn:Ht.
    + exists st. cbn [fst]. auto 10.
    + eexists. cbn [fst]. repeat (split; [reflexivity|]).
      intros r'. rewrite Hmiss.
      destruct (decide (Repo.id r = Repo.id r')) as [Eid|]; [|reflexivity].
      rewrite links_target_of_unfold, <- Eid, E, Ht. reflexivity.
  - eexists. cbn [fst]. repeat (split; [reflexivity|]).
    intros r'. rewrite Hmiss.
    destruct (decide (Repo.id r = Repo.id r')) as [Eid|]; [|reflexivity].
    rewrite links_target_of_unfold, <- Eid, E. reflexivity.
Qed.

(** [os.unlink] removes the name it was given, or raises [OSError] and
    leaves everything as it is. *)
Lemma unlink_run (p : string) (st : Store) :
  (exists k e,
     locate cwd (tree st) false p = Some k
     /\ tree st !! k = Some e
     /\ unlink cwd p st
        = (Ok tt,
           record (EvUnlink p) (set_tree (base.delete k (tree st)) st)))
  \/ unlink cwd p st = (Raise (OSError p), st).
Proof.
  unfold unlink.
  destruct (locate cwd (tree st) false p) as [k|]; [|now right].
  destruct (entry_at (tree st) k) as [e|] eqn:E; [|now right].
  destruct k as [|c k]; [injection E as <-; now right|].
  cbn [entry_at] in E.
  destruct (bool_decide (OS.parent (c :: k) ∈ read_only st));
    [destruct e; now right|].
  destruct e; [left|now right|left|left]; eauto.
Qed.

Lemma links_delete_if_old_eq (dm : gmap (string * string) nat)
    (r : Repo.t) (t f : string) (s : Store) :
  delete_if_old cwd dm r t f s
  = if endswith f ".rpm" && isfile cwd (tree s) (join t f)
       && negb (Reposync.in_map dm (Repo.id r, f))
    then
      try_OSError
        (unlink cwd (join t f) ;;
         modify (record (EvInfo "[DELETED] %s" (join t f))))
        (modify (record (EvError "failed to delete file %s" (join t f)))) s
    else (Ok tt, s).
Proof.
  unfold delete_if_old, bind at 1, gets.
  destruct (endswith f ".rpm"); [|reflexivity].
  destruct (isfile cwd (tree s) (join t f)); [|reflexivity].
  now destruct (Reposync.in_map dm (Repo.id r, f)).
Qed.

(** One turn of the loop over the names of a target directory: the name
    is unlinked and the deletion logged, or the unlink failed and the
    failure is logged, or nothing happens.  It never raises. *)
Lemma links_delete_if_old_run (dm : gmap (string * string) nat)
    (r : Repo.t) (t f : string) (s : Store) :
  (exists k data,
     locate cwd (tree s) false (join t f) = Some k
     /\ stat cwd (tree s) (join t f) = Some (Regular data)
     /\ delete_if_old cwd dm r t f s
        = (Ok tt,
           record (EvInfo "[DELETED] %s" (join t f))
             (record (EvUnlink (join t f))
                (set_tree (base.delete k (tree s)) s))))
  \/ delete_if_old cwd dm r t f s
     = (Ok tt, record (EvError "failed to delete file %s" (join t f)) s)
  \/ delete_if_old cwd dm r t f s = (Ok tt, s).
Proof.
  rewrite links_delete_if_old_eq.
  destruct (endswith f ".rpm"); [|now right; right].
  unfold isfile.
  destruct (stat cwd (tree s) (join t f)) as [[data| | |]|] eqn:Hst;
    try (now right; right).
  destruct (Reposync.in_map dm (Repo.id r, f)); [now right; right|].
  cbn [andb negb]. unfold try_OSError, bind, modify.
  destruct (unlink_run (join t f) s) as [(k & e & Hloc & _ & ->)| ->].
  - left. now exists k, data.
  - right. now left.
Qed.

(** Taking away a name for which [os.path.isfile] holds keeps
    [isfile_removed]. *)
Lemma isfile_removed_refl (st : Store) : isfile_removed cwd st st.
Proof. intros k. now left. Qed.

Lemma isfile_removed_part (st s : Store) :
  isfile_removed cwd st s ->
  forall k e, tree s !! k = Some e -> tree st !! k = Some e.
Proof.
  intros H k e Hk. destruct (H k) as [E|[E _]]; congruence.
Qed.

Lemma isfile_removed_same (st s s' : Store) :
  tree s' = tree s -> isfile_removed cwd st s -> isfile_removed cwd st s'.
Proof. intros E H k. rewrite E. apply H. Qed.

Lemma isfile_removed_delete (st s s' : Store) (p : string)
    (k : list string) (data : string) :
  isfile_removed cwd st s ->
  locate cwd (tree s) false p = Some k ->
  stat cwd (tree s) p = Some (Regular data) ->
  tree s' = base.delete k (tree s) ->
  isfile_removed cwd st s'.
Proof.
  intros H Hloc Hst E k0. rewrite E.
  destruct (decide (k0 = k)) as [->|Hne].
  - right. split; [apply lookup_delete_eq|]. exists p, data.
    pose proof (isfile_removed_part _ _ H) as Hsub.
    split; [exact (locate_mono _ _ _ _ _ Hsub Hloc)|].
    exact (stat_mono _ _ _ _ Hsub Hst).
  - rewrite lookup_delete_ne by congruence. apply H.
Qed.

(** What the pass keeps from turn to turn. *)
Lemma pass_keeps_refl (st : Store) : pass_keeps cwd opts st st.
Proof. split; [apply isfile_removed_refl | reflexivity]. Qed.

Lemma links_delete_if_old_keeps (dm : gmap (string * string) nat)
    (r : Repo.t) (t f : string) (st s : Store) :
  pass_keeps cwd opts st s ->
  fst (delete_if_old cwd dm r t f s) = Ok tt
  /\ pass_keeps cwd opts st (snd (delete_if_old cwd dm r t f s)).
Proof.
  intros [Hinv Htg].
  destruct (links_delete_if_old_run dm r t f s)
    as [(k & data & Hloc & Hst & ->)|[->| ->]]; cbn [fst snd].
  - split; [reflexivity|]. split.
    + now apply (isfile_removed_delete st s _ (join t f) k data).
    + intros r'. now rewrite <- Htg, !links_target_of_unfold.
  - split; [reflexivity|]. split.
    + now apply (isfile_removed_same st s).
    + intros r'. now rewrite <- Htg, !links_target_of_unfold.
  - split; [reflexivity | now split].
Qed.

Lemma links_repo_target_keeps (r : Repo.t) (st s s1 : Store) :
  pass_keeps cwd opts st s ->
  repo_target cwd opts r s = (Ok (target_of cwd opts s r), s1) ->
  pass_keeps cwd opts st s1.
Proof.
  intros [Hinv Htg] Hrun.
  destruct (links_repo_target_run r s)
    as (s1' & Hrun' & Htree & _ & _ & Htg1).
  rewrite Hrun in Hrun'. injection Hrun' as <-. split.
  - now apply (isfile_removed_same st s).
  - intros r'. now rewrite Htg1.
Qed.

Lemma links_delete_in_repo_keeps (dm : gmap (string * string) nat)
    (r : Repo.t) (st s : Store) :
  pass_keeps cwd opts st s ->
  pass_keeps cwd opts st (snd (delete_in_repo cwd opts dm r s)).
Proof.
  intros Hs. unfold delete_in_repo.
  destruct (links_repo_target_run r s) as (s1 & Hrun & _).
  pose proof (links_repo_target_keeps r st s s1 Hs Hrun) as H1.
  rewrite (bind_ok _ _ _ _ _ Hrun).
  unfold bind at 1, gets. destruct (path_exists cwd (tree s1) _);
    [|exact H1].
  apply bind_preserves.
  - unfold listdir. destruct (locate cwd (tree s1) true _); [|exact H1].
    destruct (entry_at (tree s1) _) as [[]|]; exact H1.
  - intros names s2 _ H2. apply for_each_preserves; [|exact H2].
    intros f s3 _ H3.
    now destruct (links_delete_if_old_keeps dm r (target_of cwd opts s r)
                    f st s3 H3).
Qed.

(** The whole pass takes away nothing but names for which
    [os.path.isfile] held. *)
Lemma links_delete_pass_keeps (pkgs : list Package.t) (st : Store) :
  pass_keeps cwd opts st
    (snd (delete_old_local_packages cwd opts base_repos pkgs st)).
Proof.
  unfold delete_old_local_packages.
  apply for_each_preserves; [|apply pass_keeps_refl].
  intros r s _ Hs. now apply links_delete_in_repo_keeps.
Qed.

(** A turn of the loop over the repositories returns when the target
    path, if there is something under it, is a directory. *)
Lemma links_delete_in_repo_ok (dm : gmap (string * string) nat)
    (r : Repo.t) (st s : Store) :
  (forall e, stat cwd (tree st) (target_of cwd opts st r) = Some e ->
             e = Directory) ->
  pass_keeps cwd opts st s ->
  fst (delete_in_repo cwd opts dm r s) = Ok tt.
Proof.
  intros Hdir Hs. unfold delete_in_repo.
  destruct (links_repo_target_run r s) as (s1 & Hrun & _).
  pose proof (links_repo_target_keeps r st s s1 Hs Hrun) as H1.
  rewrite (bind_ok _ _ _ _ _ Hrun).
  unfold bind at 1, gets. unfold path_exists.
  destruct (stat cwd (tree s1) (target_of cwd opts s r)) as [e|] eqn:Hst;
    [|reflexivity].
  pose proof (stat_mono _ _ _ _ (isfile_removed_part _ _ (proj1 H1)) Hst)
    as Hst0.
  rewrite (proj2 Hs) in Hst0. apply Hdir in Hst0. subst e.
  unfold stat in Hst.
  destruct (locate cwd (tree s1) true (target_of cwd opts s r))
    as [k|] eqn:Hloc; [|discriminate].
  assert (Hls : listdir cwd (target_of cwd opts s r) s1
                = (Ok (children (tree s1) k), s1))
    by (unfold listdir; now rewrite Hloc, Hst).
  rewrite (bind_ok _ _ _ _ _ Hls).
  apply (for_each_ok_preserves (pass_keeps cwd opts st)); [|exact H1].
  intros f s2 _ H2.
  exact (links_delete_if_old_keeps dm r (target_of cwd opts s r) f st s2 H2).
Qed.

End Command.

End LinksFacts.

(* ===================================================================== *)
(** ** Properties of the synchronisation engine *)
(* ===================================================================== *)

Module Properties.
Import PyStr PosixPath Exec PathFacts ExecFacts OSFacts.
Import Reposync ReposyncFacts SyncFacts Scenario.

(** C7.  A file whose name does not end in [.rpm] is never deleted by the
    deletion pass: whatever the options, the enabled repositories and the
    candidate set, an entry of the tree whose last name lacks the suffix
    is after the pass what it was before. *)
Theorem deletion_keeps_non_rpm (cwd : string) (opts : Opt.t)
    (base_repos : list Repo.t) (pkgs : list Package.t) (st : State)
    (k : list string) (name : string) :
  last k = Some name ->
  endswith name ".rpm" = false ->
  fs (snd (delete_old_local_packages cwd opts base_repos pkgs st)) !! k
  = fs st !! k.
Proof.
  intros Hlast Hname.
  destruct (delete_pass_stale cwd opts base_repos pkgs st) as [_ Hk].
  destruct (Hk k) as [E|[_ (r & f & data & _ & Hf & -> & _)]]; [exact E|].
  destruct (resolve_rpm cwd (target_of cwd opts st r) f Hf)
    as (init & g & Hres & Hg).
  rewrite Hres, last_snoc in Hlast. congruence.
Qed.

Lemma deletion_keeps_non_rpm_witness :
  fs (snd (delete_old_local_packages "/srv" opts_delete [repo_A] []
             (store_of tree_A))) !! ["srv"; "A"; "README"]
  = Some (File "notes").
Proof.
  rewrite (deletion_keeps_non_rpm "/srv" opts_delete [repo_A] []
             (store_of tree_A) ["srv"; "A"; "README"] "README");
    reflexivity.
Defined.

(** The claim C10 does not hold for symbolic links: in [/srv/A] the name
    [x-1.0.rpm] is a symbolic link to a regular file of [/srv/pool], so no
    regular file itself; [os.path.isfile] follows the link, and the pass
    removes the link.  The file it points to stays. *)
Lemma deletion_unlinks_symlink :
  Links.lstat "/srv" tree_links "/srv/A/x-1.0.rpm"
  = Some (Links.Symlink "../pool/x-1.0.rpm")
  /\ Links.tree
       (snd (Links.delete_old_local_packages "/srv" opts_delete [repo_A] []
               (links_store tree_links []))) !! ["srv"; "A"; "x-1.0.rpm"]
     = None
  /\ Links.tree
       (snd (Links.delete_old_local_packages "/srv" opts_delete [repo_A] []
               (links_store tree_links []))) !! ["srv"; "pool"; "x-1.0.rpm"]
     = Some (Links.Regular "bytes of x")
  /\ Links.log
       (snd (Links.delete_old_local_packages "/srv" opts_delete [repo_A] []
               (links_store tree_links [])))
     = [EvUnlink "/srv/A/x-1.0.rpm";
        EvInfo "[DELETED] %s" "/srv/A/x-1.0.rpm"].
Proof. repeat split; vm_compute; reflexivity. Qed.

(** C10, as amended.  The deletion pass unlinks a name only if
    [os.path.isfile] holds for a path that names it, that is, if the path
    leads, through symbolic links or not, to a regular file: every name
    of the tree is after the pass what it was before, or it is gone and
    such a path exists.  So a directory and a special file are never
    removed, whatever their names are, and a symbolic link is removed
    only if it leads to a regular file: a link to a directory and a link
    to nothing stay. *)
Theorem deletion_unlinks_what_isfile_accepts (cwd : string) (opts : Opt.t)
    (base_repos : list Repo.t) (pkgs : list Package.t) (st : Links.Store) :
  let st' :=
    snd (Links.delete_old_local_packages cwd opts base_repos pkgs st) in
  (forall k,
     Links.tree st' !! k = Links.tree st !! k
     \/ (Links.tree st' !! k = None
         /\ exists path data,
              Links.locate cwd (Links.tree st) false path = Some k
              /\ Links.stat cwd (Links.tree st) path
                 = Some (Links.Regular data)))
  /\ (forall k, Links.tree st !! k = Some Links.Directory ->
                Links.tree st' !! k = Some Links.Directory)
  /\ (forall k, Links.tree st !! k = Some Links.Special ->
                Links.tree st' !! k = Some Links.Special)
  /\ (forall k target,
        Links.tree st !! k = Some (Links.Symlink target) ->
        Links.tree st' !! k = Some (Links.Symlink target)
        \/ exists path data,
             Links.locate cwd (Links.tree st) false path = Some k
             /\ Links.stat cwd (Links.tree st) path
                = Some (Links.Regular data)).
Proof.
  intros st'.
  destruct (LinksFacts.links_delete_pass_keeps cwd opts base_repos pkgs st)
    as [Hinv _]. fold st' in Hinv.
  assert (Hplain : forall k e,
    Links.tree st !! k = Some e ->
    (forall target, e <> Links.Symlink target) ->
    (forall data, e <> Links.Regular data) ->
    Links.tree st' !! k = Some e).
  { intros k e Hk Hlink Hreg.
    destruct (Hinv k) as [E|[_ (path & data & Hloc & Hst)]]; [congruence|].
    exfalso.
    rewrite (LinksFacts.stat_of_plain_entry cwd _ _ _ Hloc) in Hst.
    - destruct k as [|c k]; [discriminate|]. cbn [Links.entry_at] in Hst.
      rewrite Hk in Hst. injection Hst as ->. now apply (Hreg data).
    - intros target E. rewrite Hk in E. injection E as ->.
      now apply (Hlink target). }
  split; [exact Hinv|]. split; [|split].
  - intros k Hk. apply Hplain; [exact Hk | discriminate | discriminate].
  - intros k Hk. apply Hplain; [exact Hk | discriminate | discriminate].
  - intros k target Hk.
    destruct (Hinv k) as [E|[_ (path & data & Hloc & Hst)]];
      [left; congruence|].
    right. now exists path, data.
Qed.

(** C6.  With a single enabled repository whose target directory holds
    exactly the regular files [a-1.0.rpm] and [b-1.0.rpm], and a candidate
    set that contains only [a-1.0.rpm], the deletion pass completes and
    deletes exactly [b-1.0.rpm]: the tree afterwards is the tree before
    without that one file, and the only operations are its unlink and the
    log line for it. *)
Theorem deletion_removes_exactly_stale (cwd : string) (opts : Opt.t)
    (base_repos : list Repo.t) (r : Repo.t) (pkgs : list Package.t)
    (st : State) (bytes_a bytes_b : string) :
  let target := target_of cwd opts st r in
  let d := OS.resolve cwd target in
  iter_enabled base_repos = [r] ->
  OS.isdir cwd (fs st) target = true ->
  OS.children (fs st) d ≡ₚ ["a-1.0.rpm"; "b-1.0.rpm"] ->
  fs st !! (d ++ ["a-1.0.rpm"]) = Some (File bytes_a) ->
  fs st !! (d ++ ["b-1.0.rpm"]) = Some (File bytes_b) ->
  pkgs <> [] ->
  (forall p, p ∈ pkgs ->
     Repo.id (Package.repo p) = Repo.id r
     /\ basename (Package.location p) = "a-1.0.rpm") ->
  exists st',
    delete_old_local_packages cwd opts base_repos pkgs st = (Ok tt, st')
    /\ fs st' = base.delete (d ++ ["b-1.0.rpm"]) (fs st)
    /\ trace st'
       = trace st ++ [EvUnlink (join target "b-1.0.rpm");
                      EvInfo "[DELETED] %s" (join target "b-1.0.rpm")].
Proof.
  intros target d Hen Hdir Hls Ha Hb Hne Hkeep.
  set (dm := download_map_of pkgs).
  assert (Hina : in_map dm (Repo.id r, "a-1.0.rpm") = true).
  { apply in_map_download_map. destruct pkgs as [|p ps]; [congruence|].
    exists p. split; [left | apply Hkeep; left]. }
  assert (Hinb : in_map dm (Repo.id r, "b-1.0.rpm") = false).
  { destruct (in_map dm (Repo.id r, "b-1.0.rpm")) eqn:E; [|reflexivity].
    apply in_map_download_map in E as (p & Hp & _ & Hn).
    destruct (Hkeep p Hp) as [_ Hn']. rewrite Hn' in Hn. discriminate. }
  assert (Hra : OS.resolve cwd (join target "a-1.0.rpm") = d ++ ["a-1.0.rpm"])
    by now apply resolve_join.
  assert (Hrb : OS.resolve cwd (join target "b-1.0.rpm") = d ++ ["b-1.0.rpm"])
    by now apply resolve_join.
  assert (Hab : d ++ ["b-1.0.rpm"] <> d ++ ["a-1.0.rpm"]).
  { intros E. apply app_inv_head in E. discriminate. }
  destruct (repo_target_run cwd opts r st) as (s1 & Hrun & Hfs & Htr & _).
  fold target in Hrun.
  assert (Hfa : forall s, fs s !! (d ++ ["a-1.0.rpm"]) = Some (File bytes_a) ->
    delete_if_old cwd dm r target "a-1.0.rpm" s = (Ok tt, s)).
  { intros s Hs. rewrite delete_if_old_eq. unfold OS.isfile.
    rewrite Hra, node_at_snoc, Hs, Hina. reflexivity. }
  assert (Hfb : forall s, fs s !! (d ++ ["b-1.0.rpm"]) = Some (File bytes_b) ->
    delete_if_old cwd dm r target "b-1.0.rpm" s
    = (Ok tt,
       emit (EvInfo "[DELETED] %s" (join target "b-1.0.rpm"))
         (emit (EvUnlink (join target "b-1.0.rpm"))
            (set_fs (base.delete (d ++ ["b-1.0.rpm"]) (fs s)) s)))).
  { intros s Hs. rewrite delete_if_old_eq. unfold OS.isfile.
    rewrite Hrb, node_at_snoc, Hs, Hinb. reflexivity. }
  assert (Hs1a : fs s1 !! (d ++ ["a-1.0.rpm"]) = Some (File bytes_a))
    by now rewrite Hfs.
  assert (Hs1b : fs s1 !! (d ++ ["b-1.0.rpm"]) = Some (File bytes_b))
    by now rewrite Hfs.
  set (final :=
    emit (EvInfo "[DELETED] %s" (join target "b-1.0.rpm"))
      (emit (EvUnlink (join target "b-1.0.rpm"))
         (set_fs (base.delete (d ++ ["b-1.0.rpm"]) (fs s1)) s1))).
  assert (Hrepo : delete_in_repo cwd opts dm r st = (Ok tt, final)).
  { unfold delete_in_repo. rewrite (bind_ok _ _ _ _ _ Hrun).
    unfold bind at 1, gets. unfold OS.isdir in Hdir. fold d in Hdir.
    unfold OS.path_exists. fold d. rewrite Hfs.
    destruct (OS.node_at (fs st) d) as [[?|]|] eqn:Hd; try discriminate.
    unfold bind at 1, OS.listdir. fold d. rewrite Hfs, Hd.
    apply Permutation_sym, Permutation_length_2_inv in Hls as [-> | ->];
      cbn [for_each].
    - rewrite (bind_ok _ _ _ _ _ (Hfa s1 Hs1a)).
      rewrite (bind_ok _ _ _ _ _ (Hfb s1 Hs1b)). reflexivity.
    - rewrite (bind_ok _ _ _ _ _ (Hfb s1 Hs1b)). fold final.
      assert (Hfin : fs final !! (d ++ ["a-1.0.rpm"]) = Some (File bytes_a)).
      { unfold final. cbn [fs emit set_fs].
        now rewrite lookup_delete_ne by exact Hab. }
      rewrite (bind_ok _ _ _ _ _ (Hfa final Hfin)). reflexivity. }
  exists final. split; [|split].
  - unfold delete_old_local_packages. rewrite Hen. cbn [for_each].
    fold dm. now rewrite (bind_ok _ _ _ _ _ Hrepo).
  - unfold final. cbn [fs emit set_fs]. now rewrite Hfs.
  - unfold final. cbn [trace emit set_fs]. now rewrite Htr, <- app_assoc.
Qed.

Lemma deletion_removes_exactly_stale_witness :
  (let synced :=
     run "/srv" opts_delete [repo_A] [pkg_a] metadata_ok decompress_ok
       (store_of tree_ab) in
   fst synced = Ok tt
   /\ map_to_list (fs (snd synced))
      = map_to_list (base.delete ["srv"; "A"; "b-1.0.rpm"] tree_ab)
   /\ trace (snd synced)
      = [EvUnlink "/srv/A/b-1.0.rpm";
         EvInfo "[DELETED] %s" "/srv/A/b-1.0.rpm"])
  /\ exists st',
       delete_old_local_packages "/srv" opts_delete [repo_A] [pkg_a]
         (store_of tree_ab) = (Ok tt, st')
       /\ fs st' = base.delete ["srv"; "A"; "b-1.0.rpm"] tree_ab
       /\ trace st'
          = [EvUnlink "/srv/A/b-1.0.rpm";
             EvInfo "[DELETED] %s" "/srv/A/b-1.0.rpm"].
Proof.
  split; [vm_compute; repeat split; reflexivity|].
  apply (deletion_removes_exactly_stale "/srv" opts_delete [repo_A] repo_A
           [pkg_a] (store_of tree_ab) "bytes of a" "bytes of b").
  - reflexivity.
  - reflexivity.
  - vm_compute. apply perm_swap.
  - reflexivity.
  - reflexivity.
  - discriminate.
  - intros p Hp. apply list_elem_of_singleton in Hp. subst p.
    split; reflexivity.
Defined.

(** C2 (the code departs from it).  The deletion pass that
    [download_packages] runs for repository [A], with the candidate set of
    [A] as the packages to keep, walks the target directory of every
    enabled repository: it unlinks [/srv/B/b-1.0.rpm], a package that
    repository [B] still publishes. *)
Theorem deletion_pass_reaches_other_repositories :
  let sack := [pkg_a; pkg_b] in
  let keep := get_pkglist opts_delete sack repo_A in
  let after :=
    snd (delete_old_local_packages "/srv" opts_delete [repo_A; repo_B] keep
           (store_of tree_AB)) in
  let synced :=
    snd (download_packages "/srv" opts_delete [repo_A; repo_B] sack repo_A
           (store_of tree_AB)) in
  keep = [pkg_a]
  /\ get_pkglist opts_delete sack repo_B = [pkg_b]
  /\ tree_AB !! ["srv"; "B"; "b-1.0.rpm"] = Some (File "bytes of b")
  /\ fs after !! ["srv"; "B"; "b-1.0.rpm"] = None
  /\ trace after = [EvUnlink "/srv/B/b-1.0.rpm";
                    EvInfo "[DELETED] %s" "/srv/B/b-1.0.rpm"]
  /\ fs synced !! ["srv"; "B"; "b-1.0.rpm"] = None.
Proof. vm_compute. repeat split; reflexivity. Qed.

(** C3 (the code departs from it).  Two full runs with [--delete] over
    the enabled repositories [A] and [B], against an unchanged index and
    starting from an empty tree: both complete; after the first run the
    package of [A] is gone again, removed by the deletion pass of [B]; the
    second run fetches both packages anew and ends where the first did. *)
Theorem second_run_fetches_again :
  let sync :=
    run "/srv" opts_delete [repo_A; repo_B] [pkg_a; pkg_b]
      metadata_ok decompress_ok in
  let first := sync empty_store in
  let second := sync (mkState (fs (snd first)) ∅ false []) in
  fst first = Ok tt
  /\ fst second = Ok tt
  /\ fs (snd first) !! ["srv"; "A"; "a-1.0.rpm"] = None
  /\ fs (snd first) !! ["srv"; "B"; "b-1.0.rpm"] = Some (File "bytes of b")
  /\ trace (snd second)
     = [EvFetch pkg_a "/srv/A";
        EvUnlink "/srv/B/b-1.0.rpm";
        EvInfo "[DELETED] %s" "/srv/B/b-1.0.rpm";
        EvFetch pkg_b "/srv/B";
        EvUnlink "/srv/A/a-1.0.rpm";
        EvInfo "[DELETED] %s" "/srv/A/a-1.0.rpm"]
  /\ map_to_list (fs (snd second)) = map_to_list (fs (snd first)).
Proof. vm_compute. repeat split; reflexivity. Qed.

(** C4, the claim as stated fails.  With [--download-metadata] and a
    client library whose metadata download raises, [run] raises that
    error: nothing is fetched for the repository and nothing is logged,
    although the same run with a working library fetches its package.
    The same holds for [--downloadcomps] and a failing decompression. *)
Lemma optional_stage_failure_aborts_run :
  let broken :=
    run "/srv" opts_metadata [repo_A] [pkg_a] metadata_fails decompress_ok
      empty_store in
  let working :=
    run "/srv" opts_metadata [repo_A] [pkg_a] metadata_ok decompress_ok
      empty_store in
  let broken_comps :=
    run "/srv" opts_comps [repo_C] [pkg_c] metadata_ok decompress_fails
      empty_store in
  fst broken = Raise (RepoError "A")
  /\ trace (snd broken) = []
  /\ map_to_list (fs (snd broken)) = []
  /\ fst working = Ok tt
  /\ trace (snd working) = [EvFetch pkg_a "/srv/A"]
  /\ fst broken_comps = Raise (RepoError "C")
  /\ trace (snd broken_comps) = []
  /\ map_to_list (fs (snd broken_comps)) = [].
Proof. vm_compute. repeat split; reflexivity. Qed.

(** C4, as amended.  [run] has no handler around the optional stages: when
    the repositories before [r] were synchronised and the metadata stage
    or the comps stage of [r] raises, [run] raises the same exception with
    the store that stage left, so that neither [r] nor a later repository
    reaches its package stage; the plugin logs nothing about it. *)
Theorem optional_stage_failure_propagates (cwd : string) (opts : Opt.t)
    (base_repos : list Repo.t) (sack : list Package.t)
    (downloadMetadata : Repo.t -> string -> FS -> option FS)
    (decompress : string -> string -> FS -> option FS)
    (before later : list Repo.t) (r : Repo.t) (st s s' : State) (e : Exn) :
  let sync := sync_repo cwd opts base_repos sack downloadMetadata decompress in
  let metadata_stage :=
    when (Opt.download_metadata opts)
      (_ <- download_metadata cwd opts downloadMetadata r ;; ret tt) in
  let comps_stage :=
    when (Opt.downloadcomps opts) (getcomps cwd opts decompress r) in
  iter_enabled base_repos = before ++ r :: later ->
  for_each before sync (set_keepcache true st) = (Ok tt, s) ->
  metadata_stage s = (Raise e, s')
  \/ (exists s0, metadata_stage s = (Ok tt, s0)
                 /\ comps_stage s0 = (Raise e, s')) ->
  run cwd opts base_repos sack downloadMetadata decompress st = (Raise e, s')
  /\ trace s' = trace s.
Proof.
  intros sync metadata_stage comps_stage Hen Hbefore Hfail.
  assert (Hmt : forall x, trace (snd (metadata_stage x)) = trace x).
  { intros x. unfold metadata_stage, when.
    destruct (Opt.download_metadata opts); [|reflexivity].
    unfold download_metadata.
    destruct (repo_target_run cwd opts r x) as (x1 & Hx & _ & Htr & _).
    unfold bind at 1. rewrite (bind_ok _ _ _ _ _ Hx).
    pose proof (library_call_trace (RepoError (Repo.id r))
                  (downloadMetadata r (target_of cwd opts x r)) x1) as Hl.
    unfold bind.
    destruct (library_call _ _ x1) as [[[]|?] x2]; cbn [snd ret] in *;
      congruence. }
  assert (Hct : forall x e' x', comps_stage x = (Raise e', x') ->
                                trace x' = trace x).
  { intros x e' x'. unfold comps_stage, when, getcomps.
    destruct (Opt.downloadcomps opts); [|discriminate].
    destruct (Repo.comps_fn r) as [fn|]; [|discriminate].
    destruct (truthy fn); [|discriminate].
    destruct (repo_target_run cwd opts r x) as (x1 & Hx & _ & Htr & _).
    rewrite (bind_ok _ _ _ _ _ Hx).
    pose proof (library_call_trace (RepoError (Repo.id r))
                  (decompress fn (join (target_of cwd opts x r) "comps.xml"))
                  x1) as Hl.
    unfold bind, modify.
    destruct (library_call _ _ x1) as [[[]|?] x2]; cbn [snd] in *;
      [discriminate|].
    intros H. injection H as _ <-. congruence. }
  assert (Hsync : sync r s = (Raise e, s')).
  { unfold sync, sync_repo. fold metadata_stage. fold comps_stage.
    destruct Hfail as [Hm | (s0 & Hm & Hc)].
    - now apply bind_raise.
    - rewrite (bind_ok _ _ _ _ _ Hm). now apply bind_raise. }
  split.
  - unfold run. unfold bind at 1, modify. rewrite Hen.
    now apply (for_each_raise sync before later r _ s s' e).
  - destruct Hfail as [Hm | (s0 & Hm & Hc)].
    + specialize (Hmt s). rewrite Hm in Hmt. exact Hmt.
    + specialize (Hmt s). rewrite Hm in Hmt. cbn [snd] in Hmt.
      rewrite <- Hmt. now apply (Hct s0 e s').
Qed.

Lemma optional_stage_failure_propagates_witness :
  run "/srv" opts_metadata [repo_A] [pkg_a] metadata_fails decompress_ok
    empty_store
  = (Raise (RepoError "A"),
     mkState ∅ {["A" := "/srv/A"]} true [])
  /\ trace (mkState ∅ {["A" := "/srv/A"]} true [])
     = trace (set_keepcache true empty_store).
Proof.
  apply (optional_stage_failure_propagates "/srv" opts_metadata [repo_A]
           [pkg_a] metadata_fails decompress_ok [] [] repo_A empty_store
           (set_keepcache true empty_store)
           (mkState ∅ {["A" := "/srv/A"]} true []) (RepoError "A")).
  - reflexivity.
  - reflexivity.
  - left. vm_compute. reflexivity.
Defined.

(** C5, the claim as stated fails.  For the index
    {foo-1.0.x86_64, foo-2.0.noarch} with [--newest-only] and
    [--arch x86_64], [get_pkglist] returns foo-1.0.x86_64: the reduction to
    the newest packages is per name and architecture and keeps both
    packages, and the architecture restriction then keeps the x86_64 one. *)
Lemma get_pkglist_keeps_older_x86_64 :
  Dnf.latest [foo_x86_64 1; foo_noarch 2] = [foo_x86_64 1; foo_noarch 2]
  /\ get_pkglist opts_newest_x86_64 [foo_x86_64 1; foo_noarch 2] repo_A
     = [foo_x86_64 1].
Proof. split; reflexivity. Qed.

(** C5, as amended.  [get_pkglist] reduces the available packages of the
    repository to the newest per name and architecture first (when asked
    to) and restricts the architectures afterwards, [--source] taking
    precedence over the list of [--arch]; for the index
    {foo-1.0.x86_64, foo-2.0.noarch} with [--newest-only] and
    [--arch x86_64] the result is {foo-1.0.x86_64}, whichever of the two
    versions is the newer one. *)
Theorem get_pkglist_filter_order (opts : Opt.t) (sack : list Package.t)
    (r : Repo.t) (v1 v2 : nat) :
  let available := Dnf.filterm_reponame (Repo.id r) (Dnf.available sack) in
  let reduced :=
    if Opt.newest_only opts then Dnf.latest available else available in
  get_pkglist opts sack r
  = (if Opt.source opts then Dnf.filterm_arch ["src"] reduced
     else match Opt.arches opts with
          | [] => reduced
          | _ :: _ => Dnf.filterm_arch (Opt.arches opts) reduced
          end)
  /\ get_pkglist opts_newest_x86_64 [foo_x86_64 v1; foo_noarch v2] repo_A
     = [foo_x86_64 v1].
Proof.
  split.
  - unfold get_pkglist. destruct (Opt.source opts); [reflexivity|].
    destruct (Opt.arches opts); reflexivity.
  - unfold get_pkglist, Dnf.latest, Dnf.filterm_arch, Dnf.filterm_reponame,
      Dnf.available, Dnf.same_name_arch, foo_x86_64, foo_noarch.
    cbn. rewrite !Nat.leb_refl. reflexivity.
Qed.

(** C9.  When [configure] completes, whatever the options and whatever
    [enable_source_repos] switched on, every enabled repository has
    [deltarpm] set to [False] and its metadata cache expired. *)
Theorem configure_expires_and_disables_deltarpm (opts : Opt.t)
    (enable_source_repos : list Repo.t -> list Repo.t) (c c' : Cli)
    (r : Repo.t) :
  configure opts enable_source_repos c = (Ok tt, c') ->
  r ∈ repos c' ->
  Repo.enabled r = true ->
  Repo.deltarpm r = false /\ Repo.expired r = true.
Proof.
  unfold configure. intros H Hr Hen.
  apply bind_ok_inv in H as (_ & c1 & _ & H).
  apply bind_ok_inv in H as (_ & c2 & _ & H).
  apply bind_ok_inv in H as (_ & c3 & _ & H).
  unfold modify in H. injection H as <-. cbn [repos set_repos] in Hr.
  apply list_elem_of_In, in_map_iff in Hr as (r0 & <- & _).
  destruct (Repo.enabled r0) eqn:E0; [split; reflexivity | congruence].
Qed.

Lemma configure_expires_and_disables_deltarpm_witness :
  configure opts_two_repos (fun rs => rs) cli_before = (Ok tt, cli_after)
  /\ Repo.deltarpm (Repo.mk "updates" true false true "/var/cache/updates" None)
     = false
  /\ Repo.expired (Repo.mk "updates" true false true "/var/cache/updates" None)
     = true.
Proof.
  split; [reflexivity|].
  apply (configure_expires_and_disables_deltarpm opts_two_repos
           (fun rs => rs) cli_before cli_after).
  - reflexivity.
  - left.
  - reflexivity.
Defined.




(** The guard of [pkg_download_path] compares strings, not paths: a
    destination in a sibling directory whose name begins with the name of
    the target directory is returned, although the target directory is no
    path prefix of it. *)
Example pkg_download_path_sibling_directory :
  fst (pkg_download_path "/srv" opts_plain
         (at_location repo_A "../AA/x-1.0.rpm") empty_store)
  = Ok "/srv/AA/x-1.0.rpm"
  /\ startswith "/srv/AA/x-1.0.rpm" "/srv/A" = true
  /\ strict_path_prefix "/srv/A" "/srv/AA/x-1.0.rpm" = false.
Proof. vm_compute. repeat split; reflexivity. Qed.

(** C8.  When [download_packages] completes, every package it classified
    as locally available went through the local path of this run and not
    through the transfer layer.  It is not among the packages handed to
    the download and the run records no fetch of it.  The source of the
    copy is [join(pkg.repo.pkgdir, pkg.location.lstrip("/"))], which lies
    below [pkg.repo.pkgdir] whatever slashes the location starts with.
    In a store [s1] that the run reached from the initial one,
    [pkg_download_path] returned the destination, the parent directory of
    the destination was created (it is a directory from then on), and
    [shutil.copy] copied the source into that directory, where the copy
    has the bytes of the source; the trace of the run holds this copy,
    and without [--delete] the copy is still there when the run
    returns. *)
Theorem local_packages_are_copied (cwd : string) (opts : Opt.t)
    (base_repos : list Repo.t) (sack : list Package.t) (r : Repo.t)
    (st st' : State) (p : Package.t) :
  download_packages cwd opts base_repos sack r st = (Ok tt, st') ->
  p ∈ snd (Dnf._select_remote_pkgs (get_pkglist opts sack r)) ->
  let dest :=
    normpath (join (target_of cwd opts st (Package.repo p))
                (Package.location p)) in
  let src :=
    join (Repo.pkgdir (Package.repo p)) (lstrip_sep (Package.location p)) in
  let copied := join (dirname dest) (basename src) in
  (p ∉ fst (Dnf._select_remote_pkgs (get_pkglist opts sack r)))
  /\ (exists new,
        trace st' = trace st ++ new /\ forall d, EvFetch p d ∉ new)
  /\ startswith src (Repo.pkgdir (Package.repo p)) = true
  /\ exists (s1 s_path s_dir s2 : State) (bytes : string)
        (pre post : list Event),
       later_store cwd opts st s1
       /\ trace s1 = trace st ++ pre
       /\ pkg_download_path cwd opts p s1 = (Ok dest, s_path)
       /\ OS.ensure_dir cwd (dirname dest) s_path = (Ok tt, s_dir)
       /\ OS.isdir cwd (fs s_dir) (dirname dest) = true
       /\ OS.copy cwd src (dirname dest) s_dir = (Ok tt, s2)
       /\ OS.node_at (fs s_dir) (OS.resolve cwd src) = Some (File bytes)
       /\ OS.node_at (fs s2) (OS.resolve cwd copied) = Some (File bytes)
       /\ trace s2 = trace st ++ pre ++ [EvCopy src copied]
       /\ trace st' = trace st ++ pre ++ EvCopy src copied :: post
       /\ (Opt.delete opts = false ->
           OS.path_exists cwd (fs st') copied = true).
Proof.
  intros Hrun Hp dest src copied.
  assert (Hnot : p ∉ fst (Dnf._select_remote_pkgs (get_pkglist opts sack r))).
  { cbn [Dnf._select_remote_pkgs fst snd] in *. intros Hremote.
    apply list_elem_of_In, filter_In in Hp as [_ Hp].
    apply list_elem_of_In, filter_In in Hremote as [_ Hremote].
    destruct (Package.is_local p); discriminate. }
  split; [exact Hnot|]. split.
  { pose proof (download_packages_fetches cwd opts base_repos sack r st) as H.
    rewrite Hrun in H. destruct H as (new & Hnew & Hall).
    exists new. split; [exact Hnew|]. intros d Hin.
    rewrite Forall_forall in Hall. apply Hall in Hin. now apply Hnot. }
  split; [apply join_keeps_front, lstrip_sep_relative|].
  clear Hnot. unfold download_packages in Hrun.
  destruct (Dnf._select_remote_pkgs (get_pkglist opts sack r))
    as [remote local]. cbn [snd] in Hp.
  apply bind_ok_inv in Hrun as ([] & sa & Hremote & Hrun).
  apply bind_ok_inv in Hrun as ([] & sb & Hloop & Hdelete).
  (* the remote packages come first *)
  pose proof (remote_stage_later cwd opts remote st) as Ha.
  rewrite Hremote in Ha. cbn [snd] in Ha.
  (* the turn of [p] in the loop over the local packages *)
  assert (Hne : bool_decide (local = []) = false).
  { apply bool_decide_eq_false. intros E. rewrite E in Hp.
    now apply elem_of_nil in Hp. }
  rewrite Hne in Hloop. cbn [negb when] in Hloop.
  destruct (for_each_ok_between (later_store cwd opts) _ _ _ _ _
              (later_refl cwd opts) (later_trans cwd opts)
              (fun q s => copy_local_pkg_later cwd opts q s) Hloop Hp)
    as (s1 & s2 & H1 & Hbody & H2).
  pose proof (later_trans _ _ _ _ _ Ha H1) as Hst1.
  unfold copy_local_pkg in Hbody.
  apply bind_ok_inv in Hbody as (d & s_path & Hpath & Hbody).
  apply bind_ok_inv in Hbody as ([] & s_dir & Hdir & Hcopy).
  assert (Hd : d = dest /\ trace s_path = trace s1).
  { destruct (pkg_download_path_full cwd opts p s1)
      as (s1' & Hfull & _ & Htr & _).
    rewrite Hpath in Hfull. destruct Hst1 as (_ & _ & Htg).
    rewrite Htg in Hfull. fold dest in Hfull.
    destruct (startswith dest _); [|discriminate].
    injection Hfull as -> ->. auto. }
  destruct Hd as [-> Htr_path].
  destruct (ensure_dir_run _ _ _ _ Hdir) as (Hisdir & Htr_dir & _).
  destruct (copy_into_dir _ _ _ _ _ Hcopy Hisdir)
    as (bytes & Hsrc & Hdst & Htr2).
  fold src copied in Hcopy, Hsrc, Hdst, Htr2.
  (* the rest of the run *)
  assert (Hend : exists n, trace st' = trace sb ++ n).
  { unfold when in Hdelete. destruct (Opt.delete opts).
    - pose proof (delete_pass_grows cwd opts base_repos [] sb
                    (get_pkglist opts sack r) sb
                    (grows_refl [] sb)) as (n & Hn & _).
      rewrite Hdelete in Hn. now exists n.
    - cbn [ret] in Hdelete. injection Hdelete as <-.
      exists []. now rewrite app_nil_r. }
  destruct Hst1 as (Hk1 & (pre & Hpre) & Htg1).
  destruct H2 as (Hk2 & (n2 & Hn2) & _).
  destruct Hend as (n3 & Hn3).
  exists s1, s_path, s_dir, s2, bytes, pre, (n2 ++ n3).
  split; [split; [exact Hk1 | split; [now exists pre | exact Htg1]]|].
  split; [exact Hpre|]. split; [exact Hpath|]. split; [exact Hdir|].
  split; [exact Hisdir|]. split; [exact Hcopy|]. split; [exact Hsrc|].
  split; [exact Hdst|].
  assert (Htr_s2 : trace s2 = trace st ++ pre ++ [EvCopy src copied])
    by now rewrite Htr2, Htr_dir, Htr_path, Hpre, <- app_assoc.
  split; [exact Htr_s2|]. split.
  { rewrite Hn3, Hn2, Htr_s2. rewrite <- !app_assoc. reflexivity. }
  intros Hdel. rewrite Hdel in Hdelete. cbn [when ret] in Hdelete.
  injection Hdelete as <-.
  apply (tree_kept_exists cwd (fs s2)); [exact Hk2|].
  unfold OS.path_exists. now rewrite Hdst.
Qed.

Lemma local_packages_are_copied_witness :
  startswith "/mnt/L/srv/L/Packages/l-1.0.rpm" "/mnt/L" = true
  /\ (exists pre post,
        trace (snd (download_packages "/srv" opts_plain [repo_L]
                      [pkg_rooted] repo_L (store_of tree_rooted)))
        = trace (store_of tree_rooted) ++ pre
          ++ EvCopy "/mnt/L/srv/L/Packages/l-1.0.rpm"
               "/srv/L/Packages/l-1.0.rpm" :: post)
  /\ OS.path_exists "/srv"
       (fs (snd (download_packages "/srv" opts_plain [repo_L]
                   [pkg_rooted] repo_L (store_of tree_rooted))))
       "/srv/L/Packages/l-1.0.rpm" = true
  /\ fs (snd (download_packages "/srv" opts_plain [repo_L] [pkg_rooted]
                repo_L (store_of tree_rooted)))
       !! ["srv"; "L"; "Packages"; "l-1.0.rpm"]
     = Some (File "bytes of l")
  /\ fs (snd (download_packages "/srv" opts_plain [repo_L] [pkg_l] repo_L
                (store_of tree_L))) !! ["srv"; "L"; "Packages"; "l-1.0.rpm"]
     = Some (File "bytes of l").
Proof.
  destruct (local_packages_are_copied "/srv" opts_plain [repo_L] [pkg_rooted]
              repo_L (store_of tree_rooted)
              (snd (download_packages "/srv" opts_plain [repo_L]
                      [pkg_rooted] repo_L (store_of tree_rooted)))
              pkg_rooted)
    as (_ & _ & Hsrc & s1 & s_path & s_dir & s2 & bytes & pre & post
        & _ & _ & _ & _ & _ & _ & _ & _ & _ & Htrace & Hthere).
  - reflexivity.
  - left.
  - split; [exact Hsrc|]. split; [now exists pre, post|].
    split; [now apply Hthere|]. split; reflexivity.
Defined.

End Properties.

(* ===================================================================== *)
(** ** Further properties of the plugin *)
(* ===================================================================== *)

Module Coverage.
Import PyStr PosixPath Exec PathFacts ExecFacts OSFacts.
Import Reposync ReposyncFacts SyncFacts Scenario.

(** *** [repo_target] and [_pkgdir] *)

(** [repo_target] never raises and returns a non-empty path; it writes
    neither to the tree nor to the trace; and once it has answered for a
    repository, asking again gives the same path and leaves the store as
    it is: the answer is cached in [self._repo_target]. *)
Theorem repo_target_cached (cwd : string) (opts : Opt.t) (r : Repo.t)
    (st : State) :
  let st1 := snd (repo_target cwd opts r st) in
  exists target,
    repo_target cwd opts r st = (Ok target, st1)
    /\ truthy target = true
    /\ _repo_target st1 !! Repo.id r = Some target
    /\ repo_target cwd opts r st1 = (Ok target, st1)
    /\ fs st1 = fs st
    /\ trace st1 = trace st.
Proof.
  cbv zeta. unfold repo_target.
  set (fresh := _pkgdir cwd (destdir_or_download_path opts) (Repo.id r)).
  assert (Hf : truthy fresh = true) by apply normpath_truthy.
  assert (Hmiss : exists target,
    (Ok fresh,
     set_repo_target (<[Repo.id r := fresh]> (_repo_target st)) st)
    = (Ok target,
       set_repo_target (<[Repo.id r := fresh]> (_repo_target st)) st)
    /\ truthy target = true
    /\ <[Repo.id r := fresh]> (_repo_target st) !! Repo.id r = Some target
    /\ match <[Repo.id r := fresh]> (_repo_target st) !! Repo.id r with
       | Some t' =>
           if truthy t' then
             (Ok t',
              set_repo_target (<[Repo.id r := fresh]> (_repo_target st)) st)
           else
             (Ok fresh,
              set_repo_target
                (<[Repo.id r := fresh]>
                   (<[Repo.id r := fresh]> (_repo_target st))) st)
       | None =>
           (Ok fresh,
            set_repo_target
              (<[Repo.id r := fresh]>
                 (<[Repo.id r := fresh]> (_repo_target st))) st)
       end
       = (Ok target,
          set_repo_target (<[Repo.id r := fresh]> (_repo_target st)) st)
    /\ fs st = fs st /\ trace st = trace st).
  { exists fresh. rewrite lookup_insert_eq, Hf. auto 10. }
  destruct (_repo_target st !! Repo.id r) as [t|] eqn:E.
  - destruct (truthy t) eqn:Ht.
    + exists t. cbn [snd]. rewrite E, Ht. auto 10.
    + exact Hmiss.
  - exact Hmiss.
Qed.

(** With an absolute base directory ([--destdir] or [--download-path]) the
    directory computed by [_pkgdir] does not depend on the working
    directory of the process. *)
Theorem pkgdir_absolute_base (cwd cwd' intermediate target : string) :
  startswith intermediate "/" = true ->
  _pkgdir cwd intermediate target = _pkgdir cwd' intermediate target.
Proof.
  intros H. unfold _pkgdir, join3. now rewrite !(join_abs _ _ H).
Qed.

Lemma pkgdir_absolute_base_witness :
  _pkgdir "/home/user" "/srv/mirror" "fedora" = "/srv/mirror/fedora"
  /\ _pkgdir "/" "/srv/mirror" "fedora" = "/srv/mirror/fedora".
Proof.
  rewrite (pkgdir_absolute_base "/home/user" "/" "/srv/mirror" "fedora");
    split; reflexivity.
Defined.

(** *** [configure] *)

Lemma has_repo_select (i : string) (ids : list string) (rs : list Repo.t) :
  has_repo i (select_repos ids rs) = has_repo i rs.
Proof.
  unfold has_repo, select_repos. induction rs as [|r rs IH];
    [reflexivity|]. cbn [map existsb]. now rewrite IH.
Qed.

Lemma enable_select (i : string) (done : list string) (rs : list Repo.t) :
  enable i (select_repos done rs) = select_repos (done ++ [i]) rs.
Proof.
  unfold enable, select_repos. rewrite map_map. apply map_ext. intros r.
  rewrite existsb_app. cbn [existsb Repo.id set_enabled]. rewrite orb_false_r.
  destruct (String.eqb (Repo.id r) i); [|now rewrite orb_false_r].
  now rewrite orb_true_r.
Qed.

(** Enabling known repositories one after the other. *)
Lemma select_repos_nil (rs : list Repo.t) :
  select_repos [] rs = map (set_enabled false) rs.
Proof. reflexivity. Qed.

Lemma enable_known (ids done : list string) (rs : list Repo.t) (c : Cli) :
  (forall i, i ∈ ids -> has_repo i rs = true) ->
  for_each ids enable_one (set_repos (select_repos done rs) c)
  = (Ok tt, set_repos (select_repos (done ++ ids) rs) c).
Proof.
  revert done. induction ids as [|i ids IH]; intros done Hknown.
  - now rewrite app_nil_r.
  - cbn [for_each]. unfold bind, enable_one at 1. cbn [repos set_repos].
    rewrite has_repo_select, (Hknown i) by left.
    rewrite enable_select.
    change (set_repos (select_repos (done ++ [i]) rs)
              (set_repos (select_repos done rs) c))
      with (set_repos (select_repos (done ++ [i]) rs) c).
    rewrite IH by (intros j Hj; apply Hknown; now right).
    now rewrite <- app_assoc.
Qed.

(** With [--repo] naming only configured repositories (and without
    [--source]), [configure] completes; it switches on exactly the named
    repositories, expires their caches and turns their delta RPMs off,
    and leaves every other repository switched off and otherwise as it
    was. *)
Theorem configure_selects_named_repos (opts : Opt.t)
    (enable_source_repos : list Repo.t -> list Repo.t) (c : Cli) :
  Opt.repo opts <> [] ->
  Opt.source opts = false ->
  (forall i, i ∈ Opt.repo opts -> has_repo i (repos c) = true) ->
  configure opts enable_source_repos c
  = (Ok tt,
     mkCli true true
       (map (fun r => if Repo.enabled r then expire_no_deltarpm r else r)
          (select_repos (Opt.repo opts) (repos c))))
  /\ forall r,
       r ∈ repos (snd (configure opts enable_source_repos c)) ->
       (Repo.enabled r = true <-> Repo.id r ∈ Opt.repo opts).
Proof.
  intros Hne Hsrc Hknown.
  assert (Heq : configure opts enable_source_repos c
    = (Ok tt,
       mkCli true true
         (map (fun r => if Repo.enabled r then expire_no_deltarpm r else r)
            (select_repos (Opt.repo opts) (repos c))))).
  { unfold configure. rewrite Hsrc.
    rewrite (bool_decide_eq_false_2 _ Hne). cbn [negb when].
    unfold bind at 1, modify at 1.
    unfold bind at 1. unfold bind at 1, modify at 1.
    pose proof (enable_known (Opt.repo opts) [] (repos c)
                  (mkCli true true (repos c)) Hknown) as Hloop.
    cbn [app] in Hloop. rewrite select_repos_nil in Hloop.
    cbn [repos]. rewrite Hloop. reflexivity. }
  split; [exact Heq|]. rewrite Heq. cbn [snd repos]. intros r Hr.
  apply list_elem_of_In, in_map_iff in Hr as (r1 & <- & Hr1).
  unfold select_repos in Hr1. apply in_map_iff in Hr1 as (r0 & <- & _).
  cbn [Repo.enabled set_enabled].
  assert (Hin : existsb (String.eqb (Repo.id r0)) (Opt.repo opts) = true
                <-> Repo.id r0 ∈ Opt.repo opts).
  { rewrite existsb_exists, list_elem_of_In. split.
    - intros (i & Hi & E). apply String.eqb_eq in E. now subst.
    - intros H. exists (Repo.id r0). split; [exact H | apply String.eqb_refl]. }
  destruct (existsb (String.eqb (Repo.id r0)) (Opt.repo opts));
    cbn [Repo.enabled Repo.id expire_no_deltarpm set_enabled]; exact Hin.
Qed.

Lemma configure_selects_named_repos_witness :
  configure opts_two_repos (fun rs => rs) cli_before = (Ok tt, cli_after)
  /\ forall r,
       r ∈ repos (snd (configure opts_two_repos (fun rs => rs) cli_before)) ->
       (Repo.enabled r = true <-> Repo.id r ∈ ["updates"; "extras"]).
Proof.
  apply (configure_selects_named_repos opts_two_repos (fun rs => rs)
           cli_before).
  - discriminate.
  - reflexivity.
  - intros i Hi. repeat (apply elem_of_cons in Hi as [->|Hi]; [reflexivity|]).
    now apply elem_of_nil in Hi.
Defined.

(** An id given with [--repo] that no configured repository has makes
    [configure] raise [CliError] for the first such id.  By then all
    repositories are switched off except the known ones named before it,
    and no cache was expired and no delta RPM setting was changed. *)
Theorem configure_unknown_repo (opts : Opt.t)
    (enable_source_repos : list Repo.t -> list Repo.t) (c : Cli)
    (known rest : list string) (bad : string) :
  Opt.repo opts = known ++ bad :: rest ->
  (forall i, i ∈ known -> has_repo i (repos c) = true) ->
  has_repo bad (repos c) = false ->
  configure opts enable_source_repos c
  = (Raise (CliError bad), mkCli true true (select_repos known (repos c)))
  /\ map Repo.expired (select_repos known (repos c))
     = map Repo.expired (repos c)
  /\ map Repo.deltarpm (select_repos known (repos c))
     = map Repo.deltarpm (repos c).
Proof.
  intros Hrepo Hknown Hbad. split; [|split].
  - unfold configure. rewrite Hrepo.
    assert (Hne : known ++ bad :: rest <> []) by now destruct known.
    rewrite (bool_decide_eq_false_2 _ Hne). cbn [negb when].
    unfold bind at 1, modify at 1.
    apply bind_raise. unfold bind at 1, modify at 1. cbn [repos].
    pose proof (enable_known known [] (repos c)
                  (mkCli true true (repos c)) Hknown) as Hloop.
    cbn [app] in Hloop. rewrite select_repos_nil in Hloop.
    apply (for_each_raise enable_one known rest bad _ _ _ _ Hloop).
    unfold enable_one. cbn [repos set_repos].
    now rewrite has_repo_select, Hbad.
  - unfold select_repos. rewrite map_map. reflexivity.
  - unfold select_repos. rewrite map_map. reflexivity.
Qed.

Lemma configure_unknown_repo_witness :
  configure
    (Opt.mk [] false false false false "./" false
       ["updates"; "nightly"; "extras"] None)
    (fun rs => rs) cli_before
  = (Raise (CliError "nightly"),
     mkCli true true
       (select_repos ["updates"] [repo_updates; repo_extras; repo_testing]))
  /\ map Repo.expired
       (select_repos ["updates"] [repo_updates; repo_extras; repo_testing])
     = [false; false; false]
  /\ map Repo.deltarpm
       (select_repos ["updates"] [repo_updates; repo_extras; repo_testing])
     = [true; true; true].
Proof.
  apply (configure_unknown_repo
           (Opt.mk [] false false false false "./" false
              ["updates"; "nightly"; "extras"] None)
           (fun rs => rs) cli_before ["updates"] ["extras"] "nightly").
  - reflexivity.
  - intros i Hi. apply list_elem_of_singleton in Hi. now subst.
  - reflexivity.
Defined.

(** *** [get_pkglist] *)

Lemma same_name_arch_iff (p q : Package.t) :
  Dnf.same_name_arch p q = true
  <-> Package.name p = Package.name q /\ Package.arch p = Package.arch q.
Proof.
  unfold Dnf.same_name_arch. now rewrite andb_true_iff, !String.eqb_eq.
Qed.

Lemma elem_of_latest (q : list Package.t) (p : Package.t) :
  p ∈ Dnf.latest q
  <-> p ∈ q
      /\ forall p', p' ∈ q -> Package.name p' = Package.name p ->
                    Package.arch p' = Package.arch p ->
                    Package.evr p' <= Package.evr p.
Proof.
  unfold Dnf.latest. rewrite list_elem_of_In, filter_In, forallb_forall.
  rewrite <- list_elem_of_In. split; intros [Hp Hbest]; split; try exact Hp.
  - intros p' Hp' Hn Ha. apply list_elem_of_In in Hp'.
    specialize (Hbest p' Hp'). apply orb_true_iff in Hbest as [Hs|Hle].
    + apply negb_true_iff in Hs.
      assert (Dnf.same_name_arch p p' = true) by now apply same_name_arch_iff.
      congruence.
    + now apply Nat.leb_le.
  - intros p' Hp'. apply list_elem_of_In in Hp'.
    destruct (Dnf.same_name_arch p p') eqn:Hs; [|reflexivity].
    apply same_name_arch_iff in Hs as [Hn Ha]. cbn [negb orb].
    apply Nat.leb_le. now apply Hbest.
Qed.

Lemma elem_of_filterm_arch (a : list string) (q : list Package.t)
    (p : Package.t) :
  p ∈ Dnf.filterm_arch a q <-> p ∈ q /\ Package.arch p ∈ a.
Proof.
  unfold Dnf.filterm_arch.
  rewrite list_elem_of_In, filter_In, existsb_exists, <- list_elem_of_In.
  split; intros [Hp Ha]; split; try exact Hp.
  - destruct Ha as (x & Hx & E). apply String.eqb_eq in E. subst x.
    now apply list_elem_of_In.
  - exists (Package.arch p). split; [now apply list_elem_of_In|].
    apply String.eqb_refl.
Qed.

Lemma elem_of_available_of (i : string) (sack : list Package.t)
    (p : Package.t) :
  p ∈ Dnf.filterm_reponame i (Dnf.available sack)
  <-> p ∈ sack /\ Package.reponame p = i /\ i <> Dnf.SYSTEM_REPO_NAME.
Proof.
  unfold Dnf.filterm_reponame, Dnf.available.
  rewrite list_elem_of_In, !filter_In, <- list_elem_of_In.
  rewrite String.eqb_eq, negb_true_iff, String.eqb_neq.
  split; [intros [[Hp Hs] Hi] | intros (Hp & Hi & Hs)];
    subst; auto.
Qed.

(** The packages [get_pkglist] returns for a repository are exactly the
    packages of the sack that belong to that repository (never the
    installed ones), that have no newer package of the same name and
    architecture in the repository when [--newest-only] is given, and
    whose architecture is [src] under [--source] or else one of [--arch]
    when architectures are given. *)
Theorem get_pkglist_members (opts : Opt.t) (sack : list Package.t)
    (r : Repo.t) (p : Package.t) :
  p ∈ get_pkglist opts sack r
  <-> p ∈ sack
      /\ Package.reponame p = Repo.id r
      /\ Repo.id r <> Dnf.SYSTEM_REPO_NAME
      /\ (Opt.newest_only opts = true ->
          forall q, q ∈ sack -> Package.reponame q = Repo.id r ->
                    Package.name q = Package.name p ->
                    Package.arch q = Package.arch p ->
                    Package.evr q <= Package.evr p)
      /\ (if Opt.source opts then Package.arch p = "src"
          else Opt.arches opts = [] \/ Package.arch p ∈ Opt.arches opts).
Proof.
  unfold get_pkglist.
  set (avail := Dnf.filterm_reponame (Repo.id r) (Dnf.available sack)).
  set (reduced := if Opt.newest_only opts then Dnf.latest avail else avail).
  assert (Hred : p ∈ reduced
    <-> p ∈ sack /\ Package.reponame p = Repo.id r
        /\ Repo.id r <> Dnf.SYSTEM_REPO_NAME
        /\ (Opt.newest_only opts = true ->
            forall q, q ∈ sack -> Package.reponame q = Repo.id r ->
                      Package.name q = Package.name p ->
                      Package.arch q = Package.arch p ->
                      Package.evr q <= Package.evr p)).
  { unfold reduced. destruct (Opt.newest_only opts).
    - rewrite elem_of_latest. unfold avail. rewrite elem_of_available_of.
      split.
      + intros [(Hp & Hi & Hs) Hbest]. repeat split; try assumption.
        intros _ q Hq Hqi. apply Hbest. now apply elem_of_available_of.
      + intros (Hp & Hi & Hs & Hbest). repeat split; try assumption.
        intros q Hq. apply elem_of_available_of in Hq as (Hq & Hqi & _).
        now apply Hbest.
    - unfold avail. rewrite elem_of_available_of.
      split; [intros (? & ? & ?) | intros (? & ? & ? & _)];
        repeat split; try assumption. discriminate. }
  destruct (Opt.source opts).
  - rewrite elem_of_filterm_arch, Hred, list_elem_of_singleton. tauto.
  - destruct (Opt.arches opts) as [|a arches] eqn:Ea.
    + cbn [negb]. rewrite Hred. tauto.
    + rewrite (bool_decide_eq_false_2 (a :: arches = [])) by discriminate.
      cbn [negb]. rewrite elem_of_filterm_arch, Hred.
      split; [intros [? ?] | intros (? & ? & ? & ? & [?|?])];
        try discriminate; tauto.
Qed.

Lemma filter_comm {A} (f g : A -> bool) (l : list A) :
  List.filter f (List.filter g l) = List.filter g (List.filter f l).
Proof.
  induction l as [|x l IH]; [reflexivity|]. cbn [List.filter].
  destruct (g x) eqn:Hg, (f x) eqn:Hf; cbn [List.filter];
    rewrite ?Hg, ?Hf, IH; reflexivity.
Qed.

(** The newest packages of one architecture do not depend on the packages
    of other architectures. *)
Lemma latest_filterm_arch (a : list string) (q : list Package.t) :
  Dnf.latest (Dnf.filterm_arch a q) = Dnf.filterm_arch a (Dnf.latest q).
Proof.
  unfold Dnf.latest, Dnf.filterm_arch.
  set (P := fun p : Package.t => existsb (String.eqb (Package.arch p)) a).
  rewrite (filter_comm P). apply filter_ext_in. intros p Hp.
  apply filter_In in Hp as [_ HP].
  induction q as [|p' q IH]; [reflexivity|]. cbn [List.filter forallb].
  destruct (P p') eqn:HP'; cbn [forallb]; rewrite IH; [reflexivity|].
  destruct (Dnf.same_name_arch p p') eqn:Hs; [|reflexivity].
  apply same_name_arch_iff in Hs as [_ Ha]. unfold P in HP, HP'.
  rewrite Ha in HP. congruence.
Qed.

(** The order of the two reductions in [get_pkglist] cannot be observed:
    restricting the architectures first and reducing to the newest
    packages afterwards gives the same list. *)
Theorem get_pkglist_order_irrelevant (opts : Opt.t) (sack : list Package.t)
    (r : Repo.t) :
  let available := Dnf.filterm_reponame (Repo.id r) (Dnf.available sack) in
  let restricted :=
    if Opt.source opts then Dnf.filterm_arch ["src"] available
    else match Opt.arches opts with
         | [] => available
         | _ :: _ => Dnf.filterm_arch (Opt.arches opts) available
         end in
  get_pkglist opts sack r
  = if Opt.newest_only opts then Dnf.latest restricted else restricted.
Proof.
  cbv zeta. unfold get_pkglist.
  destruct (Opt.newest_only opts), (Opt.source opts);
    try reflexivity; try (now rewrite latest_filterm_arch).
  - destruct (Opt.arches opts) as [|a arches]; [reflexivity|].
    rewrite (bool_decide_eq_false_2 (a :: arches = [])) by discriminate.
    cbn [negb]. now rewrite latest_filterm_arch.
  - destruct (Opt.arches opts) as [|a arches]; [reflexivity|].
    now rewrite (bool_decide_eq_false_2 (a :: arches = [])) by discriminate.
Qed.

(** *** [download_packages] and [run] *)

(** Without [--delete] the synchronisation of a repository only adds to
    the tree: whether it completes or raises, every entry that was there
    is still there (its bytes may have been replaced), and every
    directory is still a directory. *)
Theorem sync_without_delete_keeps_tree (cwd : string) (opts : Opt.t)
    (base_repos : list Repo.t) (sack : list Package.t) (r : Repo.t)
    (st : State) :
  Opt.delete opts = false ->
  tree_kept (fs st)
    (fs (snd (download_packages cwd opts base_repos sack r st))).
Proof.
  intros Hdel. unfold download_packages.
  destruct (Dnf._select_remote_pkgs (get_pkglist opts sack r))
    as [remote local].
  set (I := fun s : State => tree_kept (fs st) (fs s)).
  assert (Hstep : forall s s', I s -> tree_kept (fs s) (fs s') -> I s').
  { intros s s' Hs Hss. exact (tree_kept_trans _ _ _ Hs Hss). }
  assert (Hsame : forall s s', I s -> fs s' = fs s -> I s').
  { intros s s' Hs E. unfold I. now rewrite E. }
  change (I (snd
    ((when (negb (bool_decide (remote = [])))
        (payloads <- comprehension remote
                       (fun p => path <- pkg_download_path cwd opts p ;;
                                 ret (new_payload p path)) ;;
         Dnf._download_remote_payloads cwd (_target_params cwd) payloads) ;;
      when (negb (bool_decide (local = [])))
        (for_each local (copy_local_pkg cwd opts)) ;;
      when (Opt.delete opts)
        (delete_old_local_packages cwd opts base_repos
           (get_pkglist opts sack r))) st))).
  apply bind_preserves.
  - unfold when. destruct (negb (bool_decide (remote = [])));
      [|apply tree_kept_refl].
    apply bind_preserves.
    + apply comprehension_preserves; [|apply tree_kept_refl].
      intros q s _ Hs. apply bind_preserves.
      * apply (Hsame s); [exact Hs | apply pkg_download_path_fs].
      * intros path s1 _ Hs1. exact Hs1.
    + intros payloads s1 _ Hs1. unfold Dnf._download_remote_payloads.
      apply bind_preserves.
      * apply comprehension_preserves; [|exact Hs1].
        intros pl s _ Hs. unfold _target_params. apply bind_preserves.
        -- apply (Hstep s); [exact Hs | apply ensure_dir_tree_kept].
        -- intros _ s2 _ Hs2. exact Hs2.
      * intros targets s2 _ Hs2. apply for_each_preserves; [|exact Hs2].
        intros t s _ Hs. apply (Hstep s); [exact Hs | apply fetch_tree_kept].
  - intros _ s1 _ Hs1. apply bind_preserves.
    + unfold when. destruct (negb (bool_decide (local = []))); [|exact Hs1].
      apply for_each_preserves; [|exact Hs1].
      intros p s _ Hs. unfold copy_local_pkg. apply bind_preserves.
      * apply (Hsame s); [exact Hs | apply pkg_download_path_fs].
      * intros dest s2 _ Hs2. apply bind_preserves.
        -- apply (Hstep s2); [exact Hs2 | apply ensure_dir_tree_kept].
        -- intros _ s3 _ Hs3.
           apply (Hstep s3); [exact Hs3 | apply copy_tree_kept].
    + intros _ s2 _ Hs2. rewrite Hdel. exact Hs2.
Qed.

Lemma sync_without_delete_keeps_tree_witness :
  tree_kept tree_AB
    (fs (snd (download_packages "/srv" opts_plain [repo_A; repo_B]
                [pkg_a; pkg_b] repo_A (store_of tree_AB)))).
Proof.
  apply (sync_without_delete_keeps_tree "/srv" opts_plain [repo_A; repo_B]
           [pkg_a; pkg_b] repo_A (store_of tree_AB)).
  reflexivity.
Defined.

(** Building the payloads of a list of packages: either every location
    is accepted, or the error of the first one that is not comes out; the
    tree and the trace are the same afterwards. *)
Lemma payloads_checked (cwd : string) (opts : Opt.t) (l : list Package.t)
    (s : State) :
  let build := fun q => path <- pkg_download_path cwd opts q ;;
                        ret (new_payload q path) in
  let accepted := fun q =>
    startswith
      (normpath (join (target_of cwd opts s (Package.repo q))
                   (Package.location q)))
      (target_of cwd opts s (Package.repo q)) in
  exists res s',
    comprehension l build s = (res, s')
    /\ fs s' = fs s /\ trace s' = trace s
    /\ (forall r, target_of cwd opts s' r = target_of cwd opts s r)
    /\ match res with
       | Ok _ => forall q, q ∈ l -> accepted q = true
       | Raise e =>
           exists q, q ∈ l /\ accepted q = false
             /\ e = DnfError
                      (normpath (join (target_of cwd opts s (Package.repo q))
                                   (Package.location q)))
                      (target_of cwd opts s (Package.repo q))
       end.
Proof.
  cbv zeta. revert s. induction l as [|x l IH]; intros s.
  - exists (Ok []), s. cbn [comprehension ret]. repeat split; auto.
    intros q Hq. now apply elem_of_nil in Hq.
  - destruct (pkg_download_path_full cwd opts x s)
      as (s1 & Hx & Hfs & Htr & Htg).
    cbn [comprehension].
    destruct (startswith _ _) eqn:Hacc.
    + destruct (IH s1) as (res & s' & Hrest & Hfs' & Htr' & Htg' & Hres).
      assert (Hb : (path <- pkg_download_path cwd opts x ;;
                    ret (new_payload x path)) s
                   = (Ok (new_payload x
                            (normpath
                               (join (target_of cwd opts s (Package.repo x))
                                  (Package.location x)))), s1)).
      { now rewrite (bind_ok _ _ _ _ _ Hx). }
      rewrite (bind_ok _ _ _ _ _ Hb).
      destruct res as [ys|e].
      * eexists (Ok _), s'. rewrite (bind_ok _ _ _ _ _ Hrest).
        cbn [ret]. split; [reflexivity|].
        split; [congruence|]. split; [congruence|].
        split; [intros r; now rewrite Htg', Htg|].
        intros q Hq. apply elem_of_cons in Hq as [->|Hq]; [exact Hacc|].
        specialize (Hres q Hq). now rewrite !Htg in Hres.
      * exists (Raise e), s'. rewrite (bind_raise _ _ _ _ _ Hrest).
        split; [reflexivity|]. split; [congruence|]. split; [congruence|].
        split; [intros r; now rewrite Htg', Htg|].
        destruct Hres as (q & Hq & Hrej & ->). rewrite !Htg in Hrej.
        exists q. rewrite !Htg. split; [now right | auto].
    + eexists (Raise _), s1.
      rewrite (bind_raise _ _ _ _ _ (bind_raise _ _ _ _ _ Hx)).
      split; [reflexivity|]. split; [exact Hfs|]. split; [exact Htr|].
      split; [exact Htg|]. exists x. split; [left | auto].
Qed.

(** The download paths of all remote packages are checked before the
    download starts.  When one remote package fails the test of
    [pkg_download_path], that is, when the normalised join of its target
    directory and its location does not begin with the target directory
    as a string, [download_packages] raises the error of
    [pkg_download_path] for a remote package that fails the test, and has
    neither fetched nor copied nor deleted nor logged anything.  (The
    test is on strings: a location that leaves the target directory for
    a sibling whose name begins with the name of the target directory
    passes it, see [pkg_download_path_sibling_directory].) *)
Theorem escaping_location_stops_sync (cwd : string) (opts : Opt.t)
    (base_repos : list Repo.t) (sack : list Package.t) (r : Repo.t)
    (st : State) (q : Package.t) :
  q ∈ fst (Dnf._select_remote_pkgs (get_pkglist opts sack r)) ->
  startswith
    (normpath (join (target_of cwd opts st (Package.repo q))
                 (Package.location q)))
    (target_of cwd opts st (Package.repo q)) = false ->
  exists q' st',
    let target := target_of cwd opts st (Package.repo q') in
    let dest := normpath (join target (Package.location q')) in
    q' ∈ fst (Dnf._select_remote_pkgs (get_pkglist opts sack r))
    /\ startswith dest target = false
    /\ download_packages cwd opts base_repos sack r st
       = (Raise (DnfError dest target), st')
    /\ fs st' = fs st /\ trace st' = trace st.
Proof.
  intros Hq Hesc. unfold download_packages.
  destruct (Dnf._select_remote_pkgs (get_pkglist opts sack r))
    as [remote local]. cbn [fst] in *.
  assert (Hne : bool_decide (remote = []) = false).
  { apply bool_decide_eq_false. intros E. rewrite E in Hq.
    now apply elem_of_nil in Hq. }
  rewrite Hne. cbn [negb when].
  destruct (payloads_checked cwd opts remote st)
    as (res & s' & Hc & Hfs & Htr & _ & Hres).
  destruct res as [ys|e].
  - specialize (Hres q Hq). congruence.
  - destruct Hres as (q' & Hq' & Hrej & ->). exists q', s'. cbv zeta.
    split; [exact Hq'|]. split; [exact Hrej|].
    split; [|auto]. apply bind_raise. now apply bind_raise.
Qed.

Lemma escaping_location_stops_sync_witness :
  (exists q' st',
     let target := target_of "/srv" opts_delete (store_of tree_ab)
                     (Package.repo q') in
     let dest := normpath (join target (Package.location q')) in
     q' ∈ fst (Dnf._select_remote_pkgs
                 (get_pkglist opts_delete
                    [pkg_a; at_location repo_A "../../etc/passwd"] repo_A))
     /\ startswith dest target = false
     /\ download_packages "/srv" opts_delete [repo_A]
          [pkg_a; at_location repo_A "../../etc/passwd"] repo_A
          (store_of tree_ab)
        = (Raise (DnfError dest target), st')
     /\ fs st' = fs (store_of tree_ab)
     /\ trace st' = trace (store_of tree_ab))
  /\ fst (download_packages "/srv" opts_delete [repo_A]
            [pkg_a; at_location repo_A "../../etc/passwd"] repo_A
            (store_of tree_ab))
     = Raise (DnfError "/etc/passwd" "/srv/A")
  /\ fst (download_packages "/srv" opts_plain [repo_A]
            [at_location repo_A "../AA/x-1.0.rpm"] repo_A empty_store)
     = Ok tt.
Proof.
  split; [|split; reflexivity].
  apply (escaping_location_stops_sync "/srv" opts_delete [repo_A]
           [pkg_a; at_location repo_A "../../etc/passwd"] repo_A
           (store_of tree_ab) (at_location repo_A "../../etc/passwd")).
  - right. left.
  - reflexivity.
Defined.

Lemma extends_trace_refl (P : Event -> Prop) (s : State) :
  extends_trace P s s.
Proof. exists []. split; [now rewrite app_nil_r | constructor]. Qed.

Lemma extends_trace_trans (P : Event -> Prop) (s1 s2 s3 : State) :
  extends_trace P s1 s2 -> extends_trace P s2 s3 -> extends_trace P s1 s3.
Proof.
  intros (n1 & E1 & H1) (n2 & E2 & H2). exists (n1 ++ n2).
  split; [now rewrite E2, E1, app_assoc | now apply Forall_app].
Qed.

Lemma extends_trace_weaken (P Q : Event -> Prop) (s1 s2 : State) :
  (forall ev, P ev -> Q ev) -> extends_trace P s1 s2 -> extends_trace Q s1 s2.
Proof.
  intros HPQ (n & E & H). exists n. split; [exact E|].
  eapply Forall_impl; eauto.
Qed.

Lemma extends_trace_same (P : Event -> Prop) (s1 s2 : State) :
  trace s2 = trace s1 -> extends_trace P s1 s2.
Proof. intros E. exists []. split; [now rewrite app_nil_r | constructor]. Qed.

(** [run] fetches nothing but packages that [get_pkglist] selects for an
    enabled repository and that are not locally available: the trace it
    adds, whether it completes or raises, holds no other fetch. *)
Theorem run_fetches_only_selected (cwd : string) (opts : Opt.t)
    (base_repos : list Repo.t) (sack : list Package.t)
    (downloadMetadata : Repo.t -> string -> FS -> option FS)
    (decompress : string -> string -> FS -> option FS) (st : State) :
  exists new,
    trace (snd (run cwd opts base_repos sack downloadMetadata decompress st))
    = trace st ++ new
    /\ forall q dest,
         EvFetch q dest ∈ new ->
         Package.is_local q = false
         /\ exists r, r ∈ iter_enabled base_repos
                      /\ q ∈ get_pkglist opts sack r.
Proof.
  set (P := fun ev =>
    match ev with
    | EvFetch q _ =>
        Package.is_local q = false
        /\ exists r, r ∈ iter_enabled base_repos
                     /\ q ∈ get_pkglist opts sack r
    | _ => True
    end).
  assert (H : extends_trace P st
    (snd (run cwd opts base_repos sack downloadMetadata decompress st))).
  { unfold run. unfold bind at 1, modify at 1.
    apply (for_each_preserves (fun s => extends_trace P st s));
      [|now apply extends_trace_same].
    intros r s Hr Hs. apply (extends_trace_trans P st s); [exact Hs|].
    unfold sync_repo.
    apply (bind_preserves (fun s' => extends_trace P s s')).
    - unfold when. destruct (Opt.download_metadata opts);
        [|apply extends_trace_refl].
      apply extends_trace_same. unfold download_metadata.
      destruct (repo_target_run cwd opts r s) as (s1 & Hx & _ & Htr & _).
      unfold bind at 1. rewrite (bind_ok _ _ _ _ _ Hx).
      pose proof (library_call_trace (RepoError (Repo.id r))
                    (downloadMetadata r (target_of cwd opts s r)) s1) as Hl.
      unfold bind.
      destruct (library_call _ _ s1) as [[[]|?] s2]; cbn [snd ret] in *;
        congruence.
    - intros _ s1 _ Hs1. apply (extends_trace_trans P s s1); [exact Hs1|].
      apply (bind_preserves (fun s' => extends_trace P s1 s')).
      + unfold when, getcomps. destruct (Opt.downloadcomps opts);
          [|apply extends_trace_refl].
        destruct (Repo.comps_fn r) as [fn|]; [|apply extends_trace_refl].
        destruct (truthy fn); [|apply extends_trace_refl].
        destruct (repo_target_run cwd opts r s1) as (s2 & Hx & _ & Htr & _).
        rewrite (bind_ok _ _ _ _ _ Hx).
        pose proof (library_call_trace (RepoError (Repo.id r))
                      (decompress fn
                         (join (target_of cwd opts s1 r) "comps.xml")) s2)
          as Hl.
        unfold bind, modify.
        destruct (library_call _ _ s2) as [[[]|?] s3]; cbn [snd] in *.
        * exists [EvInfo "comps.xml for repository %s saved" (Repo.id r)].
          cbn [trace emit]. split; [congruence|].
          constructor; [exact I | constructor].
        * apply extends_trace_same. congruence.
      + intros _ s2 _ Hs2. apply (extends_trace_trans P s1 s2); [exact Hs2|].
        eapply extends_trace_weaken;
          [|apply (download_packages_fetches cwd opts base_repos sack r s2)].
        intros [q d| | | |]; cbn; try exact (fun _ => I).
        cbn [Dnf._select_remote_pkgs fst]. intros Hq.
        apply list_elem_of_In, filter_In in Hq as [Hq Hloc].
        apply negb_true_iff in Hloc. split; [exact Hloc|].
        exists r. split; [exact Hr | now apply list_elem_of_In]. }
  destruct H as (new & Hnew & Hall). exists new. split; [exact Hnew|].
  intros q dest Hin. rewrite Forall_forall in Hall.
  exact (Hall _ Hin).
Qed.

(** *** [delete_old_local_packages] *)

Section Deletion.

Variable cwd : string.
Variable opts : Opt.t.
Variable base_repos : list Repo.t.
Variable dm : gmap (string * string) nat.

Lemma delete_if_old_listed (r : Repo.t) (f : string) (st0 s : State) :
  r ∈ iter_enabled base_repos ->
  is_Some (fs st0 !! (OS.resolve cwd (target_of cwd opts st0 r) ++ [f])) ->
  only_listed_removed cwd opts base_repos dm st0 s ->
  only_listed_removed cwd opts base_repos dm st0
    (snd (delete_if_old cwd dm r (target_of cwd opts st0 r) f s)).
Proof.
  intros Hr Hlisted [Ht Hk]. rewrite delete_if_old_eq. cbn [snd].
  set (t := target_of cwd opts st0 r) in *.
  destruct (endswith f ".rpm") eqn:Hf; [|now split].
  destruct (OS.isfile cwd (fs s) (join t f)) eqn:Hfile; [|now split].
  destruct (in_map dm (Repo.id r, f)) eqn:Hin; [now split|].
  cbn [andb negb]. unfold OS.isfile, OS.node_at in Hfile.
  set (k := OS.resolve cwd (join t f)) in *.
  assert (Hs : exists data, fs s !! k = Some (File data)).
  { destruct k as [|c k]; [discriminate|].
    destruct (fs s !! (c :: k)) as [[data|]|]; try discriminate. eauto. }
  destruct Hs as [data Hs].
  assert (H0 : fs st0 !! k = Some (File data)).
  { destruct (Hk k) as [E|[E _]]; congruence. }
  split.
  - intros r'. rewrite <- Ht. now apply target_of_ext.
  - intros k'. cbn [fs emit set_fs]. destruct (decide (k = k')) as [<-|Hne].
    + right. split; [apply lookup_delete_eq|].
      exists r, f, data. auto 10.
    + rewrite lookup_delete_ne by exact Hne. apply Hk.
Qed.

Lemma delete_in_repo_listed (r : Repo.t) (st0 s : State) :
  r ∈ iter_enabled base_repos ->
  only_listed_removed cwd opts base_repos dm st0 s ->
  only_listed_removed cwd opts base_repos dm st0
    (snd (delete_in_repo cwd opts dm r s)).
Proof.
  intros Hr [Ht Hk]. unfold delete_in_repo.
  destruct (repo_target_run cwd opts r s) as (s1 & Hrun & Hfs & _ & Htg).
  rewrite (bind_ok _ _ _ _ _ Hrun).
  assert (H1 : only_listed_removed cwd opts base_repos dm st0 s1).
  { split; [intros r'; now rewrite Htg | intros k; rewrite Hfs; apply Hk]. }
  rewrite Ht. unfold bind at 1, gets.
  destruct (OS.path_exists cwd (fs s1) (target_of cwd opts st0 r));
    [|exact H1].
  apply bind_preserves.
  - unfold OS.listdir.
    destruct (OS.node_at (fs s1) _) as [[?|]|]; exact H1.
  - intros l s2 Hl _. unfold OS.listdir in Hl.
    assert (s2 = s1
            /\ l = OS.children (fs s1)
                     (OS.resolve cwd (target_of cwd opts st0 r)))
      as [-> ->].
    { destruct (OS.node_at (fs s1) _) as [[?|]|]; split; congruence. }
    apply for_each_preserves; [|exact H1].
    intros f s' Hf. apply delete_if_old_listed; [exact Hr|].
    apply elem_of_children in Hf. destruct H1 as [_ Hk1].
    destruct (Hk1 (OS.resolve cwd (target_of cwd opts st0 r) ++ [f]))
      as [E|[E _]]; [now rewrite <- E|].
    rewrite E in Hf. now destruct Hf.
Qed.

End Deletion.

Lemma delete_pass_listed (cwd : string) (opts : Opt.t)
    (base_repos : list Repo.t) (pkgs : list Package.t) (st : State) :
  only_listed_removed cwd opts base_repos (download_map_of pkgs) st
    (snd (delete_old_local_packages cwd opts base_repos pkgs st)).
Proof.
  unfold delete_old_local_packages.
  apply for_each_preserves; [|split; [reflexivity | now left]].
  intros r s Hr. now apply delete_in_repo_listed.
Qed.

(** With [--delete], a package of the candidate set is safe in its own
    repository: in a tree whose names are plain, and when no other
    enabled repository shares the target directory of [r], an entry of
    that directory whose name is the base name of the location of a
    candidate of [r] is after the deletion pass what it was before. *)
Theorem deletion_keeps_candidates (cwd : string) (opts : Opt.t)
    (base_repos : list Repo.t) (pkgs : list Package.t) (st : State)
    (r : Repo.t) (p : Package.t) :
  let d := OS.resolve cwd (target_of cwd opts st r) in
  let f := basename (Package.location p) in
  plain_names (fs st) ->
  (forall r', r' ∈ iter_enabled base_repos ->
     OS.resolve cwd (target_of cwd opts st r') = d -> Repo.id r' = Repo.id r) ->
  p ∈ pkgs ->
  Repo.id (Package.repo p) = Repo.id r ->
  fs (snd (delete_old_local_packages cwd opts base_repos pkgs st))
    !! (d ++ [f])
  = fs st !! (d ++ [f]).
Proof.
  intros d f Hplain Hdir Hp Hid.
  destruct (delete_pass_listed cwd opts base_repos pkgs st) as [_ Hk].
  destruct (Hk (d ++ [f]))
    as [E|[_ (r' & f' & data & Hr' & _ & Hl & Hkey & _ & Hin)]]; [exact E|].
  exfalso.
  rewrite resolve_join in Hkey by exact (Hplain _ _ Hl).
  apply app_inj_tail in Hkey as [Hd <-].
  assert (Hin' : in_map (download_map_of pkgs) (Repo.id r', f) = true).
  { apply in_map_download_map. exists p. rewrite (Hdir r' Hr'); auto. }
  congruence.
Qed.

Lemma plain_names_list_to_map (l : list (list string * Node)) :
  forallb
    (fun kv => match last (fst kv) with
               | Some n => plain_name n
               | None => true
               end) l = true ->
  plain_names (list_to_map l).
Proof.
  intros H d n [v Hv]. apply elem_of_list_to_map_2 in Hv.
  rewrite forallb_forall in H. apply list_elem_of_In in Hv.
  specialize (H _ Hv). cbn [fst] in H. now rewrite last_snoc in H.
Qed.

Lemma deletion_keeps_candidates_witness :
  fs (snd (delete_old_local_packages "/srv" opts_delete [repo_A; repo_B]
             [pkg_a] (store_of tree_AB))) !! ["srv"; "A"; "a-1.0.rpm"]
  = Some (File "bytes of a").
Proof.
  assert (Hplain : plain_names (fs (store_of tree_AB)))
    by now apply plain_names_list_to_map.
  assert (Hdir : forall r', r' ∈ iter_enabled [repo_A; repo_B] ->
    OS.resolve "/srv" (target_of "/srv" opts_delete (store_of tree_AB) r')
    = OS.resolve "/srv" (target_of "/srv" opts_delete (store_of tree_AB) repo_A)
    -> Repo.id r' = Repo.id repo_A).
  { intros r' Hr' Hd.
    apply elem_of_cons in Hr' as [->|Hr']; [reflexivity|].
    apply list_elem_of_singleton in Hr'. subst r'. discriminate. }
  assert (Hin : pkg_a ∈ [pkg_a]) by left.
  exact (deletion_keeps_candidates "/srv" opts_delete [repo_A; repo_B]
           [pkg_a] (store_of tree_AB) repo_A pkg_a Hplain Hdir Hin eq_refl).
Defined.

Section Completion.

Variable cwd : string.
Variable opts : Opt.t.
Variable base_repos : list Repo.t.
Variable dm : gmap (string * string) nat.
Variable st : State.







End Completion.

(** On a tree with symbolic links and directories that deny writing:
    the deletion pass completes when the target path of every enabled
    repository is a directory, possibly through symbolic links, or is
    not there at all.  A missing target directory is skipped, and an
    unlink that fails does not end the pass: the turn of the loop for
    that name catches whatever [os.unlink] raises, logs [failed to
    delete file] and returns. *)
Theorem deletion_pass_completes (cwd : string) (opts : Opt.t)
    (base_repos : list Repo.t) (pkgs : list Package.t) (st : Links.Store) :
  (forall r, r ∈ iter_enabled base_repos ->
     forall e,
       Links.stat cwd (Links.tree st) (Links.target_of cwd opts st r)
       = Some e ->
       e = Links.Directory) ->
  fst (Links.delete_old_local_packages cwd opts base_repos pkgs st) = Ok tt
  /\ forall dm r t f s e s',
       endswith f ".rpm" = true ->
       Links.isfile cwd (Links.tree s) (join t f) = true ->
       in_map dm (Repo.id r, f) = false ->
       Links.unlink cwd (join t f) s = (Raise e, s') ->
       Links.delete_if_old cwd dm r t f s
       = (Ok tt,
          Links.record (EvError "failed to delete file %s" (join t f)) s).
Proof.
  intros Hdir. split.
  - unfold Links.delete_old_local_packages.
    apply (for_each_ok_preserves (Links.pass_keeps cwd opts st));
      [|apply LinksFacts.pass_keeps_refl].
    intros r s Hr Hs. split.
    + apply (LinksFacts.links_delete_in_repo_ok cwd opts _ r st);
        [now apply Hdir | exact Hs].
    + now apply LinksFacts.links_delete_in_repo_keeps.
  - intros dm r t f s e s' Hrpm Hfile Hin Hfail.
    rewrite LinksFacts.links_delete_if_old_eq, Hrpm, Hfile, Hin.
    cbn [andb negb]. unfold try_OSError, bind.
    destruct (LinksFacts.unlink_run cwd (join t f) s)
      as [(k & e' & _ & _ & Hok)|Hraise].
    + rewrite Hok in Hfail. discriminate.
    + now rewrite Hraise.
Qed.

Lemma deletion_pass_completes_witness :
  fst (Links.delete_old_local_packages "/srv" opts_delete [repo_A] []
         (links_store tree_locked [["srv"; "A"]])) = Ok tt
  /\ Links.log
       (snd (Links.delete_old_local_packages "/srv" opts_delete [repo_A] []
               (links_store tree_locked [["srv"; "A"]])))
     = [EvError "failed to delete file %s" "/srv/A/b-1.0.rpm"]
  /\ Links.tree
       (snd (Links.delete_old_local_packages "/srv" opts_delete [repo_A] []
               (links_store tree_locked [["srv"; "A"]])))
       !! ["srv"; "A"; "b-1.0.rpm"]
     = Some (Links.Regular "bytes of b").
Proof.
  destruct (deletion_pass_completes "/srv" opts_delete [repo_A] []
              (links_store tree_locked [["srv"; "A"]])) as [Hok _].
  - intros r Hr e He. apply list_elem_of_singleton in Hr. subst r.
    vm_compute in He. congruence.
  - split; [exact Hok|]. split; vm_compute; reflexivity.
Defined.

(** When the target path of the first enabled repository is a regular
    file, the deletion pass raises the [OSError] of [os.listdir] for it;
    nothing was deleted. *)
Theorem deletion_pass_target_is_file (cwd : string) (opts : Opt.t)
    (base_repos later : list Repo.t) (r : Repo.t)
    (pkgs : list Package.t) (st : State) :
  iter_enabled base_repos = r :: later ->
  OS.isfile cwd (fs st) (target_of cwd opts st r) = true ->
  exists st',
    delete_old_local_packages cwd opts base_repos pkgs st
    = (Raise (OSError (target_of cwd opts st r)), st')
    /\ fs st' = fs st /\ trace st' = trace st.
Proof.
  intros Hen Hfile. unfold delete_old_local_packages. rewrite Hen.
  cbn [for_each]. unfold delete_in_repo.
  destruct (repo_target_run cwd opts r st) as (s1 & Hrun & Hfs & Htr & _).
  exists s1. split; [|auto]. apply bind_raise.
  rewrite (bind_ok _ _ _ _ _ Hrun). unfold bind at 1, gets.
  unfold OS.isfile in Hfile. unfold OS.path_exists. rewrite Hfs.
  destruct (OS.node_at (fs st) _) as [[data|]|] eqn:E; try discriminate.
  apply bind_raise. unfold OS.listdir. now rewrite Hfs, E.
Qed.

Lemma deletion_pass_target_is_file_witness :
  exists st',
    delete_old_local_packages "/srv/A" opts_delete
      [Repo.mk "a-1.0.rpm" true false true "/var/cache/a" None] []
      (store_of tree_A)
    = (Raise (OSError "/srv/A/a-1.0.rpm"), st')
    /\ fs st' = tree_A /\ trace st' = [].
Proof.
  apply (deletion_pass_target_is_file "/srv/A" opts_delete
           [Repo.mk "a-1.0.rpm" true false true "/var/cache/a" None] []
           (Repo.mk "a-1.0.rpm" true false true "/var/cache/a" None) []
           (store_of tree_A)); reflexivity.
Defined.





(** *** Remote packages *)

(** The payloads of accepted packages, in order. *)
Lemma payloads_built (cwd : string) (opts : Opt.t) (l : list Package.t) :
  forall s ys s',
    comprehension l
      (fun q => path <- pkg_download_path cwd opts q ;;
                ret (new_payload q path)) s = (Ok ys, s') ->
    ys = map (fun q =>
                new_payload q
                  (normpath (join (target_of cwd opts s (Package.repo q))
                               (Package.location q)))) l
    /\ fs s' = fs s.
Proof.
  induction l as [|x l IH]; intros s ys s' H.
  - cbn [comprehension ret] in H. injection H as <- <-. now split.
  - cbn [comprehension] in H.
    apply bind_ok_inv in H as (pl & s1 & Hx & H).
    apply bind_ok_inv in H as (ys' & s2 & Hrest & H).
    cbn [ret] in H. injection H as <- <-.
    apply bind_ok_inv in Hx as (path & s0 & Hpath & Hx).
    cbn [ret] in Hx. injection Hx as <- <-.
    destruct (pkg_download_path_full cwd opts x s)
      as (s0' & Hfull & Hfs & _ & Htg).
    rewrite Hpath in Hfull.
    destruct (startswith _ _); [|discriminate].
    injection Hfull as -> ->.
    destruct (IH _ _ _ Hrest) as [-> Hfs']. split; [|congruence].
    cbn [map]. f_equal. apply map_ext. intros q. now rewrite Htg.
Qed.

(** After the target parameters of all payloads were asked for, each
    destination directory exists. *)
Lemma target_params_built (cwd : string) (pls : list RPMPayloadLocation) :
  forall s ts s',
    comprehension pls (_target_params cwd) s = (Ok ts, s') ->
    ts = map (fun pl => (pkg pl, package_dir pl)) pls
    /\ tree_kept (fs s) (fs s')
    /\ Forall (fun pl => OS.isdir cwd (fs s') (package_dir pl) = true) pls.
Proof.
  induction pls as [|pl pls IH]; intros s ts s' H.
  - cbn [comprehension ret] in H. injection H as <- <-.
    split; [reflexivity|]. split; [apply tree_kept_refl | constructor].
  - cbn [comprehension] in H.
    apply bind_ok_inv in H as (t & s1 & Hx & H).
    apply bind_ok_inv in H as (ts' & s2 & Hrest & H).
    cbn [ret] in H. injection H as <- <-.
    unfold _target_params in Hx.
    apply bind_ok_inv in Hx as ([] & s0 & Hdir & Hx).
    cbn [ret] in Hx. injection Hx as <- <-.
    destruct (IH _ _ _ Hrest) as (-> & Hkept & Hall).
    destruct (ensure_dir_run _ _ _ _ Hdir) as (Hisdir & _ & _).
    pose proof (ensure_dir_tree_kept cwd (package_dir pl) s) as Hk0.
    rewrite Hdir in Hk0. cbn [snd] in Hk0.
    split; [reflexivity|]. split; [now apply (tree_kept_trans _ (fs s0))|].
    constructor; [|exact Hall].
    now apply (tree_kept_isdir cwd (fs s0)).
Qed.

Lemma fetch_stores (cwd : string) (q : Package.t) (d : string)
    (s s' : State) :
  Dnf.fetch cwd q d s = (Ok tt, s') ->
  exists data,
    Package.payload q = Some data
    /\ OS.node_at (fs s')
         (OS.resolve cwd (join d (basename (Package.location q))))
       = Some (File data).
Proof.
  unfold Dnf.fetch. destruct (Package.payload q) as [data|]; [|discriminate].
  intros H. exists data. split; [reflexivity|].
  destruct (Dnf.have_file _ _ _ _) eqn:Hhave.
  - injection H as <-. unfold Dnf.have_file in Hhave.
    destruct (OS.node_at _ _) as [[have|]|]; try discriminate.
    apply String.eqb_eq in Hhave. now subst.
  - destruct (OS.store _ _ _) as [f'|] eqn:Es; [|discriminate].
    injection H as <-. cbn [fs emit set_fs]. unfold OS.store in Es.
    destruct (OS.resolve cwd _) as [|c k]; [discriminate|].
    assert (f' = <[c :: k := File data]> (fs s)) as ->.
    { destruct (OS.node_at (fs s) (c :: k)) as [[?|]|];
        destruct (OS.node_at (fs s) (OS.parent (c :: k))) as [[?|]|];
        congruence. }
    cbn [OS.node_at]. apply lookup_insert_eq.
Qed.

(** When [download_packages] completes, every package it selected as
    remote was handed to the transfer layer with the parent directory of
    its own download path as destination, in a tree that had lost nothing
    since the start; that directory existed when the package was fetched,
    and afterwards the file named after the base name of the location
    held the bytes the repository publishes.  Without [--delete] an entry
    of that name is still there when [download_packages] returns. *)
Theorem remote_packages_are_fetched (cwd : string) (opts : Opt.t)
    (base_repos : list Repo.t) (sack : list Package.t) (r : Repo.t)
    (st st' : State) (q : Package.t) :
  download_packages cwd opts base_repos sack r st = (Ok tt, st') ->
  q ∈ fst (Dnf._select_remote_pkgs (get_pkglist opts sack r)) ->
  let dest :=
    normpath (join (target_of cwd opts st (Package.repo q))
                (Package.location q)) in
  let file := join (dirname dest) (basename (Package.location q)) in
  exists (s1 s2 : State) (data : string),
    Package.payload q = Some data
    /\ tree_kept (fs st) (fs s1)
    /\ OS.isdir cwd (fs s1) (dirname dest) = true
    /\ Dnf.fetch cwd q (dirname dest) s1 = (Ok tt, s2)
    /\ OS.node_at (fs s2) (OS.resolve cwd file) = Some (File data)
    /\ (Opt.delete opts = false ->
        OS.path_exists cwd (fs st') file = true).
Proof.
  intros Hrun Hq dest file. unfold download_packages in Hrun.
  destruct (Dnf._select_remote_pkgs (get_pkglist opts sack r))
    as [remote local]. cbn [fst] in Hq.
  apply bind_ok_inv in Hrun as ([] & sa & Hremote & Hrest).
  assert (Hne : bool_decide (remote = []) = false).
  { apply bool_decide_eq_false. intros E. rewrite E in Hq.
    now apply elem_of_nil in Hq. }
  rewrite Hne in Hremote. cbn [negb when] in Hremote.
  apply bind_ok_inv in Hremote as (pls & sb & Hpls & Hdl).
  destruct (payloads_built _ _ _ _ _ _ Hpls) as [-> Hfsb].
  unfold Dnf._download_remote_payloads in Hdl.
  apply bind_ok_inv in Hdl as (ts & sc & Hts & Hloop).
  destruct (target_params_built _ _ _ _ _ Hts) as (-> & Hbc & Hdirs).
  rewrite map_map in Hloop. cbn [pkg package_dir new_payload] in Hloop.
  rewrite Forall_map in Hdirs. cbn [package_dir new_payload] in Hdirs.
  assert (Hin : (q, dirname dest)
                ∈ map (fun x =>
                         (x, dirname
                               (normpath
                                  (join (target_of cwd opts st (Package.repo x))
                                     (Package.location x))))) remote).
  { apply list_elem_of_In, in_map_iff. exists q.
    split; [reflexivity | now apply list_elem_of_In]. }
  destruct (for_each_ok_between
              (fun a b : State => tree_kept (fs a) (fs b)) _ _ _ _ _
              (fun a => tree_kept_refl (fs a))
              (fun a b c => tree_kept_trans (fs a) (fs b) (fs c))
              (fun t s1 => fetch_tree_kept cwd (fst t) (snd t) s1)
              Hloop Hin)
    as (s1 & s2 & Hkept & Hfetch & Hafter).
  cbn [fst snd] in Hfetch.
  destruct (fetch_stores _ _ _ _ _ Hfetch) as (data & Hpay & Hnode).
  exists s1, s2, data. split; [exact Hpay|].
  rewrite Hfsb in Hbc.
  split; [exact (tree_kept_trans _ _ _ Hbc Hkept)|].
  split.
  { apply (tree_kept_isdir cwd (fs sc)); [exact Hkept|].
    rewrite Forall_forall in Hdirs. exact (Hdirs q Hq). }
  split; [exact Hfetch|]. split; [exact Hnode|].
  intros Hdel. rewrite Hdel in Hrest.
  assert (Hend : tree_kept (fs sa) (fs st')).
  { apply bind_ok_inv in Hrest as ([] & sd & Hlocal & Hlast).
    cbn [when ret] in Hlast. injection Hlast as <-.
    replace sd with
      (snd (when (negb (bool_decide (local = [])))
              (for_each local (copy_local_pkg cwd opts)) sa))
      by now rewrite Hlocal.
    unfold when. destruct (negb (bool_decide (local = [])));
      [apply copy_stage_tree_kept | apply tree_kept_refl]. }
  apply (tree_kept_exists cwd (fs s2));
    [exact (tree_kept_trans _ _ _ Hafter Hend)|].
  unfold OS.path_exists. fold file in Hnode. now rewrite Hnode.
Qed.

Lemma remote_packages_are_fetched_witness :
  exists (s1 s2 : State) (data : string),
    Package.payload pkg_a = Some data
    /\ tree_kept (fs empty_store) (fs s1)
    /\ OS.isdir "/srv" (fs s1) "/srv/A" = true
    /\ Dnf.fetch "/srv" pkg_a "/srv/A" s1 = (Ok tt, s2)
    /\ OS.node_at (fs s2) ["srv"; "A"; "a-1.0.rpm"] = Some (File data)
    /\ (Opt.delete opts_plain = false ->
        OS.path_exists "/srv"
          (fs (snd (download_packages "/srv" opts_plain [repo_A; repo_B]
                      [pkg_a; pkg_b] repo_A empty_store)))
          "/srv/A/a-1.0.rpm" = true).
Proof.
  apply (remote_packages_are_fetched "/srv" opts_plain [repo_A; repo_B]
           [pkg_a; pkg_b] repo_A empty_store
           (snd (download_packages "/srv" opts_plain [repo_A; repo_B]
                   [pkg_a; pkg_b] repo_A empty_store)) pkg_a).
  - reflexivity.
  - left.
Defined.

(** *** A second synchronisation *)

Section Again.
Variables (cwd : string) (opts : Opt.t).

Lemma fetch_other (q : Package.t) (d : string) (s : State)
    (k : list string) :
  k <> fetched_file cwd (q, d) ->
  OS.node_at (fs (snd (Dnf.fetch cwd q d s))) k = OS.node_at (fs s) k.
Proof.
  intros Hk. unfold Dnf.fetch. destruct (Package.payload q); [|reflexivity].
  destruct (Dnf.have_file _ _ _ _); [reflexivity|].
  destruct (OS.store _ _ _) as [f'|] eqn:Es; [|reflexivity].
  cbn [snd fs emit set_fs]. unfold OS.store in Es.
  unfold fetched_file in Hk. cbn [fst snd] in Hk.
  assert (f' = <[OS.resolve cwd
                   (join d (basename (Package.location q))) := File s0]>
               (fs s)) as ->.
  { destruct (OS.resolve cwd _) as [|c k0]; [discriminate|].
    destruct (OS.node_at (fs s) (c :: k0)) as [[?|]|];
      destruct (OS.node_at (fs s) (OS.parent (c :: k0))) as [[?|]|];
      congruence. }
  destruct k as [|c k]; [reflexivity|]. cbn [OS.node_at].
  now rewrite lookup_insert_ne by congruence.
Qed.

Lemma fetch_loop_other (ts : list (Package.t * string)) (k : list string) :
  k ∉ map (fetched_file cwd) ts ->
  forall s,
    OS.node_at
      (fs (snd (for_each ts (fun t => Dnf.fetch cwd (fst t) (snd t)) s))) k
    = OS.node_at (fs s) k.
Proof.
  intros Hk s.
  apply (for_each_preserves
           (fun s' => OS.node_at (fs s') k = OS.node_at (fs s) k));
    [|reflexivity].
  intros [q d] s0 Ht Hs0. cbn [fst snd]. rewrite fetch_other; [exact Hs0|].
  intros ->. apply Hk. apply list_elem_of_In, in_map_iff.
  exists (q, d). split; [reflexivity | now apply list_elem_of_In].
Qed.

(** After a completed batch with pairwise different files, every file
    holds the bytes of its package. *)
Lemma fetch_loop_files (ts : list (Package.t * string)) :
  NoDup (map (fetched_file cwd) ts) ->
  forall s s',
    for_each ts (fun t => Dnf.fetch cwd (fst t) (snd t)) s = (Ok tt, s') ->
    forall t, t ∈ ts ->
      exists data,
        Package.payload (fst t) = Some data
        /\ OS.node_at (fs s') (fetched_file cwd t) = Some (File data).
Proof.
  induction ts as [|t0 ts IH]; intros Hnd s s' H t Ht.
  - now apply elem_of_nil in Ht.
  - cbn [map] in Hnd. apply NoDup_cons in Hnd as [Hnew Hnd].
    cbn [for_each] in H. apply bind_ok_inv in H as ([] & s1 & H0 & Hrest).
    apply elem_of_cons in Ht as [->|Ht]; [|exact (IH Hnd _ _ Hrest t Ht)].
    destruct (fetch_stores _ _ _ _ _ H0) as (data & Hpay & Hnode).
    exists data. split; [exact Hpay|].
    pose proof (fetch_loop_other ts _ Hnew s1) as Hkeep.
    rewrite Hrest in Hkeep. cbn [snd] in Hkeep.
    rewrite Hkeep. exact Hnode.
Qed.

(** A batch whose files are all there with the published bytes
    transfers nothing. *)
Lemma fetch_loop_quiet (ts : list (Package.t * string)) (s : State) :
  (forall t, t ∈ ts ->
     exists data,
       Package.payload (fst t) = Some data
       /\ OS.node_at (fs s) (fetched_file cwd t) = Some (File data)) ->
  for_each ts (fun t => Dnf.fetch cwd (fst t) (snd t)) s = (Ok tt, s).
Proof.
  induction ts as [|t0 ts IH]; intros H; [reflexivity|].
  cbn [for_each].
  assert (H0 : Dnf.fetch cwd (fst t0) (snd t0) s = (Ok tt, s)).
  { destruct (H t0 ltac:(left)) as (data & Hpay & Hnode).
    unfold Dnf.fetch, Dnf.have_file. rewrite Hpay.
    unfold fetched_file in Hnode. rewrite Hnode.
    now rewrite String.eqb_refl. }
  rewrite (bind_ok _ _ _ _ _ H0). apply IH.
  intros t Ht. apply H. now right.
Qed.

Lemma mkdirs_again (todo : list string) :
  forall (f f' : FS) (done : list string),
    OS.mkdirs f done todo = Some f' ->
    forall g, tree_kept f' g -> OS.mkdirs g done todo = Some g.
Proof.
  induction todo as [|c rest IH]; intros f f' done H g Hg; [reflexivity|].
  cbn [OS.mkdirs] in *.
  assert (Hdir : f' !! (done ++ [c]) = Some Dir).
  { destruct (f !! (done ++ [c])) as [[?|]|] eqn:E; [discriminate| |].
    - destruct (mkdirs_spec _ _ _ _ H) as (_ & _ & Hd). now apply Hd.
    - destruct (mkdirs_spec _ _ _ _ H) as (_ & _ & Hd). apply Hd.
      apply lookup_insert_eq. }
  destruct Hg as [Hsome Hd]. rewrite (Hd _ Hdir).
  destruct (f !! (done ++ [c])) as [[?|]|]; [discriminate| |];
    now apply (IH _ _ _ H).
Qed.

Lemma ensure_dir_again (d : string) (s s' s2 : State) :
  OS.ensure_dir cwd d s = (Ok tt, s') ->
  tree_kept (fs s') (fs s2) ->
  OS.ensure_dir cwd d s2 = (Ok tt, s2).
Proof.
  unfold OS.ensure_dir. intros H Hk.
  destruct (OS.mkdirs (fs s) [] (OS.resolve cwd d)) as [f'|] eqn:E;
    [|discriminate].
  injection H as <-. cbn [fs set_fs] in Hk.
  rewrite (mkdirs_again _ _ _ _ E _ Hk). now destruct s2.
Qed.

Lemma target_params_again (pls : list RPMPayloadLocation) :
  forall s ts s',
    comprehension pls (_target_params cwd) s = (Ok ts, s') ->
    forall s2, tree_kept (fs s') (fs s2) ->
      comprehension pls (_target_params cwd) s2 = (Ok ts, s2).
Proof.
  induction pls as [|pl pls IH]; intros s ts s' H s2 Hk.
  - cbn [comprehension ret] in *. now injection H as <- <-.
  - cbn [comprehension] in *.
    apply bind_ok_inv in H as (t & s1 & Hx & H).
    apply bind_ok_inv in H as (ts' & s3 & Hrest & H).
    cbn [ret] in H. injection H as <- <-.
    unfold _target_params in Hx.
    apply bind_ok_inv in Hx as ([] & s0 & Hdir & Hx).
    cbn [ret] in Hx. injection Hx as <- <-.
    destruct (target_params_built _ _ _ _ _ Hrest) as (_ & Hkept & _).
    assert (H0 : _target_params cwd pl s2
                 = (Ok (pkg pl, package_dir pl), s2)).
    { unfold _target_params.
      rewrite (bind_ok _ _ _ _ _
                 (ensure_dir_again _ _ _ _ Hdir
                    (tree_kept_trans _ _ _ Hkept Hk))).
      reflexivity. }
    rewrite (bind_ok _ _ _ _ _ H0).
    rewrite (bind_ok _ _ _ _ _ (IH _ _ _ Hrest _ Hk)). reflexivity.
Qed.

(** When every location is accepted, all payloads are built. *)
Lemma payloads_accepted (l : list Package.t) :
  forall s,
    (forall q, q ∈ l ->
       startswith
         (normpath (join (target_of cwd opts s (Package.repo q))
                      (Package.location q)))
         (target_of cwd opts s (Package.repo q)) = true) ->
    exists s',
      comprehension l
        (fun q => path <- pkg_download_path cwd opts q ;;
                  ret (new_payload q path)) s
      = (Ok (map (fun q =>
                    new_payload q
                      (normpath
                         (join (target_of cwd opts s (Package.repo q))
                            (Package.location q)))) l), s')
      /\ fs s' = fs s /\ trace s' = trace s.
Proof.
  induction l as [|x l IH]; intros s Hacc.
  - exists s. now cbn.
  - destruct (pkg_download_path_full cwd opts x s)
      as (s0 & Hfull & Hfs & Htr & Htg).
    rewrite (Hacc x ltac:(left)) in Hfull.
    destruct (IH s0) as (s' & Hrest & Hfs' & Htr').
    { intros q Hq. rewrite !Htg. apply Hacc. now right. }
    exists s'. split; [|split; congruence].
    assert (Hx : (path <- pkg_download_path cwd opts x ;;
                  ret (new_payload x path)) s
                 = (Ok (new_payload x
                          (normpath
                             (join (target_of cwd opts s (Package.repo x))
                                (Package.location x)))), s0))
      by now rewrite (bind_ok _ _ _ _ _ Hfull).
    cbn [comprehension]. rewrite (bind_ok _ _ _ _ _ Hx).
    rewrite (bind_ok _ _ _ _ _ Hrest). unfold ret. cbn [map].
    do 3 f_equal. apply map_ext. intros q. now rewrite Htg.
Qed.

(** A repository without local packages, synchronised without
    [--delete] into files that are pairwise different: once
    [download_packages] has completed, doing it again completes too,
    changes nothing in the tree and transfers nothing. *)
Theorem second_sync_transfers_nothing (base_repos : list Repo.t)
    (sack : list Package.t) (r : Repo.t) (st st' : State) :
  let remote := fst (Dnf._select_remote_pkgs (get_pkglist opts sack r)) in
  let target := fun q =>
    (q, dirname (normpath (join (target_of cwd opts st (Package.repo q))
                             (Package.location q)))) in
  Opt.delete opts = false ->
  snd (Dnf._select_remote_pkgs (get_pkglist opts sack r)) = [] ->
  NoDup (map (fun q => fetched_file cwd (target q)) remote) ->
  download_packages cwd opts base_repos sack r st = (Ok tt, st') ->
  exists st'',
    download_packages cwd opts base_repos sack r st' = (Ok tt, st'')
    /\ fs st'' = fs st' /\ trace st'' = trace st'.
Proof.
  intros remote target Hdel Hlocal Hnd Hrun.
  unfold download_packages in *. subst remote.
  destruct (Dnf._select_remote_pkgs (get_pkglist opts sack r))
    as [remote local]. cbn [fst snd] in *. subst local.
  rewrite Hdel in *.
  change (bool_decide (@nil Package.t = [])) with true in *.
  cbn [negb] in *.
  apply bind_ok_inv in Hrun as ([] & sa & Hremote & Hrest).
  assert (sa = st')
    by (change ((Ok tt, sa) = (Ok tt, st')) in Hrest; congruence).
  subst sa. clear Hrest.
  cut (exists sd,
         when (negb (bool_decide (remote = [])))
           (payloads <- comprehension remote
                          (fun p => path <- pkg_download_path cwd opts p ;;
                                    ret (new_payload p path)) ;;
            Dnf._download_remote_payloads cwd (_target_params cwd) payloads)
           st'
         = (Ok tt, sd) /\ fs sd = fs st' /\ trace sd = trace st').
  { intros (sd & Hsd & Hfs & Htr). exists sd. split; [|auto].
    now rewrite (bind_ok _ _ _ _ _ Hsd). }
  destruct (bool_decide (remote = [])) eqn:Hempty; cbn [negb when] in *.
  { exists st'. now cbn. }
  apply bind_ok_inv in Hremote as (pls & sb & Hpls & Hdl).
  destruct (payloads_checked cwd opts remote st)
    as (res & sb' & Hc & _ & _ & Htg & Hres).
  cbv zeta in Hc. rewrite Hpls in Hc. injection Hc as <- <-.
  destruct (payloads_built _ _ _ _ _ _ Hpls) as [-> Hfsb].
  unfold Dnf._download_remote_payloads in Hdl.
  apply bind_ok_inv in Hdl as (ts & sc & Hts & Hloop).
  destruct (target_params_built _ _ _ _ _ Hts) as (-> & _ & _).
  rewrite map_map in Hloop. cbn [pkg package_dir new_payload] in Hloop.
  fold target in Hloop.
  (* the cache of target directories after the first run *)
  assert (Hmemo : _repo_target st' = _repo_target sb).
  { transitivity (_repo_target sc).
    - replace st' with
        (snd (for_each (map target remote)
                (fun t => Dnf.fetch cwd (fst t) (snd t)) sc))
        by now rewrite Hloop.
      apply (for_each_preserves
               (fun s => _repo_target s = _repo_target sc)); [|reflexivity].
      intros t s _ Hs. now rewrite fetch_memo.
    - replace sc with
        (snd (comprehension
                (map (fun q =>
                        new_payload q
                          (normpath
                             (join (target_of cwd opts st (Package.repo q))
                                (Package.location q)))) remote)
                (_target_params cwd) sb))
        by now rewrite Hts.
      apply (comprehension_preserves
               (fun s => _repo_target s = _repo_target sb)); [|reflexivity].
      intros pl s _ Hs. unfold _target_params. apply bind_preserves.
      + now rewrite ensure_dir_memo.
      + intros _ s1 _ Hs1. exact Hs1. }
  assert (Htg' : forall q, target_of cwd opts st' q = target_of cwd opts st q).
  { intros q. rewrite (target_of_ext cwd opts st' sb q Hmemo). apply Htg. }
  (* the tree after the first run *)
  assert (Hkept : tree_kept (fs sc) (fs st')).
  { replace st' with
      (snd (for_each (map target remote)
              (fun t => Dnf.fetch cwd (fst t) (snd t)) sc))
      by now rewrite Hloop.
    apply (for_each_preserves (fun s => tree_kept (fs sc) (fs s)));
      [|apply tree_kept_refl].
    intros t s _ Hs.
    exact (tree_kept_trans _ _ _ Hs (fetch_tree_kept cwd _ _ s)). }
  assert (Hnd' : NoDup (map (fetched_file cwd) (map target remote)))
    by now rewrite map_map.
  pose proof (fetch_loop_files _ Hnd' _ _ Hloop) as Hfiles.
  (* the second run *)
  destruct (payloads_accepted remote st') as (sd & Hpls2 & Hfsd & Htrd).
  { intros q Hq. rewrite !Htg'. now apply Hres. }
  exists sd. split; [|auto].
  rewrite (bind_ok _ _ _ _ _ Hpls2).
  unfold Dnf._download_remote_payloads.
  assert (Hts2 : comprehension
            (map (fun q =>
                    new_payload q
                      (normpath
                         (join (target_of cwd opts st' (Package.repo q))
                            (Package.location q)))) remote)
            (_target_params cwd) sd
          = (Ok (map target remote), sd)).
  { rewrite (map_ext _ (fun q =>
                new_payload q
                  (normpath
                     (join (target_of cwd opts st (Package.repo q))
                        (Package.location q)))))
      by (intros q; now rewrite Htg').
    rewrite (target_params_again _ _ _ _ Hts sd) by now rewrite Hfsd.
    now rewrite map_map. }
  rewrite (bind_ok _ _ _ _ _ Hts2).
  apply fetch_loop_quiet. intros t Ht. rewrite Hfsd. now apply Hfiles.
Qed.

End Again.

Lemma second_sync_transfers_nothing_witness :
  exists st'',
    download_packages "/srv" opts_plain [repo_A; repo_B] [pkg_a; pkg_b] repo_A
      (snd (download_packages "/srv" opts_plain [repo_A; repo_B]
              [pkg_a; pkg_b] repo_A empty_store))
    = (Ok tt, st'')
    /\ fs st''
       = fs (snd (download_packages "/srv" opts_plain [repo_A; repo_B]
                    [pkg_a; pkg_b] repo_A empty_store))
    /\ trace st''
       = trace (snd (download_packages "/srv" opts_plain [repo_A; repo_B]
                       [pkg_a; pkg_b] repo_A empty_store)).
Proof.
  apply (second_sync_transfers_nothing "/srv" opts_plain [repo_A; repo_B]
           [pkg_a; pkg_b] repo_A empty_store).
  - reflexivity.
  - reflexivity.
  - repeat constructor. intros H. now apply elem_of_nil in H.
  - reflexivity.
Defined.

(** *** Well-formed locations *)

Local Arguments String.append !_ _ / : simpl nomatch.

Lemma join_sep_cons (x y : string) (l : list string) :
  join_sep (x :: y :: l) = x +:+ "/" +:+ join_sep (y :: l).
Proof. reflexivity. Qed.

Lemma join_sep_split (s : string) : join_sep (split_sep s) = s.
Proof.
  induction s as [|c s IH]; [reflexivity|]. rewrite split_sep_cons.
  destruct (is_sep c) eqn:Ec.
  - unfold is_sep, sep in Ec. apply Ascii.eqb_eq in Ec. subst c.
    destruct (split_sep s) as [|h t] eqn:E;
      [now apply split_sep_nonempty in E|].
    rewrite join_sep_cons, IH. reflexivity.
  - destruct (split_sep s) as [|h [|h' t]] eqn:E;
      [now apply split_sep_nonempty in E | |].
    + cbn in IH. subst s. reflexivity.
    + rewrite join_sep_cons in *. rewrite <- IH. reflexivity.
Qed.

Lemma no_sep_cons (c : ascii) (s : string) :
  no_sep (String c s) = negb (is_sep c) && no_sep s.
Proof. reflexivity. Qed.

Lemma split_sep_parts (s : string) :
  Forall (fun c => no_sep c = true) (split_sep s).
Proof.
  induction s as [|c s IH]; [repeat constructor|]. rewrite split_sep_cons.
  destruct (is_sep c) eqn:Ec; [now constructor|].
  destruct (split_sep s) as [|h t]; [repeat constructor; cbn; now rewrite Ec|].
  inversion IH as [|? ? Hh Ht]; subst. constructor; [|exact Ht].
  now rewrite no_sep_cons, Ec, Hh.
Qed.

Lemma split_sep_app_parts (q w : string) :
  split_sep (q +:+ "/" +:+ w) = split_sep q ++ split_sep w.
Proof.
  induction q as [|c q IH].
  - reflexivity.
  - change (String c q +:+ "/" +:+ w) with (String c (q +:+ "/" +:+ w)).
    rewrite !split_sep_cons, IH. destruct (is_sep c); [reflexivity|].
    destruct (split_sep q) eqn:E; [|reflexivity].
    now apply split_sep_nonempty in E.
Qed.

Lemma split_sep_join (l : list string) :
  l <> [] -> Forall (fun c => no_sep c = true) l ->
  split_sep (join_sep l) = l.
Proof.
  induction l as [|x [|y l] IH]; intros Hne Hall; [congruence| |].
  - inversion Hall; subst. now apply split_sep_no_sep.
  - inversion Hall as [|? ? Hx Hrest]; subst.
    rewrite join_sep_cons, split_sep_app_parts, IH by (auto; discriminate).
    now rewrite (split_sep_no_sep x Hx).
Qed.

Lemma join_sep_app (a b : list string) :
  a <> [] -> b <> [] ->
  join_sep (a ++ b) = join_sep a +:+ "/" +:+ join_sep b.
Proof.
  intros Ha Hb. induction a as [|x [|y a] IH]; [congruence| |].
  - destruct b as [|z b]; [congruence|]. reflexivity.
  - change ((x :: y :: a) ++ b) with (x :: y :: (a ++ b)).
    rewrite join_sep_cons. change (y :: a ++ b) with ((y :: a) ++ b).
    rewrite IH by discriminate. rewrite join_sep_cons.
    now rewrite !append_assoc.
Qed.

Lemma fold_norm_plain (rooted : bool) (l acc : list string) :
  Forall (fun c => special_name c = false) l ->
  fold_left (norm_step rooted) l acc = rev l ++ acc.
Proof.
  revert acc. induction l as [|x l IH]; intros acc Hall; [reflexivity|].
  inversion Hall as [|? ? Hx Hl]; subst. cbn [fold_left rev].
  rewrite IH by exact Hl. rewrite <- app_assoc. cbn [app].
  f_equal. unfold norm_step, special_name in *.
  apply orb_false_iff in Hx as [Hx H2]. apply orb_false_iff in Hx as [H0 H1].
  now rewrite H0, H1, H2.
Qed.

Lemma norm_comps_app_plain (rooted : bool) (pre l : list string) :
  Forall (fun c => special_name c = false) l ->
  norm_comps rooted (pre ++ l) = norm_comps rooted pre ++ l.
Proof.
  intros Hall. unfold norm_comps. rewrite fold_left_app.
  rewrite fold_norm_plain by exact Hall.
  now rewrite rev_app_distr, rev_involutive.
Qed.

(** What [normpath] keeps of a rooted path are ordinary names. *)
Lemma norm_comps_rooted_names (l : list string) :
  Forall (fun c => no_sep c = true) l ->
  Forall (fun c => plain_name c = true) (norm_comps true l).
Proof.
  intros Hall. unfold norm_comps. apply Forall_rev.
  assert (G : forall acc,
    Forall (fun c => plain_name c = true) acc ->
    Forall (fun c => plain_name c = true)
      (fold_left (norm_step true) l acc)).
  { induction Hall as [|x l Hx Hl IH]; intros acc Hacc; [exact Hacc|].
    cbn [fold_left]. apply IH. unfold norm_step.
    destruct (String.eqb x "" || String.eqb x ".") eqn:E1; [exact Hacc|].
    destruct (String.eqb x "..") eqn:E2; cbn [negb].
    - destruct acc as [|top below]; [constructor|].
      inversion Hacc as [|? ? Htop Hbelow]; subst.
      destruct (String.eqb top "..") eqn:E3; [|exact Hbelow].
      apply String.eqb_eq in E3. subst top. discriminate.
    - constructor; [|exact Hacc]. unfold plain_name, special_name.
      apply orb_false_iff in E1 as [E0 E1]. now rewrite Hx, E0, E1, E2. }
  apply G. constructor.
Qed.

Lemma plain_name_head (x : string) :
  plain_name x = true ->
  exists c rest, x = String c rest /\ c <> "/"%char /\ no_sep x = true
                 /\ special_name x = false.
Proof.
  unfold plain_name. intros H. apply andb_true_iff in H as [Hns Hsp].
  apply negb_true_iff in Hsp. destruct x as [|c rest]; [discriminate|].
  exists c, rest. repeat split; auto.
  rewrite no_sep_cons in Hns. apply andb_true_iff in Hns as [Hc _].
  apply negb_true_iff in Hc. unfold is_sep, sep in Hc.
  now apply Ascii.eqb_neq in Hc.
Qed.

Lemma join_sep_head (l : list string) :
  l <> [] -> Forall (fun c => plain_name c = true) l ->
  exists c rest, join_sep l = String c rest /\ c <> "/"%char.
Proof.
  destruct l as [|x l]; [congruence|]. intros _ Hall.
  inversion Hall as [|? ? Hx _]; subst.
  destruct (plain_name_head x Hx) as (c & rest & -> & Hc & _).
  destruct l as [|y l]; [now exists c, rest|].
  rewrite join_sep_cons. now exists c, (rest +:+ "/" +:+ join_sep (y :: l)).
Qed.

Lemma no_sep_endswith (x : string) :
  no_sep x = true -> endswith x "/" = false.
Proof.
  induction x as [|c x IH]; intros H; [reflexivity|].
  rewrite no_sep_cons in H. apply andb_true_iff in H as [Hc Hx].
  rewrite endswith_cons, (IH Hx), orb_false_r.
  apply negb_true_iff in Hc. unfold is_sep, sep in Hc.
  apply String.eqb_neq. intros E. injection E as -> _.
  now rewrite Ascii.eqb_refl in Hc.
Qed.

Lemma endswith_join_sep (l : list string) :
  l <> [] -> Forall (fun c => plain_name c = true) l ->
  endswith (join_sep l) "/" = false.
Proof.
  induction l as [|x [|y l] IH]; intros Hne Hall; [congruence| |].
  - inversion Hall as [|? ? Hx _]; subst.
    destruct (plain_name_head x Hx) as (_ & _ & _ & _ & Hns & _).
    now apply no_sep_endswith.
  - inversion Hall as [|? ? Hx Hrest]; subst.
    rewrite join_sep_cons.
    destruct (join_sep_head (y :: l) ltac:(discriminate) Hrest)
      as (c & rest & E & _).
    rewrite <- append_assoc, endswith_sep_app by (rewrite E; discriminate).
    apply IH; [discriminate | exact Hrest].
Qed.

Lemma plain_not_special (l : list string) :
  Forall (fun c => plain_name c = true) l ->
  Forall (fun c => special_name c = false) l.
Proof.
  intros Hall. eapply Forall_impl; [exact Hall|]. intros x Hx. cbv beta.
  now destruct (plain_name_head x Hx) as (_ & _ & _ & _ & _ & H).
Qed.

Lemma plain_no_sep (l : list string) :
  Forall (fun c => plain_name c = true) l ->
  Forall (fun c => no_sep c = true) l.
Proof.
  intros Hall. eapply Forall_impl; [exact Hall|]. intros x Hx. cbv beta.
  now destruct (plain_name_head x Hx) as (_ & _ & _ & _ & H & _).
Qed.

(** A rooted path of ordinary names is its own normal form. *)
Lemma initial_slashes_one (c : ascii) (rest : string) :
  c <> "/"%char -> initial_slashes (String "/" (String c rest)) = 1.
Proof.
  intros Hc. unfold initial_slashes, startswith.
  rewrite !prefix_cons, !prefix_nil.
  destruct (ascii_dec "/" "/"); [|congruence].
  destruct (ascii_dec "/" c); [congruence|reflexivity].
Qed.

Lemma initial_slashes_two (c : ascii) (rest : string) :
  c <> "/"%char ->
  initial_slashes (String "/" (String "/" (String c rest))) = 2.
Proof.
  intros Hc. unfold initial_slashes, startswith.
  rewrite !prefix_cons, !prefix_nil.
  destruct (ascii_dec "/" "/"); [|congruence].
  destruct (ascii_dec "/" c); [congruence|reflexivity].
Qed.

Lemma normpath_normal (S : string) (l : list string) :
  S = "/" \/ S = "//" ->
  l <> [] -> Forall (fun c => plain_name c = true) l ->
  normpath (S +:+ join_sep l) = S +:+ join_sep l.
Proof.
  intros HS Hne Hall.
  destruct (join_sep_head l Hne Hall) as (c & rest & E & Hc).
  pose proof (split_sep_join l Hne (plain_no_sep l Hall)) as Hsplit.
  pose proof (norm_comps_app_plain true [""] l (plain_not_special l Hall))
    as Hn1.
  pose proof (norm_comps_app_plain true [""; ""] l (plain_not_special l Hall))
    as Hn2.
  unfold normpath. destruct HS as [-> | ->].
  - change ("/" +:+ join_sep l) with (String "/"%char (join_sep l)).
    rewrite split_sep_cons. change (is_sep "/") with true. cbv iota.
    rewrite Hsplit.
    rewrite E, (initial_slashes_one c rest Hc).
    change (negb (1 =? 0)%nat) with true.
    change ("" :: l) with ([""] ++ l).
    rewrite Hn1. change (norm_comps true [""] ++ l) with l.
    rewrite E. reflexivity.
  - change ("//" +:+ join_sep l)
      with (String "/"%char (String "/"%char (join_sep l))).
    rewrite !split_sep_cons. change (is_sep "/") with true. cbv iota.
    rewrite Hsplit.
    rewrite E, (initial_slashes_two c rest Hc).
    change (negb (2 =? 0)%nat) with true.
    change ("" :: "" :: l) with ([""; ""] ++ l).
    rewrite Hn2. change (norm_comps true [""; ""] ++ l) with l.
    rewrite E. reflexivity.
Qed.

(** A path that starts with a slash normalises to one or two slashes
    followed by ordinary names. *)
Lemma normpath_rooted (x : string) :
  startswith x "/" = true ->
  exists S C, (S = "/" \/ S = "//")
    /\ Forall (fun c => plain_name c = true) C
    /\ normpath x = S +:+ join_sep C.
Proof.
  intros Hx. unfold normpath, initial_slashes. rewrite Hx.
  destruct x as [|c x]; [discriminate|].
  change (String c x =? "") with false. cbv iota zeta.
  pose proof (norm_comps_rooted_names _ (split_sep_parts (String c x)))
    as Hplain.
  destruct (startswith (String c x) "//"
            && negb (startswith (String c x) "///")).
  - exists "//", (norm_comps true (split_sep (String c x))).
    split; [now right|]. split; [exact Hplain|]. reflexivity.
  - exists "/", (norm_comps true (split_sep (String c x))).
    split; [now left|]. split; [exact Hplain|]. reflexivity.
Qed.

Lemma join_absolute (a b : string) :
  startswith a "/" = true -> startswith (join a b) "/" = true.
Proof.
  intros Ha. unfold join. destruct (startswith b "/") eqn:Hb; [exact Hb|].
  assert (Hne : a <> "") by (intros ->; discriminate).
  destruct (negb (truthy a) || endswith a "/");
    now rewrite startswith_sep_app.
Qed.

Lemma append_same_l (a b : string) : a +:+ b = a -> b = "".
Proof.
  induction a as [|c a IH]; [auto|]. simpl String.append.
  intros E. injection E as E. auto.
Qed.

Section Locations.
Variables (cwd : string) (opts : Opt.t).

Lemma target_of_cached (st : State) (r : Repo.t) :
  targets_cached cwd opts st ->
  target_of cwd opts st r
  = _pkgdir cwd (destdir_or_download_path opts) (Repo.id r).
Proof.
  intros Hc. rewrite target_of_unfold.
  destruct (_repo_target st !! Repo.id r) as [t|] eqn:E; [|reflexivity].
  rewrite (Hc r t E). unfold _pkgdir. now rewrite normpath_truthy.
Qed.

(** [repo_target] keeps the cache in that shape; the store of a fresh
    command has it. *)
Lemma repo_target_keeps_cache (r : Repo.t) (st : State) :
  targets_cached cwd opts st ->
  targets_cached cwd opts (snd (repo_target cwd opts r st)).
Proof.
  intros Hc.
  assert (Hmiss : targets_cached cwd opts
    (set_repo_target
       (<[Repo.id r := _pkgdir cwd (destdir_or_download_path opts)
                         (Repo.id r)]> (_repo_target st)) st)).
  { intros r' t'. destruct st as [f m k tr]. cbn.
    destruct (decide (Repo.id r = Repo.id r')) as [E|E].
    - rewrite E, lookup_insert_eq. now intros [= <-].
    - rewrite lookup_insert_ne by exact E. apply Hc. }
  unfold repo_target.
  destruct (_repo_target st !! Repo.id r) as [t|]; [|exact Hmiss].
  destruct (truthy t); [exact Hc | exact Hmiss].
Qed.

Lemma join_plain_location (t loc : string) (S : string) (C : list string) :
  S = "/" \/ S = "//" ->
  Forall (fun c => plain_name c = true) C ->
  t = S +:+ join_sep C ->
  Forall (fun c => plain_name c = true) (split_sep loc) ->
  normpath (join t loc) = join t loc
  /\ strict_path_prefix t (join t loc) = true
  /\ startswith (join t loc) t = true.
Proof.
  intros HS HC -> Hloc.
  cut (normpath (join (S +:+ join_sep C) loc) = join (S +:+ join_sep C) loc
       /\ strict_path_prefix (S +:+ join_sep C)
            (join (S +:+ join_sep C) loc) = true).
  { intros [H1 H2]. repeat split; auto.
    destruct (join_suffix (S +:+ join_sep C) "") as [front Hfront].
    apply andb_true_iff in H2 as [H2 _].
    unfold join in Hfront. change (startswith "" "/") with false in Hfront.
    cbv iota in Hfront.
    unfold join in H2 at 2. change (startswith "" "/") with false in H2.
    cbv iota in H2.
    destruct (negb (truthy (S +:+ join_sep C))
              || endswith (S +:+ join_sep C) "/").
    - now rewrite append_nil_r in H2.
    - now apply startswith_app in H2. }
  assert (HL : split_sep loc <> [])
    by (intros E; now apply split_sep_nonempty in E).
  destruct (join_sep_head _ HL Hloc) as (c & rest & Eloc & Hc).
  rewrite join_sep_split in Eloc.
  assert (Hrel : startswith loc "/" = false).
  { rewrite Eloc. unfold startswith. rewrite prefix_cons.
    destruct (ascii_dec "/" c); congruence. }
  assert (Hlne : loc <> "") by (rewrite Eloc; discriminate).
  assert (HSt : truthy S = true /\ endswith S "/" = true)
    by (destruct HS as [-> | ->]; split; reflexivity).
  destruct HSt as [HS1 HS2].
  unfold strict_path_prefix.
  rewrite (join_rel _ loc Hrel), (join_rel _ "") by reflexivity.
  destruct C as [|c0 C].
  - change (join_sep []) with "". rewrite append_nil_r, HS1, HS2.
    cbn [negb orb]. rewrite append_nil_r. split.
    + rewrite <- (join_sep_split loc) at 1 2.
      now apply normpath_normal.
    + rewrite startswith_app_l. cbn [andb]. apply negb_true_iff.
      apply String.eqb_neq. intros E. now apply append_same_l in E.
  - set (C' := c0 :: C) in *.
    assert (HCne : C' <> []) by discriminate.
    destruct (join_sep_head C' HCne HC) as (d & drest & EC & _).
    assert (Hjne : join_sep C' <> "") by (rewrite EC; discriminate).
    rewrite (truthy_app_r S _ Hjne), (endswith_sep_app S _ Hjne),
      (endswith_join_sep C' HCne HC).
    cbn [negb orb]. split.
    + rewrite <- (join_sep_split loc) at 1 2.
      rewrite append_assoc, <- join_sep_app by assumption.
      apply normpath_normal; [exact HS| |now apply Forall_app].
      intros E. apply app_eq_nil in E as [E _]. now apply HCne.
    + change ("/" +:+ "") with "/".
      rewrite <- (append_assoc _ "/" loc), startswith_app_l. cbn [andb].
      apply negb_true_iff, String.eqb_neq. intros E.
      now apply append_same_l in E.
Qed.

(** A location made of ordinary names (no empty, [.] or [..] component,
    so neither absolute nor climbing) is accepted whatever the download
    path and the repository id are, when the working directory is
    absolute, as [os.getcwd()] is: [pkg_download_path] returns the target
    directory joined with the location, unchanged by [normpath], and this
    path lies strictly below the target directory. *)
Theorem plain_location_accepted (p : Package.t) (st : State) :
  startswith cwd "/" = true ->
  targets_cached cwd opts st ->
  Forall (fun c => plain_name c = true) (split_sep (Package.location p)) ->
  let target := target_of cwd opts st (Package.repo p) in
  let dest := join target (Package.location p) in
  fst (pkg_download_path cwd opts p st) = Ok dest
  /\ strict_path_prefix target dest = true.
Proof.
  intros Hcwd Hcache Hloc target dest.
  assert (Ht : exists S C, (S = "/" \/ S = "//")
            /\ Forall (fun c => plain_name c = true) C
            /\ target = S +:+ join_sep C).
  { unfold target. rewrite (target_of_cached st _ Hcache). unfold _pkgdir.
    apply normpath_rooted. unfold join3. now do 2 apply join_absolute. }
  destruct Ht as (S & C & HS & HC & Et).
  destruct (join_plain_location target (Package.location p) S C HS HC Et Hloc)
    as (Hnorm & Hstrict & Hstart).
  split; [|exact Hstrict].
  destruct (pkg_download_path_full cwd opts p st) as (s1 & Hrun & _).
  fold target in Hrun. rewrite Hnorm, Hstart in Hrun.
  now rewrite Hrun.
Qed.

End Locations.

Lemma plain_location_accepted_witness :
  fst (pkg_download_path "/srv" opts_plain
         (at_location repo_A "Packages/x-1.0.rpm") empty_store)
  = Ok "/srv/A/Packages/x-1.0.rpm"
  /\ strict_path_prefix "/srv/A" "/srv/A/Packages/x-1.0.rpm" = true.
Proof.
  apply (plain_location_accepted "/srv" opts_plain
           (at_location repo_A "Packages/x-1.0.rpm") empty_store).
  - reflexivity.
  - intros r t H. discriminate H.
  - repeat constructor.
Defined.

End Coverage.
